(** * Xmlconverter: the configuration-language compiler of [converter.py]

    The program hands the grammar [GRAMMAR] to Lark (LALR, contextual
    lexer) together with an embedded [ConfigTransformer]; Lark calls the
    transformer's methods while it parses, so tokenizing, parsing and
    evaluation are one left-to-right pass.  The result list is serialized by
    [value_to_xml] and written by [main].

    The development follows the program:
    - [Py]: the Python values the program manipulates (int, float, str,
      list, dict, tuple, None, Lark trees), exceptions, and the builtins it
      uses ([float], [int], [abs], [len], the arithmetic operators);
    - [Lexer]: the terminals of the grammar and the contextual lexer;
    - [ConfigTransformer]: the methods of the class of that name;
    - [Parser]: the rules of the grammar, calling the transformer as Lark
      does;
    - [Xml]: [value_to_xml] and [main];
    - [TestBasic]: the tests of [test_basic.py];
    - the properties. *)

From Stdlib Require Import ZArith List String Ascii Bool Lia.
From Stdlib Require Import Floats.SpecFloat.
Import ListNotations.

#[local] Set Warnings "-register-all".
#[local] Open Scope string_scope.
#[local] Open Scope Z_scope.

(** ** Python values and builtins *)

Module Py.

(** The exceptions the program can raise.  [LarkError] stands for every
    subclass of [lark.exceptions.LarkError] (unexpected characters,
    unexpected token, unexpected end of input). *)
Inductive exn :=
| LarkError
| TypeError
| ValueError
| ZeroDivisionError
| IndexError
| AttributeError
| OverflowError.

Inductive result (A : Type) :=
| Ok (a : A)
| Raise (e : exn).
Arguments Ok {A} a.
Arguments Raise {A} e.

Definition bind {A B} (r : result A) (k : A -> result B) : result B :=
  match r with
  | Ok a => k a
  | Raise e => Raise e
  end.

Notation "x <- r ;; k" := (bind r (fun x => k))
  (at level 61, r at next level, right associativity).

(** Python's [float] is IEEE 754 binary64; [spec_float] with 53 bits of
    precision and [emax = 1024] is the Standard Library's model of it. *)
Definition prec : Z := 53.
Definition emax : Z := 1024.

(** The names of the grammar rules (and aliases) that have no method in
    [ConfigTransformer]: for these Lark builds a [Tree] whose [data] is the
    name.  Every other rule has a callback, so no tree carries its name. *)
Inductive tree_data :=
| expr | add | sub | term | mul | div | factor | function.

(** The objects of the program.  [VConst name value] is the tuple
    [('const', name, value)] that the [const] callback returns, the only
    tuple that leaves the transformer. *)
Inductive pyobj :=
| VNone
| VInt (z : Z)
| VFloat (f : spec_float)
| VStr (s : string)
| VList (items : list pyobj)
| VDict (entries : list (string * pyobj))
| VConst (name : string) (value : pyobj)
| VTree (data : tree_data) (children : list pyobj).

(** [isinstance(x, (int, float))] *)
Definition is_number (x : pyobj) : bool :=
  match x with
  | VInt _ | VFloat _ => true
  | _ => false
  end.

(** *** dict: insertion-ordered, keys unique.  [d[k] = v] overwrites the
    value of a key that is present, in place, and appends a new key. *)
Definition pydict := list (string * pyobj).

Fixpoint dict_get (d : pydict) (k : string) : option pyobj :=
  match d with
  | [] => None
  | (k', v) :: d' => if String.eqb k' k then Some v else dict_get d' k
  end.

Fixpoint dict_set (d : pydict) (k : string) (v : pyobj) : pydict :=
  match d with
  | [] => [(k, v)]
  | (k', v') :: d' =>
      if String.eqb k' k then (k', v) :: d' else (k', v') :: dict_set d' k v
  end.

Definition dict_keys (d : pydict) : list string := map fst d.

(** *** float *)

(** [float(i)] for an int: rounded to nearest, ties to even;
    [OverflowError] when the int is too large for a double. *)
Definition float_of_int (z : Z) : result spec_float :=
  match binary_normalize prec emax z 0 false with
  | S754_infinity _ => Raise OverflowError
  | f => Ok f
  end.

(** [x.is_integer()] *)
Definition is_integer (x : spec_float) : bool :=
  match x with
  | S754_zero _ => true
  | S754_finite _ m e =>
      if 0 <=? e then true else Z.pos m mod 2 ^ (- e) =? 0
  | S754_infinity _ | S754_nan => false
  end.

(** [int(x)] for a finite float: truncation towards zero. *)
Definition int_of_float (x : spec_float) : Z :=
  match x with
  | S754_finite s m e =>
      let a := if 0 <=? e then Z.pos m * 2 ^ e else Z.pos m / 2 ^ (- e) in
      if s then - a else a
  | _ => 0
  end.

(** [x != 0] on a float: false on both zeros, true on NaN. *)
Definition float_is_zero (x : spec_float) : bool :=
  match x with
  | S754_zero _ => true
  | _ => false
  end.

(** [a / b] on two ints, [b] not zero: the quotient correctly rounded;
    [OverflowError] when it is too large for a double. *)
Definition int_truediv (a b : Z) : result spec_float :=
  let negate := xorb (a <? 0) (b <? 0) in
  match a, b with
  | 0, _ => Ok (S754_zero negate)
  | _, 0 => Raise ZeroDivisionError
  | _, _ =>
      match SFdiv prec emax
              (S754_finite (a <? 0) (Z.to_pos (Z.abs a)) 0)
              (S754_finite (b <? 0) (Z.to_pos (Z.abs b)) 0) with
      | S754_infinity _ => Raise OverflowError
      | f => Ok f
      end
  end.

(** The operand pair of a mixed operation after Python's coercion: an int
    meeting a float is converted with [float_of_int]. *)
Inductive operands :=
| Ints (a b : Z)
| Floats (a b : spec_float).

Definition coerce (a b : pyobj) : result operands :=
  match a, b with
  | VInt x, VInt y => Ok (Ints x y)
  | VInt x, VFloat y => fx <- float_of_int x ;; Ok (Floats fx y)
  | VFloat x, VInt y => fy <- float_of_int y ;; Ok (Floats x fy)
  | VFloat x, VFloat y => Ok (Floats x y)
  | _, _ => Raise TypeError
  end.

(** [a + b], [a - b], [a * b], [a / b] on numbers. *)
Definition py_add (a b : pyobj) : result pyobj :=
  o <- coerce a b ;;
  match o with
  | Ints x y => Ok (VInt (x + y))
  | Floats x y => Ok (VFloat (SFadd prec emax x y))
  end.

Definition py_sub (a b : pyobj) : result pyobj :=
  o <- coerce a b ;;
  match o with
  | Ints x y => Ok (VInt (x - y))
  | Floats x y => Ok (VFloat (SFsub prec emax x y))
  end.

Definition py_mul (a b : pyobj) : result pyobj :=
  o <- coerce a b ;;
  match o with
  | Ints x y => Ok (VInt (x * y))
  | Floats x y => Ok (VFloat (SFmul prec emax x y))
  end.

Definition py_truediv (a b : pyobj) : result pyobj :=
  o <- coerce a b ;;
  match o with
  | Ints x y => f <- int_truediv x y ;; Ok (VFloat f)
  | Floats x y =>
      if float_is_zero y then Raise ZeroDivisionError
      else Ok (VFloat (SFdiv prec emax x y))
  end.

(** [b != 0] on a number. *)
Definition py_ne_zero (b : pyobj) : bool :=
  match b with
  | VInt y => negb (y =? 0)
  | VFloat y => negb (float_is_zero y)
  | _ => true
  end.

(** [abs(x)] on a number. *)
Definition py_abs (x : pyobj) : result pyobj :=
  match x with
  | VInt z => Ok (VInt (Z.abs z))
  | VFloat f => Ok (VFloat (SFabs f))
  | _ => Raise TypeError
  end.

(** [x == s] against a string literal. *)
Definition py_eq_str (x : pyobj) (s : string) : bool :=
  match x with
  | VStr t => String.eqb t s
  | _ => false
  end.

(** *** Decimal literals: the text [float(s)] reads *)

Definition in_range (lo hi : nat) (c : ascii) : bool :=
  (lo <=? nat_of_ascii c)%nat && (nat_of_ascii c <=? hi)%nat.

Definition is_digit : ascii -> bool := in_range 48 57.

(** The longest prefix of [s] whose characters satisfy [p], and the rest. *)
Fixpoint span (p : ascii -> bool) (s : string) : string * string :=
  match s with
  | String c s' =>
      if p c then let (a, b) := span p s' in (String c a, b) else ("", s)
  | "" => ("", "")
  end.

Definition digit_val (c : ascii) : Z := Z.of_nat (nat_of_ascii c) - 48.

Fixpoint Z_of_digits_acc (acc : Z) (s : string) : Z :=
  match s with
  | String c s' => Z_of_digits_acc (10 * acc + digit_val c) s'
  | "" => acc
  end.

Definition Z_of_digits : string -> Z := Z_of_digits_acc 0.

Record decimal := {
  neg : bool;
  int_digits : string;
  frac_digits : string;
  exponent : Z
}.

(** The text after the prefix [p] of [s], when [s] starts with [p]. *)
Fixpoint strip_prefix (p s : string) : option string :=
  match p, s with
  | "", _ => Some s
  | String a p', String b s' =>
      if Ascii.eqb a b then strip_prefix p' s' else None
  | _, "" => None
  end.

Definition scan_sign (s : string) : bool * string :=
  match strip_prefix "+" s with
  | Some r => (false, r)
  | None =>
      match strip_prefix "-" s with
      | Some r => (true, r)
      | None => (false, s)
      end
  end.

(** An exponent part, [("e"|"E") ["+"|"-"] DIGIT+]. *)
Definition scan_exp (s : string) : option (Z * string) :=
  match s with
  | String c r =>
      if Ascii.eqb c "e" || Ascii.eqb c "E" then
        let (sg, r1) := scan_sign r in
        let (ds, r2) := span is_digit r1 in
        match ds with
        | "" => None
        | _ => Some (if sg then - Z_of_digits ds else Z_of_digits ds, r2)
        end
      else None
  | "" => None
  end.

Definition with_opt_exp (ds fs rest : string) : option (decimal * string) :=
  match scan_exp rest with
  | Some (e, r) => Some (Build_decimal false ds fs e, r)
  | None => Some (Build_decimal false ds fs 0, rest)
  end.

(** An unsigned decimal number at the start of [s], tried in the order
    [INT _EXP], [INT "." INT? _EXP?], ["." INT _EXP?], [INT]. *)
Definition scan_unsigned (s : string) : option (decimal * string) :=
  let (ds, s2) := span is_digit s in
  match ds with
  | "" =>
      match strip_prefix "." s2 with
      | Some s3 =>
          let (fs, s4) := span is_digit s3 in
          match fs with
          | "" => None
          | _ => with_opt_exp "" fs s4
          end
      | None => None
      end
  | _ =>
      match scan_exp s2 with
      | Some (e, r) => Some (Build_decimal false ds "" e, r)
      | None =>
          match strip_prefix "." s2 with
          | Some s3 =>
              let (fs, s4) := span is_digit s3 in with_opt_exp ds fs s4
          | None => Some (Build_decimal false ds "" 0, s2)
          end
      end
  end.

Definition with_sign (sg : bool) (d : decimal) : decimal :=
  Build_decimal sg (int_digits d) (frac_digits d) (exponent d).

(** A signed decimal number at the start of [s]: [["+"|"-"] NUMBER]. *)
Definition scan_number (s : string) : option (decimal * string) :=
  let (sg, s1) := scan_sign s in
  match scan_unsigned s1 with
  | Some (d, rest) => Some (with_sign sg d, rest)
  | None => None
  end.

(** The double nearest to [(-1)^neg * digits * 10^(exponent - #frac)]:
    ties to even, infinity on overflow, zero or a subnormal on underflow. *)
Definition float_of_decimal (d : decimal) : spec_float :=
  let m := Z_of_digits (int_digits d ++ frac_digits d) in
  let e := exponent d - Z.of_nat (String.length (frac_digits d)) in
  if m =? 0 then S754_zero (neg d)
  else if 0 <=? e then
    binary_normalize prec emax ((if neg d then - m else m) * 10 ^ e) 0 false
  else
    SFdiv prec emax (S754_finite (neg d) (Z.to_pos m) 0)
                    (S754_finite false (Z.to_pos (10 ^ (- e))) 0).

(** [float(s)] on the text of a number; [ValueError] on any other text
    (Python also reads "inf", "nan", blanks and underscores, which no
    number token contains). *)
Definition float_of_str (s : string) : result spec_float :=
  match scan_number s with
  | Some (d, "") => Ok (float_of_decimal d)
  | _ => Raise ValueError
  end.

End Py.

(** ** The terminals of [GRAMMAR] and Lark's contextual lexer *)

Module Lexer.
Import Py.

(** [CNAME] and [SIGNED_NUMBER] are the named terminals; the others are the
    names Lark gives to the string literals of the rules. *)
Inductive terminal :=
| CONST | TABLE | LEN | ABS
| CNAME | SIGNED_NUMBER
| LPAR | RPAR | LSQB | RSQB | COMMA | EQUAL | VBAR
| PLUS | MINUS | STAR | SLASH.

Definition terminal_eqb (a b : terminal) : bool :=
  match a, b with
  | CONST, CONST | TABLE, TABLE | LEN, LEN | ABS, ABS
  | CNAME, CNAME | SIGNED_NUMBER, SIGNED_NUMBER
  | LPAR, LPAR | RPAR, RPAR | LSQB, LSQB | RSQB, RSQB
  | COMMA, COMMA | EQUAL, EQUAL | VBAR, VBAR
  | PLUS, PLUS | MINUS, MINUS | STAR, STAR | SLASH, SLASH => true
  | _, _ => false
  end.

Definition accepted (t : terminal) (accepts : list terminal) : bool :=
  existsb (terminal_eqb t) accepts.

Record Token := { type_ : terminal; value : string }.

(** The string literal of a terminal defined by one. *)
Definition literal (t : terminal) : option string :=
  match t with
  | CONST => Some "const" | TABLE => Some "table"
  | LEN => Some "len" | ABS => Some "abs"
  | LPAR => Some "(" | RPAR => Some ")"
  | LSQB => Some "[" | RSQB => Some "]"
  | COMMA => Some "," | EQUAL => Some "=" | VBAR => Some "|"
  | PLUS => Some "+" | MINUS => Some "-"
  | STAR => Some "*" | SLASH => Some "/"
  | CNAME | SIGNED_NUMBER => None
  end.

(** The literals that the regexp of [CNAME] matches whole: in a lexer that
    has both, Lark drops the literal and retypes a [CNAME] token whose
    whole text is the literal. *)
Definition keyword (word : string) : option terminal :=
  if String.eqb word "const" then Some CONST
  else if String.eqb word "table" then Some TABLE
  else if String.eqb word "len" then Some LEN
  else if String.eqb word "abs" then Some ABS
  else None.

(** [WS]: blank, tab, form feed, carriage return, line feed. *)
Definition is_ws (c : ascii) : bool :=
  let n := nat_of_ascii c in
  (n =? 32)%nat || (n =? 9)%nat || (n =? 12)%nat || (n =? 13)%nat
  || (n =? 10)%nat.

Definition is_newline (c : ascii) : bool := (nat_of_ascii c =? 10)%nat.

Definition is_lower : ascii -> bool := in_range 97 122.

(** [[a-z0-9_]] *)
Definition is_cname_char (c : ascii) : bool :=
  is_lower c || is_digit c || (nat_of_ascii c =? 95)%nat.

(** [.*?#/] after the start marker: the text after the first end marker,
    provided no line feed comes before it ([.] does not match a line feed:
    the regexp carries no [s] flag). *)
Fixpoint block_end (s : string) : option string :=
  match strip_prefix "#/" s with
  | Some rest => Some rest
  | None =>
      match s with
      | String c s' => if is_newline c then None else block_end s'
      | "" => None
      end
  end.

(** One ignored lexeme at the start of the text: [WS], [![^\n]*] or
    [/#.*?#/]; the result is the text after it. *)
Definition match_ignored (text : string) : option string :=
  match text with
  | String c rest =>
      if is_ws c then Some (snd (span is_ws rest))
      else if Ascii.eqb c "!" then
        Some (snd (span (fun c => negb (is_newline c)) rest))
      else
        match strip_prefix "/#" text with
        | Some body => block_end body
        | None => None
        end
  | "" => None
  end.

(** The lexer loops over ignored lexemes; each is at least one character
    long, so the length of the text bounds the loop. *)
Fixpoint skip_ignored_loop (n : nat) (text : string) : string :=
  match n with
  | O => text
  | S n' =>
      match match_ignored text with
      | Some rest => skip_ignored_loop n' rest
      | None => text
      end
  end.

Definition skip_ignored (text : string) : string :=
  skip_ignored_loop (String.length text) text.

(** The first literal terminal of [accepts] that starts the text.  No
    literal of the grammar is a prefix of another, so the order in which
    they are tried does not matter. *)
Fixpoint match_literal (accepts : list terminal) (text : string)
  : option (Token * string) :=
  match accepts with
  | [] => None
  | t :: accepts' =>
      match literal t with
      | Some lit =>
          match strip_prefix lit text with
          | Some rest => Some (Build_Token t lit, rest)
          | None => match_literal accepts' text
          end
      | None => match_literal accepts' text
      end
  end.

(** The text that [scan_number] consumed. *)
Definition lexeme (text rest : string) : string :=
  substring 0 (String.length text - String.length rest) text.

(** The next token as the lexer of a parser state produces it: [accepts]
    are the terminals the state accepts.  Ignored lexemes go first (the
    block comment is tried before [SLASH]); then the regexp terminals
    [CNAME] and [SIGNED_NUMBER], then the literals.  [None] is the end of
    the input.  A text that starts none of them raises: unexpected
    characters, or a token the state does not accept. *)
Definition next_token (accepts : list terminal) (text : string)
  : result (option Token * string) :=
  let text := skip_ignored text in
  match text with
  | "" => Ok (None, "")
  | String c _ =>
      if accepted CNAME accepts && is_lower c then
        let (word, rest) := span is_cname_char text in
        match keyword word with
        | Some k =>
            if accepted k accepts then Ok (Some (Build_Token k word), rest)
            else Ok (Some (Build_Token CNAME word), rest)
        | None => Ok (Some (Build_Token CNAME word), rest)
        end
      else
        match (if accepted SIGNED_NUMBER accepts then scan_number text
               else None) with
        | Some (_, rest) =>
            Ok (Some (Build_Token SIGNED_NUMBER (lexeme text rest)), rest)
        | None =>
            match match_literal accepts text with
            | Some (tok, rest) => Ok (Some tok, rest)
            | None => Raise LarkError
            end
        end
  end.

End Lexer.

(** ** class ConfigTransformer *)

Module ConfigTransformer.
Import Py Lexer.

Section Methods.

(** [self.constants] *)
Variable constants : pydict.

(** [_get_value], [_transform_tree], [_eval_binary_op] and
    [_eval_function] call one another along the tree.  The three bodies
    below take [_get_value] as a parameter; the fixpoint closes the loop. *)
Section Bodies.

Variable get_value : pyobj -> result pyobj.

Definition _zero_division_error : result pyobj := Raise ZeroDivisionError.

Definition eval_binary_op_body (children : list pyobj)
    (op_func : pyobj -> pyobj -> result pyobj) : result pyobj :=
  match children with
  | [] => Raise IndexError
  | c0 :: rest =>
      left <- get_value c0 ;;
      match rest with
      | [] => Raise IndexError
      | c1 :: _ =>
          right <- get_value c1 ;;
          if negb (is_number left && is_number right) then Raise TypeError
          else op_func left right
      end
  end.

Definition eval_function_body (tree : pyobj) : result pyobj :=
  match tree with
  | VTree _ children =>
      match children with
      | [] => Raise IndexError                  (* tree.children[0] *)
      | func_name :: rest =>
          match rest with
          | [] => Raise IndexError              (* tree.children[1] *)
          | arg_tree :: _ =>
              arg <- get_value arg_tree ;;
              if py_eq_str func_name "len" then
                match arg with
                | VList items => Ok (VInt (Z.of_nat (List.length items)))
                | _ => Raise TypeError
                end
              else if py_eq_str func_name "abs" then
                if is_number arg then py_abs arg else Raise TypeError
              else Raise ValueError
          end
      end
  | _ => Raise AttributeError
  end.

(** The branches of the source for ['value'] and ['const_expr'] and the
    final [getattr] are dead: those rules have callbacks, and [tree_data]
    has no such name. *)
Definition transform_tree_body (tree : pyobj) : result pyobj :=
  match tree with
  | VTree data children =>
      match data with
      | add => eval_binary_op_body children (fun a b => py_add a b)
      | sub => eval_binary_op_body children (fun a b => py_sub a b)
      | mul => eval_binary_op_body children (fun a b => py_mul a b)
      | div =>
          eval_binary_op_body children
            (fun a b =>
               if py_ne_zero b then py_truediv a b
               else _zero_division_error)
      | function => eval_function_body tree
      | expr | term | factor =>
          match children with
          | [] => Raise IndexError
          | c :: _ => get_value c
          end
      end
  | _ => Raise AttributeError
  end.

End Bodies.

Fixpoint _get_value (node : pyobj) : result pyobj :=
  match node with
  | VTree _ _ => transform_tree_body _get_value node
  | VStr s =>
      match dict_get constants s with
      | Some v => Ok v
      | None => Ok node
      end
  | _ => Ok node
  end.

Definition _transform_tree : pyobj -> result pyobj :=
  transform_tree_body _get_value.

Definition _eval_binary_op :
    list pyobj -> (pyobj -> pyobj -> result pyobj) -> result pyobj :=
  eval_binary_op_body _get_value.

Definition _eval_function : pyobj -> result pyobj :=
  eval_function_body _get_value.

(** The callbacks.  Lark passes to a rule's callback the list of the
    rule's children with the literal tokens filtered out; each callback
    below takes the children of its rule as arguments, typed as the grammar
    fixes them. *)

(** [CNAME]: the token's text, a plain [str]. *)
Definition CNAME (token : Token) : pyobj := VStr (value token).

(** [number: SIGNED_NUMBER], [n = [token]]. *)
Definition number (n : Token) : result pyobj :=
  val <- float_of_str (value n) ;;
  Ok (if is_integer val then VInt (int_of_float val) else VFloat val).

(** [[self._get_value(item) for item in items]] *)
Fixpoint get_values (items : list pyobj) : result (list pyobj) :=
  match items with
  | [] => Ok []
  | item :: items' =>
      v <- _get_value item ;;
      vs <- get_values items' ;;
      Ok (v :: vs)
  end.

Definition array (items : list pyobj) : result pyobj :=
  vs <- get_values items ;; Ok (VList vs).

(** [{k: self._get_value(v) for k, v in items}], built entry by entry. *)
Fixpoint dict_comprehension (d : pydict) (items : list (string * pyobj))
  : result pydict :=
  match items with
  | [] => Ok d
  | (k, v) :: items' =>
      gv <- _get_value v ;;
      dict_comprehension (dict_set d k gv) items'
  end.

Definition dict (items : list (string * pyobj)) : result pyobj :=
  d <- dict_comprehension [] items ;; Ok (VDict d).

(** [dict_entry: CNAME "=" value], [items = [key, value]]; [str(key)] is
    [key], a [str] already. *)
Definition dict_entry (key : string) (value : pyobj) : string * pyobj :=
  (key, value).

Definition const_expr (child : pyobj) : result pyobj := _get_value child.

(** [const: "const" CNAME "=" value], [children = [name, raw_value]].  The
    second component of the result is [self.constants] after the call. *)
Definition const (name : string) (raw_value : pyobj)
  : result (pyobj * pydict) :=
  value <- _get_value raw_value ;;
  Ok (VConst name value, dict_set constants name value).

Definition value (child : pyobj) : result pyobj := _get_value child.

Definition item (child : pyobj) : pyobj := child.

Definition start (items : list pyobj) : list pyobj := items.

End Methods.

End ConfigTransformer.

(** ** The rules of [GRAMMAR], parsed as
    [Lark(GRAMMAR, parser='lalr', transformer=ConfigTransformer())] does

    With an embedded transformer Lark calls the callback of a rule when it
    reduces the rule, and pushes the callback's result in place of a tree.
    Each token is produced by the lexer of the current parser state, which
    knows only the terminals that state accepts: [next_token] receives them.
    The literal tokens ("const", "len", "(", ...) are filtered out of the
    children; a rule without a callback gives a [Tree] named after the rule
    or its alias.

    The functions below follow the rules one by one; the left-recursive
    rules [expr] and [term], and the repetitions, are loops.  [fuel] bounds
    the nesting depth of the calls; [None] means the bound was reached,
    which the bound that [parse] takes excludes ([parse_total]). *)

Module Parser.
Import Py Lexer.
Module T := ConfigTransformer.

Definition M (A : Type) : Type := option (result A).

Definition ret {A} (a : A) : M A := Some (Ok a).

Definition fail {A} (e : exn) : M A := Some (Raise e).

Definition lift {A} (r : result A) : M A := Some r.

Definition bindM {A B} (m : M A) (k : A -> M B) : M B :=
  match m with
  | Some (Ok a) => k a
  | Some (Raise e) => Some (Raise e)
  | None => None
  end.

Notation "x <~ m ;; k" := (bindM m (fun x => k))
  (at level 61, m at next level, right associativity).
Notation "' p <~ m ;; k" := (bindM m (fun p => k))
  (at level 61, p pattern, m at next level, right associativity).

(** The next token, which must be the terminal [t]. *)
Definition expect (t : terminal) (text : string) : M (Token * string) :=
  '(tok, rest) <~ lift (next_token [t] text) ;;
  match tok with
  | Some tok => ret (tok, rest)
  | None => fail LarkError
  end.

(** What may follow a [value]: the start of the next item, a comma, a
    closing parenthesis or bracket, or the end of the input.  These are the
    terminals of the state that reduces [const_expr]. *)
Definition follow_value : list terminal :=
  [CONST; LPAR; TABLE; COMMA; RPAR; RSQB].

(** *** expr, term, factor, function: trees, no callback but [number]
    and [CNAME] *)

Fixpoint parse_expr (fuel : nat) (text : string) : M (pyobj * string) :=
  match fuel with
  | O => None
  | S fuel =>
      '(t, rest) <~ parse_term fuel text ;;
      expr_loop fuel (VTree expr [t]) rest
  end

(** [expr "+" term -> add | expr "-" term -> sub] *)
with expr_loop (fuel : nat) (left : pyobj) (text : string)
  : M (pyobj * string) :=
  match fuel with
  | O => None
  | S fuel =>
      '(tok, rest) <~ lift (next_token [PLUS; MINUS; VBAR; RPAR] text) ;;
      match option_map type_ tok with
      | Some PLUS =>
          '(t, rest) <~ parse_term fuel rest ;;
          expr_loop fuel (VTree add [left; t]) rest
      | Some MINUS =>
          '(t, rest) <~ parse_term fuel rest ;;
          expr_loop fuel (VTree sub [left; t]) rest
      | _ => ret (left, text)
      end
  end

with parse_term (fuel : nat) (text : string) : M (pyobj * string) :=
  match fuel with
  | O => None
  | S fuel =>
      '(f, rest) <~ parse_factor fuel text ;;
      term_loop fuel (VTree term [f]) rest
  end

(** [term "*" factor -> mul | term "/" factor -> div] *)
with term_loop (fuel : nat) (left : pyobj) (text : string)
  : M (pyobj * string) :=
  match fuel with
  | O => None
  | S fuel =>
      '(tok, rest) <~
        lift (next_token [STAR; SLASH; PLUS; MINUS; VBAR; RPAR] text) ;;
      match option_map type_ tok with
      | Some STAR =>
          '(f, rest) <~ parse_factor fuel rest ;;
          term_loop fuel (VTree mul [left; f]) rest
      | Some SLASH =>
          '(f, rest) <~ parse_factor fuel rest ;;
          term_loop fuel (VTree div [left; f]) rest
      | _ => ret (left, text)
      end
  end

(** [factor: number | CNAME | "(" expr ")" | function] and
    [function: "len" "(" expr ")" | "abs" "(" expr ")"].  The tokens "len"
    and "abs" are literals, filtered out like the parentheses: the tree of
    [function] has the tree of [expr] as its only child. *)
with parse_factor (fuel : nat) (text : string) : M (pyobj * string) :=
  match fuel with
  | O => None
  | S fuel =>
      '(tok, rest) <~
        lift (next_token [SIGNED_NUMBER; CNAME; LPAR; LEN; ABS] text) ;;
      match tok with
      | None => fail LarkError
      | Some tok =>
          match type_ tok with
          | SIGNED_NUMBER =>
              n <~ lift (T.number tok) ;;
              ret (VTree factor [n], rest)
          | CNAME => ret (VTree factor [T.CNAME tok], rest)
          | LPAR =>
              '(e, rest) <~ parse_expr fuel rest ;;
              '(_, rest) <~ expect RPAR rest ;;
              ret (VTree factor [e], rest)
          | LEN | ABS =>
              '(_, rest) <~ expect LPAR rest ;;
              '(e, rest) <~ parse_expr fuel rest ;;
              '(_, rest) <~ expect RPAR rest ;;
              ret (VTree factor [VTree function [e]], rest)
          | _ => fail LarkError
          end
      end
  end.

(** *** value, array, dict, dict_entry, const_expr: callbacks, which read
    [self.constants] *)

Fixpoint parse_value (fuel : nat) (constants : pydict) (text : string)
  : M (pyobj * string) :=
  match fuel with
  | O => None
  | S fuel =>
      '(tok, rest) <~
        lift (next_token [SIGNED_NUMBER; LPAR; TABLE; VBAR; CNAME] text) ;;
      match tok with
      | None => fail LarkError
      | Some tok =>
          match type_ tok with
          | SIGNED_NUMBER =>
              n <~ lift (T.number tok) ;;
              v <~ lift (T.value constants n) ;;
              ret (v, rest)
          | CNAME =>
              v <~ lift (T.value constants (T.CNAME tok)) ;;
              ret (v, rest)
          | LPAR =>
              '(a, rest) <~ parse_array fuel constants rest ;;
              v <~ lift (T.value constants a) ;;
              ret (v, rest)
          | TABLE =>
              '(d, rest) <~ parse_dict fuel constants rest ;;
              v <~ lift (T.value constants d) ;;
              ret (v, rest)
          | VBAR =>
              (* const_expr: "|" expr "|".  The rule is reduced, and its
                 callback called, once the token after the closing bar has
                 been read by the lexer of that state. *)
              '(e, rest) <~ parse_expr fuel rest ;;
              '(_, rest) <~ expect VBAR rest ;;
              _ <~ lift (next_token follow_value rest) ;;
              c <~ lift (T.const_expr constants e) ;;
              v <~ lift (T.value constants c) ;;
              ret (v, rest)
          | _ => fail LarkError
          end
      end
  end

(** [array: "(" [value ("," value)*] ")"], after the opening parenthesis.
    The optional part, when absent, leaves one [None] among the children
    (Lark's [maybe_placeholders]). *)
with parse_array (fuel : nat) (constants : pydict) (text : string)
  : M (pyobj * string) :=
  match fuel with
  | O => None
  | S fuel =>
      '(tok, rest) <~
        lift (next_token [SIGNED_NUMBER; LPAR; TABLE; VBAR; CNAME; RPAR]
                text) ;;
      match option_map type_ tok with
      | Some RPAR =>
          a <~ lift (T.array constants [VNone]) ;;
          ret (a, rest)
      | _ =>
          '(v, rest) <~ parse_value fuel constants text ;;
          array_loop fuel constants [v] rest
      end
  end

with array_loop (fuel : nat) (constants : pydict) (items : list pyobj)
    (text : string) : M (pyobj * string) :=
  match fuel with
  | O => None
  | S fuel =>
      '(tok, rest) <~ lift (next_token [COMMA; RPAR] text) ;;
      match option_map type_ tok with
      | Some COMMA =>
          '(v, rest) <~ parse_value fuel constants rest ;;
          array_loop fuel constants (items ++ [v]) rest
      | Some RPAR =>
          a <~ lift (T.array constants items) ;;
          ret (a, rest)
      | _ => fail LarkError
      end
  end

(** [dict: "table" "(" "[" dict_entry ("," dict_entry)* "]" ")"], after
    the keyword. *)
with parse_dict (fuel : nat) (constants : pydict) (text : string)
  : M (pyobj * string) :=
  match fuel with
  | O => None
  | S fuel =>
      '(_, rest) <~ expect LPAR text ;;
      '(_, rest) <~ expect LSQB rest ;;
      '(e, rest) <~ parse_dict_entry fuel constants rest ;;
      dict_loop fuel constants [e] rest
  end

with dict_loop (fuel : nat) (constants : pydict)
    (items : list (string * pyobj)) (text : string) : M (pyobj * string) :=
  match fuel with
  | O => None
  | S fuel =>
      '(tok, rest) <~ lift (next_token [COMMA; RSQB] text) ;;
      match option_map type_ tok with
      | Some COMMA =>
          '(e, rest) <~ parse_dict_entry fuel constants rest ;;
          dict_loop fuel constants (items ++ [e]) rest
      | Some RSQB =>
          '(_, rest) <~ expect RPAR rest ;;
          d <~ lift (T.dict constants items) ;;
          ret (d, rest)
      | _ => fail LarkError
      end
  end

(** [dict_entry: CNAME "=" value] *)
with parse_dict_entry (fuel : nat) (constants : pydict) (text : string)
  : M ((string * pyobj) * string) :=
  match fuel with
  | O => None
  | S fuel =>
      '(key, rest) <~ expect CNAME text ;;
      '(_, rest) <~ expect EQUAL rest ;;
      '(v, rest) <~ parse_value fuel constants rest ;;
      ret (T.dict_entry (Lexer.value key) v, rest)
  end.

(** *** start, item, const *)

(** [start: item*] with [item: const | array | dict] and
    [const: "const" CNAME "=" value].  [constants] is [self.constants] as
    the items parsed so far left it; [items] are their results. *)
Fixpoint start_loop (fuel : nat) (constants : pydict) (items : list pyobj)
    (text : string) : M (list pyobj) :=
  match fuel with
  | O => None
  | S fuel =>
      '(tok, rest) <~ lift (next_token [CONST; LPAR; TABLE] text) ;;
      match option_map type_ tok with
      | None => ret (T.start items)
      | Some CONST =>
          '(name, rest) <~ expect CNAME rest ;;
          '(_, rest) <~ expect EQUAL rest ;;
          '(v, rest) <~ parse_value fuel constants rest ;;
          '(c, constants) <~ lift (T.const constants (Lexer.value name) v) ;;
          start_loop fuel constants (items ++ [T.item c]) rest
      | Some LPAR =>
          '(a, rest) <~ parse_array fuel constants rest ;;
          start_loop fuel constants (items ++ [T.item a]) rest
      | Some TABLE =>
          '(d, rest) <~ parse_dict fuel constants rest ;;
          start_loop fuel constants (items ++ [T.item d]) rest
      | Some _ => fail LarkError
      end
  end.

(** A bound on the depth that the length of the text allows: every call
    below a loop iteration reads at least one character. *)
Definition depth_bound (text : string) : nat :=
  (8 + 8 * String.length text)%nat.

(** [parser.parse(source)] with a fresh transformer: [self.constants = {}]. *)
Definition parse (source : string) : M (list pyobj) :=
  start_loop (depth_bound source) [] [] source.

End Parser.

(** ** Serialization and the command line *)

Module Xml.
Import Py.

(** An [xml.etree.ElementTree.Element]: tag, attributes in the order they
    were set, text, children in order. *)
Inductive element :=
| Element (tag : string) (attrib : list (string * string))
          (text : option string) (children : list element).

Definition children_of (e : element) : list element :=
  match e with
  | Element _ _ _ children => children
  end.

(** [ET.SubElement(parent, ...)] appends the new element to the children of
    [parent]; [child] is that element once the function has filled it. *)
Definition SubElement (parent child : element) : element :=
  match parent with
  | Element tag attrib text children =>
      Element tag attrib text (children ++ [child])
  end.

Section Serializer.

(** [str(value)] on an object that is not a string: the printed form of a
    number or of [None], which Python defines. *)
Variable str_ : pyobj -> string.

Fixpoint value_to_xml (value : pyobj) (parent : element) {struct value}
  : element :=
  match value with
  | VInt _ | VFloat _ =>
      SubElement parent
        (Element "number"
           [("type", match value with VInt _ => "integer" | _ => "float" end)]
           (Some (str_ value)) [])
  | VList items =>
      SubElement parent
        (fold_left (fun elem item => value_to_xml item elem) items
           (Element "array" [] None []))
  | VDict entries =>
      SubElement parent
        (fold_left
           (fun elem kv =>
              let '(k, v) := kv in
              SubElement elem
                (value_to_xml v (Element "entry" [("key", k)] None [])))
           entries (Element "dict" [] None []))
  | VConst name v =>
      SubElement parent
        (value_to_xml v (Element "const" [("name", name)] None []))
  | VStr s => SubElement parent (Element "string" [] (Some s) [])
  | VNone | VTree _ _ =>
      SubElement parent (Element "value" [] (Some (str_ value)) [])
  end.

(** [prettify_xml]: [ET.tostring], [minidom.parseString] and
    [toprettyxml], the text that the XML libraries give for a tree. *)
Variable toprettyxml : element -> string.

Definition prettify_xml (elem : element) : string := toprettyxml elem.

(** The files that [main] reads and writes: a path has a content or does
    not exist. *)
Definition filesystem := string -> option string.

Definition write (fs : filesystem) (path content : string) : filesystem :=
  fun p => if String.eqb p path then Some content else fs p.

(** What [main] prints, by the [except] clause that prints it. *)
Inductive message :=
| InputNotFound
| SyntaxErrorMessage
| SemanticErrorMessage
| RuntimeErrorMessage
| TypeErrorMessage.

Record run := {
  exit_status : Z;
  stdout : list message;
  files : filesystem
}.

(** [main], with [args.input] and [args.output].  [sys.exit(1)] and an
    exception that no clause catches both end the process with status 1;
    falling off the end of [main] ends it with status 0.  The result is
    [None] when the parser's depth bound was reached, which does not
    happen ([main_total]). *)
Definition main (input output : string) (fs : filesystem) : option run :=
  match fs input with
  | None =>
      Some {| exit_status := 1; stdout := [InputNotFound]; files := fs |}
  | Some source =>
      match Parser.parse source with
      | None => None
      | Some (Ok result) =>
          let root :=
            fold_left (fun root item => value_to_xml item root) result
              (Element "config" [] None []) in
          let xml_str := prettify_xml root in
          Some {| exit_status := 0; stdout := [];
                  files := write fs output xml_str |}
      | Some (Raise LarkError) =>
          Some {| exit_status := 1; stdout := [SyntaxErrorMessage];
                  files := fs |}
      | Some (Raise ValueError) =>
          Some {| exit_status := 1; stdout := [SemanticErrorMessage];
                  files := fs |}
      | Some (Raise ZeroDivisionError) =>
          Some {| exit_status := 1; stdout := [RuntimeErrorMessage];
                  files := fs |}
      | Some (Raise TypeError) =>
          Some {| exit_status := 1; stdout := [TypeErrorMessage];
                  files := fs |}
      | Some (Raise (IndexError | AttributeError | OverflowError)) =>
          Some {| exit_status := 1; stdout := []; files := fs |}
      end
  end.

End Serializer.

End Xml.

(** ** Notions in which the properties are stated *)

Module Spec.
Import Py Lexer.

(** A line feed. *)
Definition nl : string := String "010" "".

(** The exact value of the float is the fraction [p / q]. *)
Definition is_ratio (f : spec_float) (p q : Z) : Prop :=
  match f with
  | S754_zero _ => p = 0
  | S754_finite s m e =>
      let sm := if s then Z.neg m else Z.pos m in
      if 0 <=? e then sm * 2 ^ e * q = p else sm * q = p * 2 ^ (- e)
  | S754_infinity _ | S754_nan => False
  end.

(** The float has no fractional part: its value is the integer [z]. *)
Definition is_whole (f : spec_float) (z : Z) : Prop := is_ratio f z 1.

(** The doubles 5.0 and 5.5. *)
Definition five : spec_float := S754_finite false 5629499534213120 (-50).

Definition five_and_a_half : spec_float :=
  S754_finite false 6192449487634432 (-50).

(** The tree is a binary operation: Add, Sub, Mul or Div. *)
Definition is_binary_op (data : tree_data) : bool :=
  match data with
  | add | sub | mul | div => true
  | _ => false
  end.

(** Integer 0 or Float 0.0 (of either sign). *)
Definition numeric_zero (x : pyobj) : bool :=
  match x with
  | VInt 0 => true
  | VFloat (S754_zero _) => true
  | _ => false
  end.

(** An Integer below [2^1023] in magnitude, or any other value: such an
    operand converts to a double, and its quotients do. *)
Definition in_double_range (x : pyobj) : Prop :=
  match x with
  | VInt z => - 2 ^ 1023 < z < 2 ^ 1023
  | _ => True
  end.

(** The promotion rule of Add, Sub and Mul on the numbers [l] and [r],
    as a property of the outcome: two Integers give the Integer [zop],
    two Floats the Float [fop]; an Integer with a Float gives a Float when
    the Integer is in the range of the doubles, and otherwise a Float or
    [OverflowError]. *)
Definition promoted (zop : Z -> Z -> Z)
    (fop : spec_float -> spec_float -> spec_float) (l r : pyobj)
    (outcome : result pyobj) : Prop :=
  match l, r with
  | VInt a, VInt b => outcome = Ok (VInt (zop a b))
  | VFloat x, VFloat y => outcome = Ok (VFloat (fop x y))
  | _, _ =>
      ((exists f, outcome = Ok (VFloat f)) \/ outcome = Raise OverflowError)
      /\ (in_double_range l -> in_double_range r ->
          exists f, outcome = Ok (VFloat f))
  end.

Definition is_tree (x : pyobj) : bool :=
  match x with
  | VTree _ _ => true
  | _ => false
  end.

(** The values of the entries are results of the [value] callback, not
    trees still to be evaluated. *)
Definition values_evaluated (items : list (string * pyobj)) : Prop :=
  Forall (fun kv => is_tree (snd kv) = false) items.

(** No line feed in the text. *)
Fixpoint one_line (s : string) : bool :=
  match s with
  | String c s' => negb (is_newline c) && one_line s'
  | "" => true
  end.

(** The end marker of a block comment occurs in the text. *)
Fixpoint has_end_marker (s : string) : bool :=
  match strip_prefix "#/" s with
  | Some _ => true
  | None =>
      match s with
      | String _ s' => has_end_marker s'
      | "" => false
      end
  end.

(** A text of white space and comments only: a line comment runs from
    "!" to the end of its line; a block comment runs from its start marker
    to the first end marker, on one line. *)
Inductive blank : string -> Prop :=
| blank_end : blank ""
| blank_ws c s : is_ws c = true -> blank s -> blank (String c s)
| blank_line_eof body : one_line body = true -> blank ("!" ++ body)
| blank_line body s :
    one_line body = true -> blank s -> blank ("!" ++ body ++ nl ++ s)
| blank_block body s :
    one_line body = true -> has_end_marker body = false -> blank s ->
    blank ("/#" ++ body ++ "#/" ++ s).

(** [binary_round_aux] first shifts the mantissa [mx], held at exponent
    [ex], to the right by [shift mx ex] bits when that number is positive,
    which leaves [shifted_mantissa] at [shifted_exponent]; it rounds, and
    shifts the rounded mantissa in the same way. *)
Definition shift (mx ex : Z) : Z :=
  fexp prec emax (Zdigits2 mx + ex) - ex.

Definition shifted_mantissa (mx ex : Z) : Z :=
  if 0 <? shift mx ex then mx / 2 ^ shift mx ex else mx.

Definition shifted_exponent (mx ex : Z) : Z :=
  if 0 <? shift mx ex then ex + shift mx ex else ex.

(** The scanner [scan] reads a prefix of its text: what it consumed, read
    alone, gives the same result and nothing is left. *)
Definition reads_prefix {A} (scan : string -> option (A * string)) : Prop :=
  forall s x rest, scan s = Some (x, rest) ->
    exists pre, s = pre ++ rest /\ scan pre = Some (x, "").

(** Every character satisfies [p]. *)
Fixpoint all (p : ascii -> bool) (s : string) : bool :=
  match s with
  | String c s' => p c && all p s'
  | "" => true
  end.

(** The text is empty or starts with a character outside [p]. *)
Definition stops (p : ascii -> bool) (s : string) : bool :=
  match s with
  | String c _ => negb (p c)
  | "" => true
  end.

Definition is_exp_char (c : ascii) : bool :=
  Ascii.eqb c "e" || Ascii.eqb c "E".

(** When the parser's result [m] is a value and the text left to read,
    that text is no longer than [text]. *)
Definition shorter {A} (m : Parser.M (A * string)) (text : string) : Prop :=
  forall v rest,
    m = Some (Ok (v, rest)) -> (String.length rest <= String.length text)%nat.

(** *** Elements, evaluated values, outcomes, ignored text *)

(** The element that stands for a value in the document: an array holds
    the elements of its items in order, a dict one entry per key in order,
    each with the element of the key's value as its only child. *)
Fixpoint element_of (str_ : pyobj -> string) (v : pyobj) : Xml.element :=
  match v with
  | VInt _ =>
      Xml.Element "number" [("type", "integer")] (Some (str_ v)) []
  | VFloat _ =>
      Xml.Element "number" [("type", "float")] (Some (str_ v)) []
  | VList items =>
      Xml.Element "array" [] None (map (element_of str_) items)
  | VDict entries =>
      Xml.Element "dict" [] None
        (map (fun kv =>
                Xml.Element "entry" [("key", fst kv)] None
                  [element_of str_ (snd kv)])
           entries)
  | VConst name v =>
      Xml.Element "const" [("name", name)] None [element_of str_ v]
  | VStr s => Xml.Element "string" [] (Some s) []
  | VNone | VTree _ _ => Xml.Element "value" [] (Some (str_ v)) []
  end.

(** A value with no tree left to evaluate anywhere inside. *)
Fixpoint evaluated (v : pyobj) : bool :=
  match v with
  | VNone | VInt _ | VFloat _ | VStr _ => true
  | VList items => forallb evaluated items
  | VDict entries => forallb (fun kv => evaluated (snd kv)) entries
  | VConst _ v => evaluated v
  | VTree _ _ => false
  end.

(** Every constant is bound to an evaluated value. *)
Definition all_evaluated (constants : pydict) : bool :=
  forallb (fun kv => evaluated (snd kv)) constants.

(** An expression as the rules [expr], [term], [factor] and [function]
    build it: numbers and names at the leaves, two operands under an
    operator, one child under the other nodes. *)
Fixpoint expression (v : pyobj) : bool :=
  match v with
  | VInt _ | VFloat _ | VStr _ => true
  | VTree data children =>
      match children with
      | [c] => negb (is_binary_op data) && expression c
      | [l; r] => is_binary_op data && expression l && expression r
      | _ => false
      end
  | _ => false
  end.

(** What a top-level item leaves in the result: the tuple of a [const],
    a list or a dict. *)
Definition is_item (v : pyobj) : bool :=
  match v with
  | VConst _ _ | VList _ | VDict _ => true
  | _ => false
  end.

Definition is_list (v : pyobj) : bool :=
  match v with
  | VList _ => true
  | _ => false
  end.

Definition is_dict (v : pyobj) : bool :=
  match v with
  | VDict _ => true
  | _ => false
  end.

(** The exceptions that evaluating an expression can raise. *)
Definition raised_by_evaluation (e : exn) : bool :=
  match e with
  | TypeError | ZeroDivisionError | IndexError | OverflowError => true
  | _ => false
  end.

(** The exceptions that parsing a document can raise. *)
Definition raised_by_parse (e : exn) : bool :=
  match e with
  | LarkError => true
  | _ => raised_by_evaluation e
  end.

(** The outcome of a parsing function: a value that satisfies [p], or one
    of the exceptions of [raised_by_parse]. *)
Definition outcome {A} (p : A -> bool) (r : result (A * string)) : Prop :=
  match r with
  | Ok (v, _) => p v = true
  | Raise e => raised_by_parse e = true
  end.

(** The value of the last entry for the key [k]. *)
Fixpoint last_value (items : list (string * pyobj)) (k : string)
  : option pyobj :=
  match items with
  | [] => None
  | (k', v) :: items' =>
      match last_value items' k with
      | Some w => Some w
      | None => if String.eqb k' k then Some v else None
      end
  end.

(** The keys in the order of their first occurrence, each once. *)
Fixpoint first_occurrences (keys : list string) : list string :=
  match keys with
  | [] => []
  | k :: keys' =>
      k :: filter (fun x => negb (String.eqb k x)) (first_occurrences keys')
  end.

(** The value of a result, when there is one. *)
Definition returned {A} (r : result A) : option A :=
  match r with
  | Ok a => Some a
  | Raise _ => None
  end.

(** A run of ignored lexemes: white space, line comments with the line
    feed that ends them, block comments on one line. *)
Inductive ignored : string -> Prop :=
| ignored_end : ignored ""
| ignored_ws c s : is_ws c = true -> ignored s -> ignored (String c s)
| ignored_line body s :
    one_line body = true -> ignored s -> ignored ("!" ++ body ++ nl ++ s)
| ignored_block body s :
    one_line body = true -> has_end_marker body = false -> ignored s ->
    ignored ("/#" ++ body ++ "#/" ++ s).

(** Whatever the parser [m] returns or raises, [m'] does too. *)
Definition stable {A} (m m' : Parser.M A) : Prop :=
  forall r, m = Some r -> m' = Some r.

(** A document parsed by a transformer whose [self.constants] holds
    [constants] already, as after the items that bound them. *)
Definition parse_with (constants : pydict) (source : string)
  : Parser.M (list pyobj) :=
  Parser.start_loop (Parser.depth_bound source) constants [] source.

(** Following the specification's words, a text of white space and
    comments only: a line comment runs from "!" to the end of its line; a
    block comment runs from its start marker to the first end marker, and
    may span several lines. *)
Inductive whitespace_and_comments : string -> Prop :=
| comments_end : whitespace_and_comments ""
| comments_ws c s :
    is_ws c = true -> whitespace_and_comments s ->
    whitespace_and_comments (String c s)
| comments_line_eof body :
    one_line body = true -> whitespace_and_comments ("!" ++ body)
| comments_line body s :
    one_line body = true -> whitespace_and_comments s ->
    whitespace_and_comments ("!" ++ body ++ nl ++ s)
| comments_block body s :
    has_end_marker body = false -> whitespace_and_comments s ->
    whitespace_and_comments ("/#" ++ body ++ "#/" ++ s).

End Spec.

(** ** test_basic.py *)

Module TestBasic.
Import Py Spec.

(** [first == second] for a value and an int, as [assertEqual] compares
    them: by value, so that a float equals the int it stands for. *)
Definition equals_int (first : pyobj) (second : Z) : bool :=
  match first with
  | VInt a => a =? second
  | VFloat f => is_integer f && (int_of_float f =? second)
  | _ => false
  end.

(** A test passes when [parser.parse(data)] returns and [result[i][2]]
    equals [expected]: the value of the tuple of a constant, or the third
    element of a list.  Any exception makes it fail. *)
Definition passes (data : string) (i : nat) (expected : Z) : bool :=
  match Parser.parse data with
  | Some (Ok result) =>
      match nth_error result i with
      | Some (VConst _ v) => equals_int v expected
      | Some (VList items) =>
          match nth_error items 2 with
          | Some v => equals_int v expected
          | None => false
          end
      | _ => false
      end
  | _ => false
  end.

Definition test_simple : bool := passes "const x = 5" 0 5.

Definition test_simple_expression : bool :=
  passes "const x = |10 / 2|" 0 5.

Definition test_const_reference : bool :=
  passes ("const a = 10" ++ nl ++ "const b = |a * 2|") 1 20.

End TestBasic.

(** ** Properties *)

Import Py Lexer Spec.
Module T := ConfigTransformer.

#[local] Arguments Ascii.eqb : simpl never.
#[local] Arguments is_ws : simpl never.
#[local] Arguments is_newline : simpl never.
#[local] Arguments is_digit : simpl never.

(** Case analysis on every test [0 <? x] of the goal and the hypotheses. *)
Ltac split_shifts :=
  repeat match goal with
         | |- context [0 <? ?x] => destruct (Z.ltb_spec 0 x)
         | H : context [0 <? ?x] |- _ => destruct (Z.ltb_spec 0 x)
         end.

(** *** Strings and scanners *)

Section Strings.

Lemma append_empty_r (s : string) : s ++ "" = s.
Proof.
  induction s as [|c s IH]; simpl; [reflexivity | rewrite IH; reflexivity].
Qed.

Lemma append_assoc (a b c : string) : (a ++ b) ++ c = a ++ b ++ c.
Proof.
  induction a as [|x a IH]; simpl; [reflexivity | rewrite IH; reflexivity].
Qed.

Lemma length_app (a b : string) :
  String.length (a ++ b) = (String.length a + String.length b)%nat.
Proof.
  induction a as [|c a IH]; simpl; [reflexivity | rewrite IH; reflexivity].
Qed.

Lemma substring_prefix (a b : string) :
  substring 0 (String.length (a ++ b) - String.length b) (a ++ b) = a.
Proof.
  rewrite length_app. replace (_ + _ - _)%nat with (String.length a) by lia.
  induction a as [|c a IH]; simpl.
  - destruct b; reflexivity.
  - rewrite IH. reflexivity.
Qed.

Lemma span_length p s :
  (String.length (snd (span p s)) <= String.length s)%nat.
Proof.
  induction s as [|c s IH]; simpl; [lia|].
  destruct (p c); simpl; [|lia].
  destruct (span p s); simpl in *; lia.
Qed.

Lemma span_spec p s a b :
  span p s = (a, b) -> s = a ++ b /\ all p a = true /\ stops p b = true.
Proof.
  revert a b. induction s as [|c s IH]; simpl; intros a b H.
  - inversion H; subst. auto.
  - destruct (p c) eqn:Hc.
    + destruct (span p s) as [a' b'] eqn:Hs. inversion H; subst.
      destruct (IH a' b eq_refl) as (-> & Ha & Hb).
      simpl. rewrite Hc. auto.
    + inversion H; subst. simpl. rewrite Hc. auto.
Qed.

Lemma span_exact p a b :
  all p a = true -> stops p b = true -> span p (a ++ b) = (a, b).
Proof.
  induction a as [|c a IH]; simpl; intros Ha Hb.
  - destruct b as [|c b]; [reflexivity|]. simpl in *.
    apply negb_true_iff in Hb. rewrite Hb. reflexivity.
  - apply andb_prop in Ha as [Hc Ha]. rewrite Hc, IH by assumption.
    reflexivity.
Qed.

Lemma strip_prefix_spec p s r : strip_prefix p s = Some r -> s = p ++ r.
Proof.
  revert s. induction p as [|a p IH]; intros s H; simpl in *.
  - congruence.
  - destruct s as [|b s]; [discriminate|].
    destruct (Ascii.eqb_spec a b) as [->|]; [|discriminate].
    rewrite (IH _ H). reflexivity.
Qed.

End Strings.

(** *** White space and comments *)

Section Ignored.

Lemma span_ws_blank s : blank s -> blank (snd (span is_ws s)).
Proof.
  induction 1 as [|c s Hc Hs IH|body Hb|body s Hb Hs IH|body s Hb Hm Hs IH];
    simpl.
  - constructor.
  - rewrite Hc. destruct (span is_ws s); simpl in *; assumption.
  - apply blank_line_eof; assumption.
  - apply blank_line; assumption.
  - apply blank_block; assumption.
Qed.

Lemma span_one_line_eof body :
  one_line body = true ->
  snd (span (fun c => negb (is_newline c)) body) = "".
Proof.
  induction body as [|c b IH]; simpl; intros H; [reflexivity|].
  apply andb_prop in H as [Hc Hb]. rewrite Hc.
  specialize (IH Hb). destruct (span _ b); exact IH.
Qed.

Lemma span_one_line body s :
  one_line body = true ->
  snd (span (fun c => negb (is_newline c)) (body ++ nl ++ s)) = nl ++ s.
Proof.
  induction body as [|c b IH]; simpl; intros H; [reflexivity|].
  apply andb_prop in H as [Hc Hb]. rewrite Hc.
  specialize (IH Hb). simpl in IH. destruct (span _ _); exact IH.
Qed.

Lemma strip_end_marker_app c b s :
  strip_prefix "#/" (String c b) = None ->
  strip_prefix "#/" (String c b ++ "#/" ++ s) = None.
Proof.
  simpl. destruct (Ascii.eqb "#" c); [|reflexivity].
  destruct b as [|c' b']; simpl.
  - reflexivity.
  - destruct (Ascii.eqb "/" c'); [discriminate|reflexivity].
Qed.

(** A one-line body without end marker is skipped up to the marker. *)
Lemma block_end_found body s :
  one_line body = true -> has_end_marker body = false ->
  block_end (body ++ "#/" ++ s) = Some s.
Proof.
  induction body as [|c b IH]; intros Hl Hm; [reflexivity|].
  simpl in Hl. apply andb_prop in Hl as [Hc Hb].
  apply negb_true_iff in Hc.
  cbn [has_end_marker] in Hm.
  destruct (strip_prefix "#/" (String c b)) eqn:Hp; [discriminate|].
  change (String c b ++ "#/" ++ s) with (String c (b ++ "#/" ++ s)).
  cbn [block_end].
  change (String c (b ++ "#/" ++ s)) with (String c b ++ "#/" ++ s).
  rewrite (strip_end_marker_app _ _ s Hp).
  rewrite Hc. apply IH; assumption.
Qed.

Lemma skip_blank n s :
  (String.length s <= n)%nat -> blank s -> skip_ignored_loop n s = "".
Proof.
  revert s. induction n as [|n IH]; intros s Hn Hs.
  - destruct s; [reflexivity | simpl in Hn; lia].
  - destruct Hs as [|c s Hc Hs|body Hb|body s Hb Hs|body s Hb Hm Hs].
    + reflexivity.
    + cbn [skip_ignored_loop match_ignored]. rewrite Hc.
      apply IH; [|apply span_ws_blank; assumption].
      pose proof (span_length is_ws s). simpl in Hn. lia.
    + cbn [skip_ignored_loop].
      change (match_ignored ("!" ++ body)) with
        (Some (snd (span (fun c => negb (is_newline c)) body))).
      rewrite span_one_line_eof by assumption.
      destruct n; reflexivity.
    + cbn [skip_ignored_loop].
      change (match_ignored ("!" ++ body ++ nl ++ s)) with
        (Some (snd (span (fun c => negb (is_newline c)) (body ++ nl ++ s)))).
      rewrite span_one_line by assumption.
      apply IH.
      * simpl in Hn. rewrite !length_app in Hn. simpl in *. lia.
      * apply blank_ws; [reflexivity | assumption].
    + cbn [skip_ignored_loop].
      change (match_ignored ("/#" ++ body ++ "#/" ++ s)) with
        (block_end (body ++ "#/" ++ s)).
      rewrite block_end_found by assumption.
      apply IH; [|assumption].
      simpl in Hn. rewrite !length_app in Hn. simpl in *. lia.
Qed.

(** In every parser state the lexer reads a blank text to its end. *)
Lemma next_token_blank accepts s :
  blank s -> next_token accepts s = Ok (None, "").
Proof.
  intros Hs. unfold next_token, skip_ignored.
  rewrite skip_blank by (auto; lia). reflexivity.
Qed.

Lemma parse_blank s : blank s -> Parser.parse s = Some (Ok []).
Proof.
  intros Hs. unfold Parser.parse, Parser.depth_bound.
  cbn [Nat.add Parser.start_loop].
  rewrite next_token_blank by assumption. reflexivity.
Qed.

End Ignored.

(** *** Number tokens: [float] reads the text the lexer matched *)

Section Numbers.

Lemma scan_sign_cons c x :
  scan_sign (String c x)
  = if Ascii.eqb "+" c then (false, x)
    else if Ascii.eqb "-" c then (true, x)
    else (false, String c x).
Proof.
  unfold scan_sign. simpl.
  destruct (Ascii.eqb "+" c); [reflexivity|].
  destruct (Ascii.eqb "-" c); reflexivity.
Qed.

Lemma exp_char_not_digit c : is_exp_char c = true -> is_digit c = false.
Proof.
  unfold is_exp_char. intros H. apply orb_prop in H as [H|H];
    apply Ascii.eqb_eq in H; subst; reflexivity.
Qed.

Lemma digit_not_sign c :
  is_digit c = true -> Ascii.eqb "+" c = false /\ Ascii.eqb "-" c = false.
Proof.
  intros H. split.
  - destruct (Ascii.eqb_spec "+" c) as [<-|]; [discriminate | reflexivity].
  - destruct (Ascii.eqb_spec "-" c) as [<-|]; [discriminate | reflexivity].
Qed.

Lemma scan_exp_head s e rest :
  scan_exp s = Some (e, rest) ->
  exists c r, s = String c r /\ is_exp_char c = true.
Proof.
  destruct s as [|c r]; [discriminate|]. unfold scan_exp.
  fold (is_exp_char c).
  destruct (is_exp_char c) eqn:Hc; [eauto | discriminate].
Qed.

Lemma scan_exp_other c r :
  is_exp_char c = false -> scan_exp (String c r) = None.
Proof.
  intros H. unfold scan_exp. fold (is_exp_char c). rewrite H. reflexivity.
Qed.

Lemma scan_exp_reads : reads_prefix scan_exp.
Proof.
  intros s e rest H. destruct s as [|c r0]; [discriminate|].
  unfold scan_exp in H. fold (is_exp_char c) in H.
  destruct (is_exp_char c) eqn:Hc; [|discriminate].
  destruct (scan_sign r0) as [sg r1] eqn:Hsg.
  destruct (span is_digit r1) as [ds r2] eqn:Hds.
  destruct ds as [|d ds]; [discriminate|].
  inversion H; subst; clear H.
  apply span_spec in Hds as (-> & Hall & Hstop).
  assert (Hspan : span is_digit (String d ds ++ "") = (String d ds, ""))
    by (apply span_exact; auto).
  rewrite append_empty_r in Hspan.
  simpl in Hall. apply andb_prop in Hall as [Hd Hall].
  destruct (digit_not_sign d Hd) as [Hp Hm].
  destruct r0 as [|c0 r0']; [discriminate Hsg|].
  rewrite scan_sign_cons in Hsg.
  destruct (Ascii.eqb "+" c0) eqn:E1; [|destruct (Ascii.eqb "-" c0) eqn:E2].
  - inversion Hsg; subst.
    exists (String c (String c0 (String d ds))). split; [reflexivity|].
    unfold scan_exp. fold (is_exp_char c).
    rewrite Hc, scan_sign_cons, E1, Hspan. reflexivity.
  - inversion Hsg; subst.
    exists (String c (String c0 (String d ds))). split; [reflexivity|].
    unfold scan_exp. fold (is_exp_char c).
    rewrite Hc, scan_sign_cons, E1, E2, Hspan. reflexivity.
  - inversion Hsg; subst.
    exists (String c (String d ds)). split; [reflexivity|].
    unfold scan_exp. fold (is_exp_char c).
    rewrite Hc, scan_sign_cons, Hp, Hm, Hspan. reflexivity.
Qed.

Lemma with_opt_exp_reads ds fs s d rest :
  with_opt_exp ds fs s = Some (d, rest) ->
  exists pre, s = pre ++ rest /\ with_opt_exp ds fs pre = Some (d, "") /\
              stops is_digit pre = true.
Proof.
  unfold with_opt_exp. destruct (scan_exp s) as [[e r]|] eqn:He; intros H;
    inversion H; subst; clear H.
  - destruct (scan_exp_reads _ _ _ He) as (pre & -> & Hpre).
    exists pre. rewrite Hpre. repeat split.
    destruct (scan_exp_head _ _ _ Hpre) as (c & r' & -> & Hc).
    simpl. rewrite (exp_char_not_digit c Hc). reflexivity.
  - exists "". repeat split.
Qed.

Lemma scan_unsigned_reads : reads_prefix scan_unsigned.
Proof.
  intros s d rest H. unfold scan_unsigned in H.
  destruct (span is_digit s) as [ds s2] eqn:Hds.
  apply span_spec in Hds as (-> & Hall & Hstop).
  destruct ds as [|d0 ds].
  - destruct (strip_prefix "." s2) as [s3|] eqn:Hdot; [|discriminate].
    apply strip_prefix_spec in Hdot as ->.
    destruct (span is_digit s3) as [fs s4] eqn:Hfs.
    apply span_spec in Hfs as (-> & Hfall & Hfstop).
    destruct fs as [|f0 fs]; [discriminate|].
    destruct (with_opt_exp_reads _ _ _ _ _ H) as (pre & -> & Hpre & Hps).
    exists ("." ++ String f0 fs ++ pre). split.
    + simpl. rewrite append_assoc. reflexivity.
    + unfold scan_unsigned. cbn [append span].
      change (is_digit ".") with false. cbv iota.
      change (strip_prefix "." (String "." (String f0 (fs ++ pre))))
        with (Some (String f0 (fs ++ pre))). cbv iota.
      change (String f0 (fs ++ pre)) with (String f0 fs ++ pre).
      rewrite span_exact by assumption. exact Hpre.
  - set (D := String d0 ds) in *.
    destruct (scan_exp s2) as [[e r]|] eqn:He.
    + inversion H; subst; clear H.
      destruct (scan_exp_reads _ _ _ He) as (pre & -> & Hpre).
      exists (D ++ pre). split; [rewrite append_assoc; reflexivity|].
      destruct (scan_exp_head _ _ _ Hpre) as (c & r' & -> & Hc).
      assert (Hs : stops is_digit (String c r') = true).
      { simpl. rewrite (exp_char_not_digit c Hc). reflexivity. }
      unfold scan_unsigned. rewrite span_exact by assumption.
      subst D. rewrite Hpre. reflexivity.
    + destruct (strip_prefix "." s2) as [s3|] eqn:Hdot.
      * apply strip_prefix_spec in Hdot as ->.
        destruct (span is_digit s3) as [fs s4] eqn:Hfs.
        apply span_spec in Hfs as (-> & Hfall & Hfstop).
        destruct (with_opt_exp_reads _ _ _ _ _ H) as (pre & -> & Hpre & Hps).
        exists (D ++ "." ++ fs ++ pre). split.
        { rewrite ?append_assoc. simpl. rewrite ?append_assoc. reflexivity. }
        unfold scan_unsigned. rewrite span_exact by auto.
        subst D. cbv iota. cbn [append].
        rewrite scan_exp_other by reflexivity.
        change (strip_prefix "." (String "." (fs ++ pre)))
          with (Some (fs ++ pre)).
        cbv iota. rewrite span_exact by assumption. exact Hpre.
      * inversion H; subst; clear H.
        exists D. split; [reflexivity|].
        unfold scan_unsigned.
        assert (Hspan : span is_digit (D ++ "") = (D, ""))
          by (apply span_exact; auto).
        rewrite append_empty_r in Hspan. rewrite Hspan. subst D. reflexivity.
Qed.

Lemma scan_unsigned_head s d rest :
  scan_unsigned s = Some (d, rest) ->
  exists c r, s = String c r /\
              Ascii.eqb "+" c = false /\ Ascii.eqb "-" c = false.
Proof.
  unfold scan_unsigned. destruct (span is_digit s) as [ds s2] eqn:Hds.
  apply span_spec in Hds as (-> & Hall & Hstop).
  destruct ds as [|d0 ds].
  - destruct (strip_prefix "." s2) as [s3|] eqn:Hdot; [|discriminate].
    apply strip_prefix_spec in Hdot as ->. intros _.
    exists "."%char, s3. repeat split.
  - intros _. simpl in Hall. apply andb_prop in Hall as [Hd _].
    destruct (digit_not_sign d0 Hd). exists d0, (ds ++ s2). auto.
Qed.

Lemma scan_number_reads : reads_prefix scan_number.
Proof.
  intros s d rest H. unfold scan_number in H.
  destruct (scan_sign s) as [sg s1] eqn:Hsg.
  destruct (scan_unsigned s1) as [[d1 r1]|] eqn:Hu; [|discriminate].
  inversion H; subst; clear H.
  destruct (scan_unsigned_reads _ _ _ Hu) as (pre & -> & Hpre).
  destruct (scan_unsigned_head _ _ _ Hpre) as (c & r & -> & Hp & Hm).
  assert (Hnosign : forall t, scan_sign (String c t) = (false, String c t)).
  { intros t. rewrite scan_sign_cons, Hp, Hm. reflexivity. }
  destruct s as [|c0 s0]; [discriminate Hsg|].
  rewrite scan_sign_cons in Hsg.
  destruct (Ascii.eqb "+" c0) eqn:E1; [|destruct (Ascii.eqb "-" c0) eqn:E2].
  - inversion Hsg; subst. exists (String c0 (String c r)).
    split; [reflexivity|]. unfold scan_number.
    rewrite scan_sign_cons, E1, Hpre. reflexivity.
  - inversion Hsg; subst. exists (String c0 (String c r)).
    split; [reflexivity|]. unfold scan_number.
    rewrite scan_sign_cons, E1, E2, Hpre. reflexivity.
  - inversion Hsg; subst. exists (String c r).
    split; [reflexivity|]. unfold scan_number.
    rewrite Hnosign, Hpre. reflexivity.
Qed.

Lemma float_of_lexeme text d rest :
  scan_number text = Some (d, rest) ->
  float_of_str (lexeme text rest) = Ok (float_of_decimal d).
Proof.
  intros H. destruct (scan_number_reads _ _ _ H) as (pre & -> & Hpre).
  unfold lexeme. rewrite substring_prefix. unfold float_of_str.
  rewrite Hpre. reflexivity.
Qed.

Lemma keyword_type word k : keyword word = Some k -> k <> SIGNED_NUMBER.
Proof.
  unfold keyword.
  repeat match goal with |- context [if ?b then _ else _] => destruct b end;
    intros H; inversion H; discriminate.
Qed.

Lemma match_literal_type accepts text tok rest :
  match_literal accepts text = Some (tok, rest) ->
  type_ tok <> SIGNED_NUMBER.
Proof.
  induction accepts as [|t accepts IH]; simpl; [discriminate|].
  destruct (literal t) as [lit|] eqn:Hl; [|exact IH].
  destruct (strip_prefix lit text); [|exact IH].
  intros H; inversion H; subst; simpl.
  destruct t; discriminate.
Qed.

(** [float] reads the text of every [SIGNED_NUMBER] token of the lexer. *)
Lemma number_token_read accepts text tok rest :
  next_token accepts text = Ok (Some tok, rest) ->
  type_ tok = SIGNED_NUMBER ->
  exists f, float_of_str (value tok) = Ok f.
Proof.
  unfold next_token.
  destruct (skip_ignored text) as [|c t] eqn:Hs; [discriminate|].
  destruct (accepted CNAME accepts && is_lower c).
  - destruct (span is_cname_char (String c t)) as [word r].
    destruct (keyword word) as [k|] eqn:Hk.
    + destruct (accepted k accepts); intros H; inversion H; subst; simpl;
        [intros ->; elim (keyword_type _ _ Hk eq_refl) | discriminate].
    + intros H; inversion H; subst; simpl; discriminate.
  - destruct (if accepted SIGNED_NUMBER accepts
              then scan_number (String c t) else None)
      as [[d r]|] eqn:Hn.
    + intros H _; inversion H; subst; simpl.
      destruct (accepted SIGNED_NUMBER accepts); [|discriminate].
      exists (float_of_decimal d). apply float_of_lexeme; assumption.
    + destruct (match_literal accepts (String c t)) as [[tok' r]|] eqn:Hm;
        [|discriminate].
      intros H Ht; inversion H; subst.
      elim (match_literal_type _ _ _ _ Hm Ht).
Qed.

Lemma is_integer_whole f :
  is_integer f = true -> is_whole f (int_of_float f).
Proof.
  destruct f as [s|s| |s m e];
    cbn [is_integer int_of_float is_whole is_ratio];
    try discriminate; [reflexivity|].
  destruct (Z.leb_spec 0 e) as [He|He].
  - intros _. destruct s; rewrite <- ?Pos2Z.opp_pos; ring.
  - intros H. apply Z.eqb_eq in H.
    assert (Hp : 0 < 2 ^ (- e)) by (apply Z.pow_pos_nonneg; lia).
    pose proof (Z.div_mod (Z.pos m) (2 ^ (- e)) ltac:(lia)) as Hdm.
    rewrite H, Z.add_0_r in Hdm.
    destruct s; rewrite <- ?Pos2Z.opp_pos; rewrite Hdm at 1; ring.
Qed.

Lemma whole_is_integer f z :
  is_whole f z -> is_integer f = true /\ int_of_float f = z.
Proof.
  destruct f as [s|s| |s m e];
    cbn [is_integer int_of_float is_whole is_ratio];
    try tauto; [intros ->; auto|].
  destruct (Z.leb_spec 0 e) as [He|He]; intros Hz.
  - split; [reflexivity|].
    rewrite <- Hz. destruct s; rewrite <- ?Pos2Z.opp_pos; ring.
  - assert (Hp : 0 < 2 ^ (- e)) by (apply Z.pow_pos_nonneg; lia).
    assert (Hm : Z.pos m = (if s then - z else z) * 2 ^ (- e)).
    { destruct s; [|lia]. rewrite <- Pos2Z.opp_pos in Hz.
      rewrite Z.mul_opp_l, <- Hz. ring. }
    rewrite Hm, Z.mod_mul, Z.div_mul by lia.
    split; [reflexivity|]. destruct s; lia.
Qed.

End Numbers.

(** *** The depth bound is never reached

    Every token is at least one character long, and between two nested
    calls of the same parsing function a token is read: a call on [text]
    needs a depth of at most [8 * length text + 2]. *)

Section Termination.

#[local] Open Scope nat_scope.

Lemma block_end_shorter s r :
  block_end s = Some r -> String.length r <= String.length s.
Proof.
  revert r. induction s as [|c s IH]; intros r; cbn [block_end].
  - simpl. discriminate.
  - destruct (strip_prefix "#/" (String c s)) as [r'|] eqn:Hp.
    + intros H; inversion H; subst. apply strip_prefix_spec in Hp.
      rewrite Hp, length_app. lia.
    + destruct (is_newline c); [discriminate|]. intros H.
      apply IH in H. simpl. lia.
Qed.

Lemma match_ignored_shorter s r :
  match_ignored s = Some r -> String.length r < String.length s.
Proof.
  unfold match_ignored. destruct s as [|c s]; [discriminate|].
  destruct (is_ws c).
  - intros H; inversion H; subst.
    pose proof (span_length is_ws s). simpl. lia.
  - destruct (Ascii.eqb c "!").
    + intros H; inversion H; subst.
      pose proof (span_length (fun c => negb (is_newline c)) s).
      simpl. lia.
    + destruct (strip_prefix "/#" (String c s)) as [body|] eqn:Hp;
        [|discriminate].
      intros H. apply block_end_shorter in H.
      apply strip_prefix_spec in Hp. rewrite Hp, length_app. simpl. lia.
Qed.

Lemma skip_ignored_loop_shorter n s :
  String.length (skip_ignored_loop n s) <= String.length s.
Proof.
  revert s. induction n as [|n IH]; intros s; simpl; [lia|].
  destruct (match_ignored s) as [r|] eqn:E; [|lia].
  apply match_ignored_shorter in E. specialize (IH r). lia.
Qed.

Lemma span_cons_shorter p c t a b :
  p c = true -> span p (String c t) = (a, b) ->
  String.length b <= String.length t.
Proof.
  simpl. intros ->. destruct (span p t) as [a' b'] eqn:E.
  intros H; inversion H; subst. pose proof (span_length p t) as Hl.
  rewrite E in Hl. exact Hl.
Qed.

Lemma scan_number_shorter s d r :
  scan_number s = Some (d, r) -> String.length r < String.length s.
Proof.
  intros H. destruct (scan_number_reads _ _ _ H) as (pre & -> & Hpre).
  rewrite length_app. destruct pre; [discriminate Hpre | simpl; lia].
Qed.

Lemma match_literal_shorter accepts s tok r :
  match_literal accepts s = Some (tok, r) ->
  String.length r < String.length s.
Proof.
  induction accepts as [|t accepts IH]; simpl; [discriminate|].
  destruct (literal t) as [lit|] eqn:Hl; [|exact IH].
  destruct (strip_prefix lit s) as [r'|] eqn:Hp; [|exact IH].
  intros H; inversion H; subst. apply strip_prefix_spec in Hp.
  rewrite Hp, length_app. destruct t; inversion Hl; subst; simpl; lia.
Qed.

(** A token is at least one character long. *)
Lemma next_token_shorter accepts text tok rest :
  next_token accepts text = Ok (Some tok, rest) ->
  String.length rest < String.length text.
Proof.
  unfold next_token, skip_ignored.
  pose proof (skip_ignored_loop_shorter (String.length text) text) as Hs.
  destruct (skip_ignored_loop (String.length text) text) as [|c t];
    [discriminate|].
  simpl in Hs.
  destruct (accepted CNAME accepts && is_lower c) eqn:Hc.
  - apply andb_prop in Hc as [_ Hc].
    destruct (span is_cname_char (String c t)) as [word r] eqn:E.
    assert (Hcn : is_cname_char c = true).
    { unfold is_cname_char. rewrite Hc. reflexivity. }
    pose proof (span_cons_shorter _ _ _ _ _ Hcn E).
    destruct (keyword word) as [k|]; [destruct (accepted k accepts)|];
      intros H'; inversion H'; subst; lia.
  - destruct (if accepted SIGNED_NUMBER accepts
              then scan_number (String c t) else None)
      as [[d r]|] eqn:Hn.
    + destruct (accepted SIGNED_NUMBER accepts); [|discriminate].
      apply scan_number_shorter in Hn. simpl in Hn.
      intros H'; inversion H'; subst. lia.
    + destruct (match_literal accepts (String c t)) as [[tok' r]|] eqn:Hm;
        [|discriminate].
      apply match_literal_shorter in Hm. simpl in Hm.
      intros H'; inversion H'; subst. lia.
Qed.

Lemma expect_shorter t text tok rest :
  Parser.expect t text = Some (Ok (tok, rest)) ->
  String.length rest < String.length text.
Proof.
  unfold Parser.expect, Parser.lift, Parser.bindM.
  destruct (next_token [t] text) as [[[tok'|] r]|] eqn:E;
    try discriminate.
  intros H; inversion H; subst. eapply next_token_shorter; eassumption.
Qed.

Lemma expect_total t text : Parser.expect t text <> None.
Proof.
  unfold Parser.expect, Parser.lift, Parser.bindM.
  destruct (next_token [t] text) as [[[tok'|] r]|]; discriminate.
Qed.

Lemma bindM_ok {A B} (m : Parser.M A) (k : A -> Parser.M B) b :
  Parser.bindM m k = Some (Ok b) ->
  exists a, m = Some (Ok a) /\ k a = Some (Ok b).
Proof. destruct m as [[a|e]|]; simpl; try discriminate. eauto. Qed.

Lemma bindM_none {A B} (m : Parser.M A) (k : A -> Parser.M B) :
  Parser.bindM m k = None ->
  m = None \/ exists a, m = Some (Ok a) /\ k a = None.
Proof. destruct m as [[a|e]|]; simpl; try discriminate; eauto. Qed.

Lemma lift_ok {A} (r : result A) a :
  Parser.lift r = Some (Ok a) -> r = Ok a.
Proof. unfold Parser.lift. congruence. Qed.

(** One step through a parsing function whose result is known. *)
Ltac token_cases H tok :=
  destruct tok as [[[] ?]|]; cbn [option_map type_] in H.

Ltac ok_step :=
  match goal with
  | H : Parser.bindM _ _ = Some (Ok _) |- _ =>
      apply bindM_ok in H;
      (destruct H as ([? ?] & ? & H) || destruct H as (? & ? & H))
  | H : Parser.lift _ = Some (Ok _) |- _ => apply lift_ok in H
  | H : Parser.ret _ = Some (Ok _) |- _ =>
      unfold Parser.ret in H; inversion H; subst; clear H
  | H : Parser.fail _ = Some (Ok _) |- _ => discriminate H
  | H : next_token _ _ = Ok (Some _, _) |- _ =>
      apply next_token_shorter in H
  | H : Parser.expect _ _ = Some (Ok _) |- _ => apply expect_shorter in H
  | H : match option_map type_ ?tok with _ => _ end = _ |- _ =>
      token_cases H tok
  | H : match ?tok with Some _ => _ | None => _ end = _ |- _ =>
      token_cases H tok
  end.

Ltac none_step :=
  match goal with
  | H : Parser.bindM _ _ = None |- _ =>
      apply bindM_none in H;
      (destruct H as [H | ([? ?] & ? & H)]
       || destruct H as [H | (? & ? & H)])
  | H : Parser.lift _ = None |- _ => discriminate H
  | H : Parser.ret _ = None |- _ => discriminate H
  | H : Parser.fail _ = None |- _ => discriminate H
  | H : Parser.expect _ _ = None |- _ =>
      exfalso; exact (expect_total _ _ H)
  | H : Parser.lift _ = Some (Ok _) |- _ => apply lift_ok in H
  | H : next_token _ _ = Ok (Some _, _) |- _ =>
      apply next_token_shorter in H
  | H : Parser.expect _ _ = Some (Ok _) |- _ => apply expect_shorter in H
  | H : match option_map type_ ?tok with _ => _ end = _ |- _ =>
      token_cases H tok
  | H : match ?tok with Some _ => _ | None => _ end = _ |- _ =>
      token_cases H tok
  end.

Lemma expr_shorter n :
  (forall text, shorter (Parser.parse_expr n text) text)
  /\ (forall left text, shorter (Parser.expr_loop n left text) text)
  /\ (forall text, shorter (Parser.parse_term n text) text)
  /\ (forall left text, shorter (Parser.term_loop n left text) text)
  /\ (forall text, shorter (Parser.parse_factor n text) text).
Proof.
  induction n as [|n (IHe & IHel & IHt & IHtl & IHf)].
  - repeat split; intros; intros v rest H; discriminate H.
  - repeat split; intros; intros v rest H;
      [ cbn [Parser.parse_expr] in H | cbn [Parser.expr_loop] in H
      | cbn [Parser.parse_term] in H | cbn [Parser.term_loop] in H
      | cbn [Parser.parse_factor] in H ];
      repeat ok_step;
      repeat match goal with
        | H : Parser.parse_expr n _ = Some (Ok _) |- _ => apply IHe in H
        | H : Parser.expr_loop n _ _ = Some (Ok _) |- _ => apply IHel in H
        | H : Parser.parse_term n _ = Some (Ok _) |- _ => apply IHt in H
        | H : Parser.term_loop n _ _ = Some (Ok _) |- _ => apply IHtl in H
        | H : Parser.parse_factor n _ = Some (Ok _) |- _ => apply IHf in H
        end; try lia.
Qed.

Ltac expr_lengths :=
  repeat match goal with
    | H : Parser.parse_expr _ _ = Some (Ok _) |- _ =>
        apply expr_shorter in H
    | H : Parser.expr_loop _ _ _ = Some (Ok _) |- _ =>
        apply expr_shorter in H
    | H : Parser.parse_term _ _ = Some (Ok _) |- _ =>
        apply expr_shorter in H
    | H : Parser.term_loop _ _ _ = Some (Ok _) |- _ =>
        apply expr_shorter in H
    | H : Parser.parse_factor _ _ = Some (Ok _) |- _ =>
        apply expr_shorter in H
    end.

Lemma value_shorter n constants :
  (forall text, shorter (Parser.parse_value n constants text) text)
  /\ (forall text, shorter (Parser.parse_array n constants text) text)
  /\ (forall items text,
        shorter (Parser.array_loop n constants items text) text)
  /\ (forall text, shorter (Parser.parse_dict n constants text) text)
  /\ (forall items text,
        shorter (Parser.dict_loop n constants items text) text)
  /\ (forall text,
        shorter (Parser.parse_dict_entry n constants text) text).
Proof.
  induction n as [|n (IHv & IHa & IHal & IHd & IHdl & IHde)].
  - repeat split; intros; intros v rest H; discriminate H.
  - repeat split; intros; intros v rest H;
      [ cbn [Parser.parse_value] in H | cbn [Parser.parse_array] in H
      | cbn [Parser.array_loop] in H | cbn [Parser.parse_dict] in H
      | cbn [Parser.dict_loop] in H
      | cbn [Parser.parse_dict_entry] in H ];
      repeat ok_step; expr_lengths;
      repeat match goal with
        | H : Parser.parse_value n _ _ = Some (Ok _) |- _ =>
            apply IHv in H
        | H : Parser.parse_array n _ _ = Some (Ok _) |- _ =>
            apply IHa in H
        | H : Parser.array_loop n _ _ _ = Some (Ok _) |- _ =>
            apply IHal in H
        | H : Parser.parse_dict n _ _ = Some (Ok _) |- _ =>
            apply IHd in H
        | H : Parser.dict_loop n _ _ _ = Some (Ok _) |- _ =>
            apply IHdl in H
        | H : Parser.parse_dict_entry n _ _ = Some (Ok _) |- _ =>
            apply IHde in H
        end; try lia.
Qed.

Ltac value_lengths :=
  repeat match goal with
    | H : Parser.parse_value _ _ _ = Some (Ok _) |- _ =>
        apply value_shorter in H
    | H : Parser.parse_array _ _ _ = Some (Ok _) |- _ =>
        apply value_shorter in H
    | H : Parser.array_loop _ _ _ _ = Some (Ok _) |- _ =>
        apply value_shorter in H
    | H : Parser.parse_dict _ _ _ = Some (Ok _) |- _ =>
        apply value_shorter in H
    | H : Parser.dict_loop _ _ _ _ = Some (Ok _) |- _ =>
        apply value_shorter in H
    | H : Parser.parse_dict_entry _ _ _ = Some (Ok _) |- _ =>
        apply value_shorter in H
    end.

Lemma expr_total n :
  (forall text,
      8 * String.length text + 2 < n -> Parser.parse_expr n text <> None)
  /\ (forall left text,
        8 * String.length text < n -> Parser.expr_loop n left text <> None)
  /\ (forall text,
        8 * String.length text + 1 < n -> Parser.parse_term n text <> None)
  /\ (forall left text,
        8 * String.length text < n -> Parser.term_loop n left text <> None)
  /\ (forall text,
        8 * String.length text < n -> Parser.parse_factor n text <> None).
Proof.
  induction n as [|n (IHe & IHel & IHt & IHtl & IHf)].
  - repeat split; intros; lia.
  - repeat split; intros; intros E;
      [ cbn [Parser.parse_expr] in E | cbn [Parser.expr_loop] in E
      | cbn [Parser.parse_term] in E | cbn [Parser.term_loop] in E
      | cbn [Parser.parse_factor] in E ];
      repeat none_step; expr_lengths;
      match goal with
      | H : Parser.parse_expr n _ = None |- _ => apply IHe in H
      | H : Parser.expr_loop n _ _ = None |- _ => apply IHel in H
      | H : Parser.parse_term n _ = None |- _ => apply IHt in H
      | H : Parser.term_loop n _ _ = None |- _ => apply IHtl in H
      | H : Parser.parse_factor n _ = None |- _ => apply IHf in H
      end; solve [assumption | lia].
Qed.

Lemma value_total n constants :
  (forall text,
      8 * String.length text < n ->
      Parser.parse_value n constants text <> None)
  /\ (forall text,
        8 * String.length text + 1 < n ->
        Parser.parse_array n constants text <> None)
  /\ (forall items text,
        8 * String.length text < n ->
        Parser.array_loop n constants items text <> None)
  /\ (forall text,
        8 * String.length text + 1 < n ->
        Parser.parse_dict n constants text <> None)
  /\ (forall items text,
        8 * String.length text < n ->
        Parser.dict_loop n constants items text <> None)
  /\ (forall text,
        8 * String.length text < n ->
        Parser.parse_dict_entry n constants text <> None).
Proof.
  induction n as [|n (IHv & IHa & IHal & IHd & IHdl & IHde)].
  - repeat split; intros; lia.
  - repeat split; intros; intros E;
      [ cbn [Parser.parse_value] in E | cbn [Parser.parse_array] in E
      | cbn [Parser.array_loop] in E | cbn [Parser.parse_dict] in E
      | cbn [Parser.dict_loop] in E
      | cbn [Parser.parse_dict_entry] in E ];
      repeat none_step; expr_lengths; value_lengths;
      match goal with
      | H : Parser.parse_expr n _ = None |- _ => apply expr_total in H
      | H : Parser.parse_value n _ _ = None |- _ => apply IHv in H
      | H : Parser.parse_array n _ _ = None |- _ => apply IHa in H
      | H : Parser.array_loop n _ _ _ = None |- _ => apply IHal in H
      | H : Parser.parse_dict n _ _ = None |- _ => apply IHd in H
      | H : Parser.dict_loop n _ _ _ = None |- _ => apply IHdl in H
      | H : Parser.parse_dict_entry n _ _ = None |- _ => apply IHde in H
      end; solve [assumption | lia].
Qed.

Lemma start_loop_total n :
  forall constants items text,
    8 * String.length text < n ->
    Parser.start_loop n constants items text <> None.
Proof.
  induction n as [|n IH]; intros constants items text Hn; [lia|].
  intros E. cbn [Parser.start_loop] in E.
  repeat none_step; value_lengths;
    match goal with
    | H : Parser.parse_value n _ _ = None |- _ => apply value_total in H
    | H : Parser.parse_array n _ _ = None |- _ => apply value_total in H
    | H : Parser.parse_dict n _ _ = None |- _ => apply value_total in H
    | H : Parser.start_loop n _ _ _ = None |- _ => apply IH in H
    end; solve [assumption | lia].
Qed.

(** [parser.parse(source)] returns or raises, whatever the source. *)
Theorem parse_total source : exists r, Parser.parse source = Some r.
Proof.
  destruct (Parser.parse source) as [r|] eqn:E; [eauto|].
  exfalso. revert E. apply start_loop_total.
  unfold Parser.depth_bound. lia.
Qed.

(** [main] ends, with an exit status, whatever the files. *)
Theorem main_total str_ toprettyxml input output fs :
  exists r, Xml.main str_ toprettyxml input output fs = Some r.
Proof.
  unfold Xml.main. destruct (fs input) as [source|]; [|eauto].
  destruct (parse_total source) as [[result|e] ->]; [eauto|].
  destruct e; eauto.
Qed.

End Termination.

(** *** Rounding to binary64: when a result is finite and not zero *)

Section Rounding.

Lemma digits2_size p : digits2_pos p = Pos.size p.
Proof. induction p; simpl; congruence. Qed.

Lemma Zdigits2_log2 m : 0 < m -> Zdigits2 m = Z.log2 m + 1.
Proof.
  destruct m as [|p|p]; try lia. intros _. simpl.
  destruct p; simpl; rewrite ?digits2_size; lia.
Qed.

Lemma Zdigits2_bounds m :
  0 < m -> 2 ^ (Zdigits2 m - 1) <= m < 2 ^ Zdigits2 m.
Proof.
  intros H. rewrite Zdigits2_log2 by assumption.
  replace (Z.log2 m + 1 - 1) with (Z.log2 m) by lia.
  apply Z.log2_spec. assumption.
Qed.

Lemma Zdigits2_nonneg m : 0 <= Zdigits2 m.
Proof. destruct m; simpl; lia. Qed.

Lemma Zdigits2_le_of_lt m k : 0 <= k -> 0 <= m < 2 ^ k -> Zdigits2 m <= k.
Proof.
  intros Hk [H0 H]. destruct (Z.eq_dec m 0) as [->|Hm]; [simpl; lia|].
  destruct (Zdigits2_bounds m ltac:(lia)) as [Hlo _].
  destruct (Z.le_gt_cases (Zdigits2 m) k) as [?|Hgt]; [assumption|].
  assert (2 ^ k <= 2 ^ (Zdigits2 m - 1)) by (apply Z.pow_le_mono_r; lia).
  lia.
Qed.

Lemma shr_1_m mrs : 0 <= shr_m mrs -> shr_m (shr_1 mrs) = shr_m mrs / 2.
Proof.
  destruct mrs as [m r s]. cbn [shr_m]. intros H.
  destruct m as [|[p|p|]|p]; try lia; cbn [shr_1 shr_m].
  - reflexivity.
  - apply Z.div_unique with 1; lia.
  - apply Z.div_unique with 0; lia.
  - reflexivity.
Qed.

Lemma iter_shr_m n : forall mrs,
  0 <= shr_m mrs ->
  shr_m (iter_pos shr_1 n mrs) = shr_m mrs / 2 ^ Z.pos n.
Proof.
  assert (Hnn : forall mrs, 0 <= shr_m mrs -> 0 <= shr_m (shr_1 mrs)).
  { intros mrs H. rewrite shr_1_m by assumption. apply Z.div_pos; lia. }
  assert (Hp : forall k, 0 < 2 ^ Z.pos k)
    by (intros; apply Z.pow_pos_nonneg; lia).
  induction n as [n IH|n IH|]; intros mrs H; cbn [iter_pos].
  - assert (H1 := Hnn _ H).
    assert (H2 : 0 <= shr_m (iter_pos shr_1 n (shr_1 mrs))).
    { rewrite IH by assumption. apply Z.div_pos; auto. }
    rewrite IH, IH, shr_1_m by assumption.
    replace (Z.pos n~1) with (1 + Z.pos n + Z.pos n) by lia.
    rewrite !Z.pow_add_r, Z.pow_1_r by lia.
    specialize (Hp n). rewrite !Z.div_div by lia. f_equal. ring.
  - assert (H2 : 0 <= shr_m (iter_pos shr_1 n mrs)).
    { rewrite IH by assumption. apply Z.div_pos; auto. }
    rewrite IH, IH by assumption.
    replace (Z.pos n~0) with (Z.pos n + Z.pos n) by lia.
    rewrite Z.pow_add_r by lia.
    specialize (Hp n). rewrite Z.div_div by lia. reflexivity.
  - rewrite shr_1_m by assumption. reflexivity.
Qed.

(** The mantissa and exponent after [shr_fexp]. *)
Lemma shr_fexp_spec m e l :
  0 <= m ->
  shr_m (fst (shr_fexp prec emax m e l)) = shifted_mantissa m e /\
  snd (shr_fexp prec emax m e l) = shifted_exponent m e.
Proof.
  intros Hm. unfold shr_fexp, shr, shifted_mantissa, shifted_exponent.
  fold (shift m e).
  assert (Hrec : shr_m (shr_record_of_loc m l) = m).
  { destruct l as [|[]]; reflexivity. }
  destruct (shift m e) as [|p|p]; simpl; rewrite ?Hrec; auto.
  rewrite iter_shr_m by (rewrite Hrec; assumption).
  rewrite Hrec. auto.
Qed.

Lemma round_nearest_even_bounds m l :
  m <= round_nearest_even m l <= m + 1.
Proof.
  destruct l as [|[]]; simpl; try lia. destruct (Z.even m); lia.
Qed.

Lemma fexp_eq x : fexp prec emax x = Z.max (x - 53) (-1074).
Proof. reflexivity. Qed.

Lemma div_pow2_lt m d n :
  0 <= m < 2 ^ d -> 0 < n -> 0 <= d ->
  0 <= m / 2 ^ n < 2 ^ Z.max (d - n) 0.
Proof.
  intros [H0 H] Hn Hd.
  assert (Hp : 0 < 2 ^ n) by (apply Z.pow_pos_nonneg; lia).
  split; [apply Z.div_pos; lia|].
  destruct (Z.le_gt_cases n d) as [Hle|Hgt].
  - rewrite Z.max_l by lia. apply Z.div_lt_upper_bound; [assumption|].
    rewrite <- Z.pow_add_r by lia. replace (n + (d - n)) with d by lia.
    assumption.
  - rewrite Z.max_r by lia. rewrite Z.div_small; [simpl; lia|].
    split; [assumption|]. apply Z.lt_le_trans with (2 ^ d); [assumption|].
    apply Z.pow_le_mono_r; lia.
Qed.

Lemma div_pow2_pos m n :
  0 < m -> 0 < n <= Zdigits2 m - 1 -> 1 <= m / 2 ^ n.
Proof.
  intros Hm Hn. destruct (Zdigits2_bounds m Hm) as [Hlo _].
  apply Z.div_le_lower_bound; [apply Z.pow_pos_nonneg; lia|].
  rewrite Z.mul_1_r.
  apply Z.le_trans with (2 ^ (Zdigits2 m - 1)); [|assumption].
  apply Z.pow_le_mono_r; lia.
Qed.

Section RoundAux.

Variables (sx : bool) (mx ex : Z) (lx : location).
Hypothesis Hmx : 0 <= mx.

Lemma shifted_mantissa_bounds :
  0 <= shifted_mantissa mx ex
  < 2 ^ (if 0 <? shift mx ex then Z.max (Zdigits2 mx - shift mx ex) 0
         else Zdigits2 mx).
Proof.
  assert (Hd : 0 <= Zdigits2 mx) by apply Zdigits2_nonneg.
  assert (Hb : 0 <= mx < 2 ^ Zdigits2 mx).
  { destruct (Z.eq_dec mx 0) as [E|E].
    - rewrite E. simpl. lia.
    - destruct (Zdigits2_bounds mx ltac:(lia)). lia. }
  unfold shifted_mantissa.
  destruct (Z.ltb_spec 0 (shift mx ex));
    [apply div_pow2_lt; lia | assumption].
Qed.

(** The result of [binary_round_aux] from the rounded mantissa [m1]. *)
Lemma round_aux_cases :
  exists m1,
    shifted_mantissa mx ex <= m1 <= shifted_mantissa mx ex + 1 /\
    0 <= shifted_mantissa m1 (shifted_exponent mx ex) /\
    binary_round_aux prec emax sx mx ex lx
    = match shifted_mantissa m1 (shifted_exponent mx ex) with
      | Z0 => S754_zero sx
      | Zpos m =>
          if shifted_exponent m1 (shifted_exponent mx ex) <=? emax - prec
          then S754_finite sx m
                 (shifted_exponent m1 (shifted_exponent mx ex))
          else S754_infinity sx
      | Zneg _ => S754_nan
      end.
Proof.
  destruct (shr_fexp_spec mx ex lx Hmx) as [Hm' He'].
  unfold binary_round_aux.
  destruct (shr_fexp prec emax mx ex lx) as [mrs' e']. simpl in Hm', He'.
  subst e'.
  set (m1 := round_nearest_even (shr_m mrs') (loc_of_shr_record mrs')).
  pose proof (round_nearest_even_bounds (shr_m mrs')
                (loc_of_shr_record mrs')) as Hb.
  fold m1 in Hb. rewrite Hm' in Hb.
  assert (H1 : 0 <= m1) by (pose proof shifted_mantissa_bounds; lia).
  destruct (shr_fexp_spec m1 (shifted_exponent mx ex) loc_Exact H1)
    as [H2 H3].
  destruct (shr_fexp prec emax m1 (shifted_exponent mx ex) loc_Exact)
    as [mrs'' e'']. simpl in H2, H3. subst e''. rewrite H2.
  exists m1. repeat split; try lia.
  unfold shifted_mantissa.
  destruct (Z.ltb_spec 0 (shift m1 (shifted_exponent mx ex)));
    [|assumption].
  apply Z.div_pos; [assumption|]. apply Z.pow_pos_nonneg; lia.
Qed.

Lemma round_aux_not_infinity s :
  ex <= 970 -> Zdigits2 mx + ex <= 1023 ->
  binary_round_aux prec emax sx mx ex lx <> S754_infinity s.
Proof.
  intros Hex Hd.
  destruct round_aux_cases as (m1 & Hm1 & Hnn & ->).
  pose proof shifted_mantissa_bounds as Hb.
  pose proof (Zdigits2_nonneg mx) as Hd0.
  assert (He : shifted_exponent m1 (shifted_exponent mx ex) <= 971).
  { set (k := if 0 <? shift mx ex
              then Z.max (Zdigits2 mx - shift mx ex) 0
              else Zdigits2 mx) in *.
    assert (Hk : 0 <= k) by (unfold k; destruct (0 <? shift mx ex); lia).
    assert (Hd1 : Zdigits2 m1 <= k + 1).
    { apply Zdigits2_le_of_lt; [lia|].
      rewrite Z.pow_add_r, Z.pow_1_r by lia. lia. }
    unfold k in *. unfold shifted_exponent, shift in *.
    rewrite !fexp_eq in *. split_shifts; lia. }
  destruct (shifted_mantissa m1 (shifted_exponent mx ex));
    try discriminate.
  apply Z.leb_le in He. change (emax - prec) with 971. rewrite He.
  discriminate.
Qed.

Lemma round_aux_not_zero s :
  0 < mx -> -1073 <= Zdigits2 mx + ex ->
  binary_round_aux prec emax sx mx ex lx <> S754_zero s.
Proof.
  intros Hpos Hd.
  destruct round_aux_cases as (m1 & Hm1 & Hnn & ->).
  assert (H1 : 1 <= shifted_mantissa mx ex).
  { unfold shifted_mantissa.
    destruct (Z.ltb_spec 0 (shift mx ex)) as [Hn|]; [|lia].
    apply div_pow2_pos; [assumption|]. unfold shift in *.
    rewrite fexp_eq in *. lia. }
  assert (He : -1074 <= shifted_exponent mx ex).
  { unfold shifted_exponent, shift. rewrite fexp_eq. split_shifts; lia. }
  assert (H2 : 1 <= shifted_mantissa m1 (shifted_exponent mx ex)).
  { unfold shifted_mantissa.
    destruct (Z.ltb_spec 0 (shift m1 (shifted_exponent mx ex))) as [Hn|];
      [|lia].
    apply div_pow2_pos; [lia|]. unfold shift in *.
    rewrite fexp_eq in *. lia. }
  destruct (shifted_mantissa m1 (shifted_exponent mx ex)); try lia.
  destruct (_ <=? _); discriminate.
Qed.

End RoundAux.

Lemma iter_xO m p : Z.pos (Pos.iter xO m p) = Z.pos m * 2 ^ Z.pos p.
Proof.
  induction p as [|p IH] using Pos.peano_ind.
  - cbn [Pos.iter]. lia.
  - rewrite Pos.iter_succ, Pos2Z.inj_xO, IH, Pos2Z.inj_succ.
    rewrite Z.pow_succ_r by lia. ring.
Qed.

Lemma shl_align_spec mx ex ex' mz ez :
  shl_align mx ex ex' = (mz, ez) ->
  Z.pos mz = Z.pos mx * 2 ^ (ex - ez) /\ ez <= ex /\ (ez = ex \/ ez = ex').
Proof.
  unfold shl_align.
  destruct (ex' - ex) as [|p|p] eqn:E; intros H; inversion H; subst.
  - rewrite Z.sub_diag. simpl. split; lia.
  - rewrite Z.sub_diag. simpl. split; lia.
  - rewrite iter_xO. replace (ex - ez) with (Z.pos p) by lia. lia.
Qed.

Lemma Zdigits2_pos p : 1 <= Zdigits2 (Z.pos p).
Proof. simpl. lia. Qed.

(** A mantissa times a power of two has that many more digits at most. *)
Lemma Zdigits2_shifted m k x :
  0 <= k -> 0 <= x <= Z.pos m * 2 ^ k ->
  Zdigits2 x <= Zdigits2 (Z.pos m) + k.
Proof.
  intros Hk [H0 Hx]. pose proof (Zdigits2_pos m) as Hd.
  apply Zdigits2_le_of_lt; [lia|]. split; [assumption|].
  destruct (Zdigits2_bounds (Z.pos m) ltac:(lia)) as [_ Hhi].
  rewrite Z.pow_add_r by lia.
  apply Z.le_lt_trans with (Z.pos m * 2 ^ k); [assumption|].
  apply Z.mul_lt_mono_pos_r; [apply Z.pow_pos_nonneg; lia | assumption].
Qed.

(** The mantissa and exponent that [binary_round] hands to
    [binary_round_aux] for the integer [m]. *)
Lemma aligned_integer m mz ez :
  shl_align m 0 (fexp prec emax (Z.pos (digits2_pos m) + 0)) = (mz, ez) ->
  ez <= 0 /\ -1073 <= Zdigits2 (Z.pos mz) + ez <= Zdigits2 (Z.pos m).
Proof.
  intros E. apply shl_align_spec in E as (Hmz & Hez & Hcase).
  change (Z.pos (digits2_pos m)) with (Zdigits2 (Z.pos m)) in Hcase.
  pose proof (Zdigits2_pos m) as Hd1.
  pose proof (Zdigits2_pos mz) as Hdz1.
  pose proof (Zdigits2_shifted m (0 - ez) (Z.pos mz)) as Hs.
  rewrite fexp_eq in Hcase. lia.
Qed.

Lemma binary_round_not_zero s m s' :
  binary_round prec emax s m 0 <> S754_zero s'.
Proof.
  unfold binary_round.
  destruct (shl_align m 0 (fexp prec emax (Z.pos (digits2_pos m) + 0)))
    as [mz ez] eqn:E.
  apply aligned_integer in E as (Hez & Hlo & Hhi).
  apply round_aux_not_zero; lia.
Qed.

Lemma binary_round_finite s m :
  Z.pos m < 2 ^ 1023 ->
  exists m' e', binary_round prec emax s m 0 = S754_finite s m' e'.
Proof.
  intros Hm. pose proof (binary_round_not_zero s m) as Hzero.
  unfold binary_round in *.
  destruct (shl_align m 0 (fexp prec emax (Z.pos (digits2_pos m) + 0)))
    as [mz ez] eqn:E.
  apply aligned_integer in E as (Hez & Hlo & Hhi).
  assert (Hd : Zdigits2 (Z.pos m) <= 1023) by (apply Zdigits2_le_of_lt; lia).
  pose proof (fun s' => round_aux_not_infinity s (Z.pos mz) ez loc_Exact
                          ltac:(lia) s' ltac:(lia) ltac:(lia)) as Hinf.
  destruct (round_aux_cases s (Z.pos mz) ez loc_Exact ltac:(lia))
    as (m1 & _ & Hnn & Heq).
  rewrite Heq in *.
  destruct (shifted_mantissa m1 (shifted_exponent (Z.pos mz) ez))
    as [|p|p].
  - elim (Hzero s); reflexivity.
  - destruct (_ <=? _); [eauto|]. elim (Hinf s); reflexivity.
  - lia.
Qed.

(** An Integer below [2^1023] in magnitude converts to a double. *)
Lemma float_of_int_finite z :
  - 2 ^ 1023 < z < 2 ^ 1023 -> exists f, float_of_int z = Ok f.
Proof.
  intros Hz. unfold float_of_int, binary_normalize.
  destruct z as [|m|m]; [eauto| |].
  - destruct (binary_round_finite false m ltac:(lia)) as (m' & e' & ->).
    eauto.
  - destruct (binary_round_finite true m ltac:(lia)) as (m' & e' & ->).
    eauto.
Qed.

(** An Integer other than 0 does not convert to a zero. *)
Lemma float_of_int_nonzero z f :
  z <> 0 -> float_of_int z = Ok f -> float_is_zero f = false.
Proof.
  intros Hz. unfold float_of_int, binary_normalize.
  destruct z as [|m|m]; [contradiction| |];
    match goal with
    | |- context [binary_round ?p ?e ?s ?mm ?ee] =>
        pose proof (binary_round_not_zero s mm) as Hzero;
        destruct (binary_round p e s mm ee) as [s'| | |]
    end;
    intros H; inversion H; subst; try reflexivity;
    elim (Hzero s'); reflexivity.
Qed.

(** The quotient that [SFdiv] hands to [binary_round_aux] for two
    integers. *)
Lemma div_core_bounds ma mb q e l :
  SFdiv_core_binary prec emax (Z.pos ma) 0 (Z.pos mb) 0 = (q, e, l) ->
  0 <= q /\ e <= 0 /\ Zdigits2 q + e <= Zdigits2 (Z.pos ma).
Proof.
  unfold SFdiv_core_binary.
  set (e' := Z.min _ (0 - 0)).
  assert (He' : e' <= 0) by (unfold e'; lia).
  set (m' := match 0 - 0 - e' with
             | 0 => Z.pos ma
             | Z.pos _ => Z.shiftl (Z.pos ma) (0 - 0 - e')
             | Z.neg _ => 0
             end).
  assert (Hm' : m' = Z.pos ma * 2 ^ (- e')).
  { unfold m'. replace (0 - 0 - e') with (- e') by lia.
    destruct (- e') as [|p|p] eqn:E; [simpl; lia | | lia].
    rewrite Z.shiftl_mul_pow2 by lia. reflexivity. }
  pose proof (Z_div_mod m' (Z.pos mb) ltac:(lia)) as Hdiv.
  destruct (Z.div_eucl m' (Z.pos mb)) as [q' r]. destruct Hdiv as [Hq Hr].
  intros H; inversion H; subst q' e; clear H.
  assert (Hp : 0 < 2 ^ (- e')) by (apply Z.pow_pos_nonneg; lia).
  assert (Hq0 : 0 <= q) by nia.
  repeat split; try assumption.
  pose proof (Zdigits2_shifted ma (- e') q) as Hs.
  assert (q <= m') by nia. lia.
Qed.

(** The quotient of two Integers, the dividend below [2^1023] in
    magnitude, is a double. *)
Lemma int_truediv_finite a b :
  - 2 ^ 1023 < a < 2 ^ 1023 -> b <> 0 -> exists f, int_truediv a b = Ok f.
Proof.
  intros Ha Hb. unfold int_truediv.
  destruct a as [|ma|ma]; [eauto| |];
    (destruct b as [|mb|mb]; [contradiction| |]);
    cbn [Z.abs Z.to_pos SFdiv];
    destruct (SFdiv_core_binary prec emax (Z.pos ma) 0 (Z.pos mb) 0)
      as [[q e] l] eqn:E;
    apply div_core_bounds in E as (Hq & He & Hd);
    assert (Hda : Zdigits2 (Z.pos ma) <= 1023)
      by (apply Zdigits2_le_of_lt; lia);
    match goal with
    | |- context [binary_round_aux ?p ?em ?s ?mm ?ee ?ll] =>
        pose proof (fun s' => round_aux_not_infinity s mm ee ll Hq s'
                                ltac:(lia) ltac:(lia)) as Hinf;
        destruct (binary_round_aux p em s mm ee ll) as [|s'| |]; eauto;
        elim (Hinf s'); reflexivity
    end.
Qed.

End Rounding.

(** *** dict: assignment and the comprehension of the [dict] callback *)

Section DictFacts.

Variable constants : pydict.

Lemma get_value_total v :
  is_tree v = false -> exists g, T._get_value constants v = Ok g.
Proof.
  destruct v; simpl; intros H; try discriminate; eauto.
  destruct (dict_get constants s); eauto.
Qed.

Lemma dict_set_fresh d k v :
  ~ In k (dict_keys d) -> dict_set d k v = (d ++ [(k, v)])%list.
Proof.
  induction d as [|[k' v'] d IH]; simpl; intros H; [reflexivity|].
  destruct (String.eqb_spec k' k) as [->|Hne]; [tauto|].
  rewrite IH by tauto. reflexivity.
Qed.

Lemma dict_set_keys_present d k v :
  In k (dict_keys d) -> dict_keys (dict_set d k v) = dict_keys d.
Proof.
  induction d as [|[k' v'] d IH]; simpl; intros H; [tauto|].
  destruct (String.eqb_spec k' k) as [->|Hne]; [reflexivity|].
  simpl. rewrite IH; [reflexivity|]. destruct H; congruence.
Qed.

Lemma dict_set_in_keys d k v x :
  In x (dict_keys (dict_set d k v)) <-> x = k \/ In x (dict_keys d).
Proof.
  induction d as [|[k' v'] d IH]; simpl.
  - intuition auto.
  - destruct (String.eqb_spec k' k) as [->|Hne]; simpl.
    + intuition auto.
    + rewrite IH. intuition auto.
Qed.

(** Assigning to a key leaves in place an entry for another key [k] that
    occurs once, together with the keys before it. *)
Lemma dict_set_around d1 k g d2 k' v :
  ~ In k (dict_keys d1) -> ~ In k (dict_keys d2) ->
  exists d1' g' d2',
    dict_set (d1 ++ (k, g) :: d2)%list k' v = (d1' ++ (k, g') :: d2')%list /\
    dict_keys d1' = dict_keys d1 /\ ~ In k (dict_keys d2') /\
    g' = (if String.eqb k' k then v else g).
Proof.
  intros H1 H2. destruct (in_dec string_dec k' (dict_keys d1)) as [Hin|Hout].
  - exists (dict_set d1 k' v), g, d2.
    assert (Hne : k' <> k) by (intros ->; tauto).
    apply String.eqb_neq in Hne. rewrite Hne. repeat split; auto.
    + clear H1. induction d1 as [|[a b] d1 IH]; simpl in *; [tauto|].
      destruct (String.eqb_spec a k') as [->|Hak]; [reflexivity|].
      rewrite IH; [reflexivity|]. destruct Hin; congruence.
    + apply dict_set_keys_present; assumption.
  - assert (Hstep : dict_set (d1 ++ (k, g) :: d2)%list k' v
                    = (d1 ++ dict_set ((k, g) :: d2) k' v)%list).
    { clear H1. induction d1 as [|[a b] d1 IH]; simpl in *; [reflexivity|].
      destruct (String.eqb_spec a k') as [->|Hak]; [tauto|].
      rewrite IH by tauto. reflexivity. }
    rewrite Hstep. cbn [dict_set].
    rewrite (String.eqb_sym k k').
    destruct (String.eqb_spec k' k) as [->|Hne].
    + exists d1, v, d2. auto.
    + exists d1, g, (dict_set d2 k' v). repeat split; auto.
      rewrite dict_set_in_keys. intros [E|E]; [congruence|tauto].
Qed.

Lemma dict_comprehension_app d a b :
  T.dict_comprehension constants d (a ++ b)%list
  = (d' <- T.dict_comprehension constants d a ;;
     T.dict_comprehension constants d' b).
Proof.
  revert d. induction a as [|[k v] a IH]; intros d; simpl; [reflexivity|].
  destruct (T._get_value constants v); simpl; [apply IH | reflexivity].
Qed.

Definition values_evaluated (items : list (string * pyobj)) : Prop :=
  Forall (fun kv => is_tree (snd kv) = false) items.

Lemma dict_comprehension_keys items : forall d,
  values_evaluated items ->
  exists d',
    T.dict_comprehension constants d items = Ok d' /\
    forall x,
      In x (dict_keys d') <-> In x (dict_keys d) \/ In x (map fst items).
Proof.
  induction items as [|[k v] items IH]; intros d Hv; simpl.
  - exists d. intuition auto.
  - inversion Hv as [|? ? Hk Hrest]; subst. simpl in Hk.
    destruct (get_value_total v Hk) as [g ->]. simpl.
    destruct (IH (dict_set d k g) Hrest) as [d' [-> Hd']].
    exists d'. split; [reflexivity|]. intros x. rewrite Hd', dict_set_in_keys.
    intuition auto.
Qed.

Lemma dict_comprehension_around items : forall d1 k g d2,
  values_evaluated items ->
  ~ In k (dict_keys d1) -> ~ In k (dict_keys d2) ->
  exists d1' g' d2',
    T.dict_comprehension constants (d1 ++ (k, g) :: d2)%list items
    = Ok (d1' ++ (k, g') :: d2')%list /\
    dict_keys d1' = dict_keys d1 /\ ~ In k (dict_keys d2') /\
    (~ In k (map fst items) -> g' = g).
Proof.
  induction items as [|[k' v] items IH]; intros d1 k g d2 Hv H1 H2; simpl.
  - exists d1, g, d2. auto.
  - inversion Hv as [|? ? Hk Hrest]; subst. simpl in Hk.
    destruct (get_value_total v Hk) as [gv ->]. simpl.
    destruct (dict_set_around d1 k g d2 k' gv H1 H2)
      as (e1 & g1 & e2 & -> & Hk1 & Hk2 & Hg1).
    destruct (IH e1 k g1 e2 Hrest) as (f1 & g2 & f2 & -> & Hf1 & Hf2 & Hg2);
      [rewrite Hk1; assumption | assumption |].
    exists f1, g2, f2. repeat split; auto; [congruence|].
    intros Hnot. rewrite Hg2 by tauto. subst g1.
    destruct (String.eqb_spec k' k); [tauto | reflexivity].
Qed.

Lemma dict_duplicate_key pre mid post k v1 v2 :
  ~ In k (map fst pre) -> ~ In k (map fst post) ->
  values_evaluated (pre ++ (k, v1) :: mid ++ (k, v2) :: post)%list ->
  exists d1 d2 g2 dpre,
    T.dict constants (pre ++ (k, v1) :: mid ++ (k, v2) :: post)%list
    = Ok (VDict (d1 ++ (k, g2) :: d2)%list) /\
    T._get_value constants v2 = Ok g2 /\
    ~ In k (dict_keys d1) /\ ~ In k (dict_keys d2) /\
    T.dict constants pre = Ok (VDict dpre) /\
    dict_keys d1 = dict_keys dpre.
Proof.
  intros Hpre Hpost Hv. unfold values_evaluated in Hv.
  apply Forall_app in Hv as [Hvpre Hv].
  inversion Hv as [|? ? Hv1 Hv']; subst.
  apply Forall_app in Hv' as [Hvmid Hv'].
  inversion Hv' as [|? ? Hv2 Hvpost]; subst. simpl in Hv1, Hv2.
  destruct (dict_comprehension_keys pre [] Hvpre) as [dpre [Epre Kpre]].
  assert (Hkpre : ~ In k (dict_keys dpre)).
  { rewrite Kpre. simpl. tauto. }
  destruct (get_value_total v1 Hv1) as [g1 E1].
  destruct (get_value_total v2 Hv2) as [g2 E2].
  destruct (dict_comprehension_around mid dpre k g1 [] Hvmid Hkpre)
    as (e1 & g & e2 & Emid & Ke1 & Ke2 & _); [simpl; tauto|].
  assert (He1 : ~ In k (dict_keys e1)) by (rewrite Ke1; assumption).
  destruct (dict_set_around e1 k g e2 k g2 He1 Ke2)
    as (f1 & g' & f2 & Eset & Kf1 & Kf2 & Hg').
  rewrite String.eqb_refl in Hg'. subst g'.
  assert (Hf1 : ~ In k (dict_keys f1)) by (rewrite Kf1; assumption).
  destruct (dict_comprehension_around post f1 k g2 f2 Hvpost Hf1 Kf2)
    as (h1 & g' & h2 & Epost & Kh1 & Kh2 & Hg').
  rewrite (Hg' Hpost) in Epost.
  exists h1, h2, g2, dpre. unfold T.dict.
  rewrite dict_comprehension_app, Epre. cbn [bind T.dict_comprehension].
  rewrite E1. cbn [bind]. rewrite (dict_set_fresh dpre k g1 Hkpre).
  rewrite dict_comprehension_app, Emid. cbn [bind T.dict_comprehension].
  rewrite E2. cbn [bind]. rewrite Eset, Epost. cbn [bind].
  repeat split; auto; try congruence.
Qed.

End DictFacts.

(** *** The evaluator on a binary node *)

Section BinaryNode.

Variable constants : pydict.
Variables c0 c1 l r : pyobj.
Hypothesis Hl : T._get_value constants c0 = Ok l.
Hypothesis Hr : T._get_value constants c1 = Ok r.

(** Once both operands are evaluated, the node checks their kinds and
    applies the operator of its name. *)
Lemma transform_binary data :
  is_binary_op data = true ->
  T._transform_tree constants (VTree data [c0; c1])
  = if is_number l && is_number r then
      match data with
      | add => py_add l r
      | sub => py_sub l r
      | mul => py_mul l r
      | _ => if py_ne_zero r then py_truediv l r else Raise ZeroDivisionError
      end
    else Raise TypeError.
Proof.
  unfold T._transform_tree, T.transform_tree_body, T.eval_binary_op_body.
  destruct data; try discriminate; intros _; rewrite Hl, Hr; cbn [bind];
    destruct (is_number l && is_number r); reflexivity.
Qed.

End BinaryNode.

Lemma int_truediv_outcome a b :
  b <> 0 ->
  (exists f, int_truediv a b = Ok f) \/ int_truediv a b = Raise OverflowError.
Proof.
  intros Hb. unfold int_truediv.
  destruct a as [|a|a]; [eauto| |];
    (destruct b as [|b|b]; [contradiction| |]);
    match goal with
    | |- context [SFdiv ?p ?e ?x ?y] => destruct (SFdiv p e x y); eauto
    end.
Qed.

Lemma float_of_int_outcome z :
  (exists f, float_of_int z = Ok f) \/ float_of_int z = Raise OverflowError.
Proof.
  unfold float_of_int. destruct (binary_normalize prec emax z 0 false); eauto.
Qed.

(** The operands of a mixed operation after coercion: a pair of floats,
    unless an Integer is too large for a double. *)
Lemma coerce_mixed l r :
  is_number l = true -> is_number r = true ->
  (forall a b, l = VInt a -> r = VInt b -> False) ->
  ((exists x y, coerce l r = Ok (Floats x y) /\
                (py_ne_zero r = true -> float_is_zero y = false))
   \/ coerce l r = Raise OverflowError)
  /\ (in_double_range l -> in_double_range r ->
      exists x y, coerce l r = Ok (Floats x y)).
Proof.
  intros Nl Nr Hmixed.
  destruct l as [| a | x | | | | |]; try discriminate Nl;
    destruct r as [| b | y | | | | |]; try discriminate Nr;
    cbn [coerce in_double_range py_ne_zero].
  - elim (Hmixed a b); reflexivity.
  - split.
    + destruct (float_of_int_outcome a) as [[f ->]| ->]; cbn [bind]; [|auto].
      left. exists f, y. split; [reflexivity|]. apply negb_true_iff.
    + intros Ha _. destruct (float_of_int_finite a Ha) as [f ->]. cbn [bind].
      eauto.
  - split.
    + destruct (float_of_int_outcome b) as [[f E]| ->]; cbn [bind]; [|auto].
      rewrite E. cbn [bind]. left. exists x, f. split; [reflexivity|].
      intros Hb. apply (float_of_int_nonzero b); [|assumption].
      intros ->. discriminate Hb.
    + intros _ Hb. destruct (float_of_int_finite b Hb) as [f ->]. cbn [bind].
      eauto.
  - split; [left|]; eauto using negb_true_iff.
    exists x, y. split; [reflexivity|]. apply negb_true_iff.
Qed.

(** *** The claims *)

(** Every call that the grammar lets through fails before its argument is
    looked at: the literals "len" and "abs" are filtered out of the
    children of [function], so the tree has the argument as its only child
    and [_eval_function] raises [IndexError] at [tree.children[1]].
    [len(5)] raises [IndexError], and so does [len(a)] for an array [a]. *)
Lemma function_call_raises_index_error :
  (forall constants e,
     T._eval_function constants (VTree function [e]) = Raise IndexError)
  /\ Parser.parse_factor 9 "len(5)"
     = Some (Ok (VTree factor
                   [VTree function
                      [VTree expr [VTree term [VTree factor [VInt 5]]]]],
                 ""))
  /\ Parser.parse "const n = |len(5)|" = Some (Raise IndexError)
  /\ Parser.parse ("const a = (1,2,3)" ++ nl ++ "const n = |len(a)|")
     = Some (Raise IndexError).
Proof.
  split; [reflexivity|]. repeat split; vm_compute; reflexivity.
Qed.

(** C1, as stated, fails: the document [const n = |len((1,2,3))|] does not
    compile; it is a syntax error. *)
Lemma len_of_array_literal_does_not_parse :
  Parser.parse "const n = |len((1,2,3))|" = Some (Raise LarkError)
  /\ Parser.parse "const n = |len((1,2,3))|"
     <> Some (Ok [VConst "n" (VInt 3)]).
Proof.
  split; [vm_compute; reflexivity | vm_compute; discriminate].
Qed.

(** C1, amended.  The document [const n = |len((1,2,3))|] is rejected with
    a syntax error: the run ends with status 1, reports a syntax error and
    writes nothing.  The argument of a function is an expression, and in an
    expression a comma after an operand is never accepted, whatever
    follows it: an array literal cannot be an argument. *)
Theorem function_argument_is_an_expression :
  (forall fuel left rest,
     Parser.term_loop (S fuel) left ("," ++ rest) = Some (Raise LarkError))
  /\ Parser.parse "const n = |len((1,2,3))|" = Some (Raise LarkError)
  /\ (forall str_ toprettyxml input output fs,
        fs input = Some "const n = |len((1,2,3))|" ->
        Xml.main str_ toprettyxml input output fs
        = Some {| Xml.exit_status := 1;
                  Xml.stdout := [Xml.SyntaxErrorMessage];
                  Xml.files := fs |}).
Proof.
  split; [|split].
  - intros fuel left rest. reflexivity.
  - vm_compute; reflexivity.
  - intros str_ toprettyxml input output fs Hin.
    unfold Xml.main. rewrite Hin.
    replace (Parser.parse "const n = |len((1,2,3))|")
      with (@Some (result (list pyobj)) (Raise LarkError))
      by (vm_compute; reflexivity).
    reflexivity.
Qed.

Lemma function_argument_is_an_expression_witness :
  Xml.main (fun _ => "") (fun _ => "") "in.conf" "out.xml"
    (fun p => if String.eqb p "in.conf"
              then Some "const n = |len((1,2,3))|" else None)
  = Some {| Xml.exit_status := 1;
            Xml.stdout := [Xml.SyntaxErrorMessage];
            Xml.files :=
              fun p => if String.eqb p "in.conf"
                       then Some "const n = |len((1,2,3))|" else None |}.
Proof.
  exact (proj2 (proj2 function_argument_is_an_expression)
           (fun _ => "") (fun _ => "") "in.conf" "out.xml" _ eq_refl).
Defined.

(** A block comment whose first line holds no end marker is not an ignored
    lexeme, whatever follows the line feed; where an item may start, it is
    a syntax error. *)
Lemma block_comment_stops_at_line_feed a b :
  has_end_marker a = false ->
  match_ignored ("/#" ++ a ++ nl ++ b) = None
  /\ forall fuel constants items,
       Parser.start_loop (S fuel) constants items ("/#" ++ a ++ nl ++ b)
       = Some (Raise LarkError).
Proof.
  intros Ha.
  assert (Hend : block_end (a ++ nl ++ b) = None).
  { induction a as [|c a IH]; [reflexivity|].
    cbn [has_end_marker] in Ha.
    destruct (strip_prefix "#/" (String c a)) eqn:Hp; [discriminate|].
    change (String c a ++ nl ++ b) with (String c (a ++ nl ++ b)).
    cbn [block_end].
    assert (Hp' : strip_prefix "#/" (String c (a ++ nl ++ b)) = None).
    { revert Hp. simpl. destruct (Ascii.eqb "#" c); [|reflexivity].
      destruct a as [|c' a']; simpl; [reflexivity|].
      destruct (Ascii.eqb "/" c'); [discriminate | reflexivity]. }
    rewrite Hp'. destruct (is_newline c); [reflexivity | apply IH, Ha]. }
  assert (Hign : match_ignored ("/#" ++ a ++ nl ++ b) = None).
  { change (match_ignored ("/#" ++ a ++ nl ++ b))
      with (block_end (a ++ nl ++ b)). exact Hend. }
  split; [exact Hign|]. intros fuel constants items.
  cbn [Parser.start_loop]. unfold next_token, skip_ignored.
  change (String.length ("/#" ++ a ++ nl ++ b))
    with (S (String.length ("#" ++ a ++ nl ++ b))).
  cbn [skip_ignored_loop]. rewrite Hign. reflexivity.
Qed.

(** C2 (the code departs from the claim).  The regexp of the block comment
    has no [s] flag, so [.] stops at a line feed: a block comment that
    spans two lines is not skipped, and the document is a syntax error.
    The same comment on one line is skipped. *)
Theorem multiline_block_comment_rejected :
  match_ignored ("/# first" ++ nl ++ "second #/") = None
  /\ Parser.parse ("const x = 5" ++ nl ++
                   "/# first" ++ nl ++ "second #/" ++ nl ++
                   "const y = 6")
     = Some (Raise LarkError)
  /\ Parser.parse ("const x = 5" ++ nl ++
                   "/# first second #/" ++ nl ++
                   "const y = 6")
     = Some (Ok [VConst "x" (VInt 5); VConst "y" (VInt 6)]).
Proof.
  repeat split; vm_compute; reflexivity.
Qed.

(** C3, as stated, fails: the quotient of two Integers can be too large
    for a double, and the division raises [OverflowError]. *)
Lemma division_of_huge_integers_overflows :
  is_number (VInt (10 ^ 616)) = true
  /\ is_number (VInt 2) = true
  /\ py_ne_zero (VInt 2) = true
  /\ T._transform_tree [] (VTree div [VInt (10 ^ 616); VInt 2])
     = Raise OverflowError
  /\ Parser.parse "const x = |1e308 * 1e308 / 2|"
     = Some (Raise OverflowError).
Proof.
  repeat split; vm_compute; reflexivity.
Qed.

(** C3, amended.  A division whose operands evaluate to Integer or Float,
    with a divisor that is not zero, yields a Float, also for two Integers,
    whenever its Integer operands are below [2^1023] in magnitude; with a
    larger Integer it yields a Float or raises [OverflowError].
    [const x = |10 / 2|] binds [x] to the Float 5.0. *)
Theorem division_yields_float constants c0 c1 l r :
  T._get_value constants c0 = Ok l ->
  T._get_value constants c1 = Ok r ->
  is_number l = true -> is_number r = true -> py_ne_zero r = true ->
  (in_double_range l -> in_double_range r ->
   exists f, T._transform_tree constants (VTree div [c0; c1]) = Ok (VFloat f))
  /\ ((exists f,
         T._transform_tree constants (VTree div [c0; c1]) = Ok (VFloat f))
      \/ T._transform_tree constants (VTree div [c0; c1])
         = Raise OverflowError)
  /\ Parser.parse "const x = |10 / 2|" = Some (Ok [VConst "x" (VFloat five)])
  /\ is_ratio five 5 1.
Proof.
  intros Hl Hr Nl Nr Hz.
  rewrite (transform_binary _ _ _ _ _ Hl Hr div eq_refl), Nl, Nr, Hz.
  cbn [andb]. unfold py_truediv.
  split; [|split; [|split; vm_compute; reflexivity]].
  - intros Rl Rr.
    destruct l as [| a | x | | | | |]; try discriminate Nl;
      destruct r as [| b | y | | | | |]; try discriminate Nr.
    + assert (Hb : b <> 0) by (intros ->; discriminate Hz).
      cbn [coerce bind]. cbn [in_double_range] in Rl.
      destruct (int_truediv_finite a b Rl Hb) as [f ->]. cbn [bind]. eauto.
    + destruct (coerce_mixed (VInt a) (VFloat y) Nl Nr) as [[H|H] Hfin];
        try (intros ? ? ? E; discriminate E);
        destruct (Hfin Rl Rr) as (x' & y' & E); rewrite E; cbn [bind];
        [destruct H as (x2 & y2 & E2 & Hy2); rewrite E in E2;
         inversion E2; subst; rewrite (Hy2 Hz); eauto
        | rewrite E in H; discriminate H].
    + destruct (coerce_mixed (VFloat x) (VInt b) Nl Nr) as [[H|H] Hfin];
        try (intros ? ? E; discriminate E);
        destruct (Hfin Rl Rr) as (x' & y' & E); rewrite E; cbn [bind];
        [destruct H as (x2 & y2 & E2 & Hy2); rewrite E in E2;
         inversion E2; subst; rewrite (Hy2 Hz); eauto
        | rewrite E in H; discriminate H].
    + cbn [coerce bind]. cbn [py_ne_zero] in Hz.
      apply negb_true_iff in Hz. rewrite Hz. eauto.
  - destruct l as [| a | x | | | | |]; try discriminate Nl;
      destruct r as [| b | y | | | | |]; try discriminate Nr.
    + assert (Hb : b <> 0) by (intros ->; discriminate Hz).
      cbn [coerce bind].
      destruct (int_truediv_outcome a b Hb) as [[f ->]| ->]; cbn [bind]; eauto.
    + destruct (coerce_mixed (VInt a) (VFloat y) Nl Nr) as [[H|H] _];
        try (intros ? ? ? E; discriminate E).
      * destruct H as (x2 & y2 & -> & Hy2). cbn [bind].
        rewrite (Hy2 Hz). eauto.
      * rewrite H. cbn [bind]. auto.
    + destruct (coerce_mixed (VFloat x) (VInt b) Nl Nr) as [[H|H] _];
        try (intros ? ? E; discriminate E).
      * destruct H as (x2 & y2 & -> & Hy2). cbn [bind].
        rewrite (Hy2 Hz). eauto.
      * rewrite H. cbn [bind]. auto.
    + cbn [coerce bind]. cbn [py_ne_zero] in Hz.
      apply negb_true_iff in Hz. rewrite Hz. eauto.
Qed.

Lemma division_yields_float_witness :
  (exists f, T._transform_tree [] (VTree div [VInt 10; VInt 2])
             = Ok (VFloat f))
  /\ Parser.parse "const x = |10 / 2|" = Some (Ok [VConst "x" (VFloat five)]).
Proof.
  pose proof (division_yields_float [] (VInt 10) (VInt 2) (VInt 10) (VInt 2)
                eq_refl eq_refl eq_refl eq_refl eq_refl) as (H & _ & P & _).
  split; [|exact P].
  apply H; cbn [in_double_range]; split; vm_compute; reflexivity.
Defined.

(** C4, as stated, fails: an Integer too large for a double cannot meet a
    Float; the addition raises [OverflowError] instead of yielding a
    Float. *)
Lemma huge_integer_plus_float_overflows :
  is_number (VInt (10 ^ 616)) = true
  /\ float_of_str "0.5" = Ok (S754_finite false 4503599627370496 (-53))
  /\ T._transform_tree []
       (VTree add [VInt (10 ^ 616);
                   VFloat (S754_finite false 4503599627370496 (-53))])
     = Raise OverflowError
  /\ Parser.parse "const z = |1e308 * 1e308 + 0.5|"
     = Some (Raise OverflowError).
Proof.
  repeat split; vm_compute; reflexivity.
Qed.

(** C4, amended.  A binding is visible to the constants that follow it:
    with [const a = 10] and then [const b = |a * 2|], [b] is the Integer
    20.  Add, Sub and Mul on two Integers yield the Integer sum, difference
    or product; on two Floats, a Float; on an Integer and a Float, a Float
    whenever the Integer is below [2^1023] in magnitude, and a Float or
    [OverflowError] beyond. *)
Theorem arithmetic_promotion constants c0 c1 l r :
  T._get_value constants c0 = Ok l ->
  T._get_value constants c1 = Ok r ->
  is_number l = true -> is_number r = true ->
  promoted Z.add (SFadd prec emax) l r
    (T._transform_tree constants (VTree add [c0; c1]))
  /\ promoted Z.sub (SFsub prec emax) l r
       (T._transform_tree constants (VTree sub [c0; c1]))
  /\ promoted Z.mul (SFmul prec emax) l r
       (T._transform_tree constants (VTree mul [c0; c1]))
  /\ (forall name raw v constants',
        T.const constants name raw = Ok (VConst name v, constants') ->
        T._get_value constants' (VStr name) = Ok v)
  /\ Parser.parse ("const a = 10" ++ nl ++ "const b = |a * 2|")
     = Some (Ok [VConst "a" (VInt 10); VConst "b" (VInt 20)]).
Proof.
  intros Hl Hr Nl Nr.
  rewrite !(transform_binary _ _ _ _ _ Hl Hr) by reflexivity.
  rewrite Nl, Nr. cbn [andb]. unfold py_add, py_sub, py_mul.
  assert (Hmixed : forall zop fop,
    promoted zop fop l r
      (o <- coerce l r ;;
       match o with
       | Ints x y => Ok (VInt (zop x y))
       | Floats x y => Ok (VFloat (fop x y))
       end)).
  { intros zop fop.
    destruct l as [| a | x | | | | |]; try discriminate Nl;
      destruct r as [| b | y | | | | |]; try discriminate Nr;
      try reflexivity; unfold promoted.
    - destruct (coerce_mixed (VInt a) (VFloat y) Nl Nr) as [[H|H] Hfin];
        try (intros ? ? ? E; discriminate E); (split; [|intros Rl Rr]).
      + destruct H as (x2 & y2 & -> & _). cbn [bind]. eauto.
      + destruct (Hfin Rl Rr) as (x' & y' & ->). cbn [bind]. eauto.
      + rewrite H. cbn [bind]. auto.
      + destruct (Hfin Rl Rr) as (x' & y' & ->). cbn [bind]. eauto.
    - destruct (coerce_mixed (VFloat x) (VInt b) Nl Nr) as [[H|H] Hfin];
        try (intros ? ? E; discriminate E); (split; [|intros Rl Rr]).
      + destruct H as (x2 & y2 & -> & _). cbn [bind]. eauto.
      + destruct (Hfin Rl Rr) as (x' & y' & ->). cbn [bind]. eauto.
      + rewrite H. cbn [bind]. auto.
      + destruct (Hfin Rl Rr) as (x' & y' & ->). cbn [bind]. eauto. }
  do 3 (split; [apply Hmixed|]). split; [|vm_compute; reflexivity].
  intros name raw v constants' H. unfold T.const in H.
  destruct (T._get_value constants raw) as [v'|]; [|discriminate].
  cbn [bind] in H. inversion H; subst. cbn [T._get_value].
  clear. induction constants as [|[k w] d IH]; cbn [dict_set dict_get].
  - rewrite String.eqb_refl. reflexivity.
  - destruct (String.eqb_spec k name) as [->|Hne]; cbn [dict_get].
    + rewrite String.eqb_refl. reflexivity.
    + apply String.eqb_neq in Hne. rewrite Hne. exact IH.
Qed.

Lemma arithmetic_promotion_witness :
  T._transform_tree [("a", VInt 10)] (VTree mul [VStr "a"; VInt 2])
  = Ok (VInt 20).
Proof.
  exact (proj1 (proj2 (proj2
    (arithmetic_promotion [("a", VInt 10)] (VStr "a") (VInt 2)
       (VInt 10) (VInt 2) eq_refl eq_refl eq_refl eq_refl)))).
Defined.

(** C5.  An identifier that the constant table does not hold evaluates to
    the Symbol of its name, as a value and inside an expression, and raises
    nothing; the serializer gives a Symbol a [string] node whose text is
    the name, appended after the children that the parent has.  So a
    document that binds [x] to the unbound name [y] compiles, and the
    output holds, under the [const] node of [x], the [string] node with
    the text [y]. *)
Theorem unresolved_identifier_is_symbol constants name :
  dict_get constants name = None ->
  T._get_value constants (VStr name) = Ok (VStr name)
  /\ T.value constants (T.CNAME {| type_ := CNAME; value := name |})
     = Ok (VStr name)
  /\ T._get_value constants (VTree factor [VStr name]) = Ok (VStr name)
  /\ (forall str_ tag attrib text children,
        Xml.value_to_xml str_ (VStr name)
          (Xml.Element tag attrib text children)
        = Xml.Element tag attrib text
            (children ++ [Xml.Element "string" [] (Some name) []]))
  /\ Parser.parse "const x = y" = Some (Ok [VConst "x" (VStr "y")])
  /\ (forall str_ toprettyxml input output fs,
        fs input = Some "const x = y" ->
        exists r,
          Xml.main str_ toprettyxml input output fs = Some r
          /\ Xml.exit_status r = 0
          /\ Xml.files r output
             = Some (toprettyxml
                       (Xml.Element "config" [] None
                          [Xml.Element "const" [("name", "x")] None
                             [Xml.Element "string" [] (Some "y") []]]))).
Proof.
  intros H. unfold T.value, T.CNAME. cbn [Lexer.value].
  unfold T._get_value at 3. unfold T.transform_tree_body.
  cbn [T._get_value]. rewrite H.
  split; [reflexivity|]. split; [reflexivity|]. split; [reflexivity|].
  split; [intros; reflexivity|].
  split; [vm_compute; reflexivity|].
  intros str_ toprettyxml input output fs Hin.
  unfold Xml.main. rewrite Hin.
  replace (Parser.parse "const x = y")
    with (Some (Ok [VConst "x" (VStr "y")])) by (vm_compute; reflexivity).
  eexists. split; [reflexivity|]. split; [reflexivity|].
  cbn [Xml.files]. unfold Xml.write. rewrite String.eqb_refl. reflexivity.
Qed.

Lemma unresolved_identifier_is_symbol_witness :
  T._get_value [("a", VInt 10)] (VStr "b") = Ok (VStr "b")
  /\ Xml.value_to_xml (fun _ => "") (VStr "b")
       (Xml.Element "config" [] None [Xml.Element "string" [] (Some "a") []])
     = Xml.Element "config" [] None
         [Xml.Element "string" [] (Some "a") [];
          Xml.Element "string" [] (Some "b") []].
Proof.
  pose proof (unresolved_identifier_is_symbol [("a", VInt 10)] "b" eq_refl)
    as (Hvalue & _ & _ & Hnode & _).
  split; [exact Hvalue|].
  exact (Hnode (fun _ => "") "config" [] None
           [Xml.Element "string" [] (Some "a") []]).
Defined.

(** C6, as stated, fails: both operands are evaluated before their kinds
    are looked at, so an operand whose own evaluation raises decides the
    error.  In [a + 1 / 0] with [a] unbound the left operand evaluates to a
    Symbol, which is neither an Integer nor a Float, and the operation
    raises the [ZeroDivisionError] of the right operand, not a
    [TypeError]; the run reports a division by zero. *)
Lemma symbol_plus_division_by_zero_raises_zero_division :
  is_binary_op add = true
  /\ T._get_value [] (VStr "a") = Ok (VStr "a")
  /\ is_number (VStr "a") = false
  /\ T._get_value [] (VTree div [VInt 1; VInt 0]) = Raise ZeroDivisionError
  /\ T._transform_tree []
       (VTree add [VStr "a"; VTree div [VInt 1; VInt 0]])
     = Raise ZeroDivisionError
  /\ T._transform_tree []
       (VTree add [VStr "a"; VTree div [VInt 1; VInt 0]])
     <> Raise TypeError
  /\ Parser.parse "const b = |a + 1 / 0|" = Some (Raise ZeroDivisionError)
  /\ Xml.main (fun _ => "") (fun _ => "") "in.conf" "out.xml"
       (fun p => if String.eqb p "in.conf"
                 then Some "const b = |a + 1 / 0|" else None)
     = Some {| Xml.exit_status := 1;
               Xml.stdout := [Xml.RuntimeErrorMessage];
               Xml.files :=
                 fun p => if String.eqb p "in.conf"
                          then Some "const b = |a + 1 / 0|" else None |}.
Proof.
  repeat split; try (vm_compute; reflexivity).
  vm_compute. discriminate.
Qed.

(** C6, amended.  A binary operation whose operands both evaluate, one of
    them to something other than an Integer or a Float, raises
    [TypeError]; so [const b = |a * 2|] with [a] unbound, where [a] is a
    Symbol. *)
Theorem non_numeric_operand_raises_type_error constants data c0 c1 l r :
  is_binary_op data = true ->
  T._get_value constants c0 = Ok l ->
  T._get_value constants c1 = Ok r ->
  is_number l = false \/ is_number r = false ->
  T._transform_tree constants (VTree data [c0; c1]) = Raise TypeError
  /\ Parser.parse "const b = |a * 2|" = Some (Raise TypeError).
Proof.
  intros Hop Hl Hr Hty.
  rewrite (transform_binary _ _ _ _ _ Hl Hr data Hop).
  split; [|vm_compute; reflexivity].
  destruct Hty as [H | H]; rewrite H; [|rewrite andb_false_r]; reflexivity.
Qed.

Lemma non_numeric_operand_raises_type_error_witness :
  T._transform_tree [] (VTree mul [VStr "a"; VInt 2]) = Raise TypeError.
Proof.
  exact (proj1 (non_numeric_operand_raises_type_error [] mul
                  (VStr "a") (VInt 2) (VStr "a") (VInt 2)
                  eq_refl eq_refl eq_refl (or_introl eq_refl))).
Defined.

(** C7, as stated, fails: the kinds of both operands are checked before
    the division is attempted, so a Symbol divided by zero is a
    [TypeError], reported as a type error, not a division by zero. *)
Lemma symbol_divided_by_zero_raises_type_error :
  T._get_value [] (VInt 0) = Ok (VInt 0)
  /\ numeric_zero (VInt 0) = true
  /\ T._transform_tree [] (VTree div [VStr "a"; VInt 0]) = Raise TypeError
  /\ Parser.parse "const z = |a / 0|" = Some (Raise TypeError).
Proof.
  repeat split; vm_compute; reflexivity.
Qed.

(** C7, amended.  A division whose left operand evaluates to an Integer or
    a Float and whose right operand evaluates to Integer 0 or Float 0.0
    raises [ZeroDivisionError]; and a run whose evaluation raises it ends
    with status 1, reports the division by zero and leaves every file as it
    was: nothing is written to the output path.  [const z = |1 / 0|] is
    such a document. *)
Theorem division_by_zero :
  (forall constants c0 c1 l r,
     T._get_value constants c0 = Ok l -> is_number l = true ->
     T._get_value constants c1 = Ok r -> numeric_zero r = true ->
     T._transform_tree constants (VTree div [c0; c1])
     = Raise ZeroDivisionError)
  /\ (forall str_ toprettyxml input output fs source,
        fs input = Some source ->
        Parser.parse source = Some (Raise ZeroDivisionError) ->
        Xml.main str_ toprettyxml input output fs
        = Some {| Xml.exit_status := 1;
                  Xml.stdout := [Xml.RuntimeErrorMessage];
                  Xml.files := fs |})
  /\ Parser.parse "const z = |1 / 0|" = Some (Raise ZeroDivisionError).
Proof.
  split; [|split; [|vm_compute; reflexivity]].
  - intros constants c0 c1 l r Hl Nl Hr Hz.
    rewrite (transform_binary _ _ _ _ _ Hl Hr div eq_refl), Nl.
    destruct r as [| [| |] | [| | |] | | | | |]; try discriminate Hz;
      reflexivity.
  - intros str_ toprettyxml input output fs source Hin Hparse.
    unfold Xml.main. rewrite Hin, Hparse. reflexivity.
Qed.

Lemma division_by_zero_witness :
  T._transform_tree [] (VTree div [VInt 1; VInt 0]) = Raise ZeroDivisionError
  /\ Xml.main (fun _ => "") (fun _ => "") "in.conf" "out.xml"
       (fun p => if String.eqb p "in.conf" then Some "const z = |1 / 0|"
                 else None)
     = Some {| Xml.exit_status := 1;
               Xml.stdout := [Xml.RuntimeErrorMessage];
               Xml.files :=
                 fun p => if String.eqb p "in.conf"
                          then Some "const z = |1 / 0|" else None |}.
Proof.
  destruct division_by_zero as (Heval & Hmain & Hparse). split.
  - apply (Heval [] (VInt 1) (VInt 0) (VInt 1) (VInt 0)); reflexivity.
  - apply (Hmain _ _ _ _ _ "const z = |1 / 0|"); [reflexivity|exact Hparse].
Defined.

(** C8.  The lexer's number tokens are all read by [float]; the [number]
    callback gives the Integer [z] exactly when the double read is the
    whole number [z], and otherwise the Float read.  The literal 5.0 is the
    Integer 5; the literal 5.5 is the Float 5.5, that is 11/2. *)
Theorem number_literal_kind accepts text tok rest :
  next_token accepts text = Ok (Some tok, rest) ->
  type_ tok = SIGNED_NUMBER ->
  (exists f,
     float_of_str (value tok) = Ok f
     /\ (forall z, is_whole f z -> T.number tok = Ok (VInt z))
     /\ ((forall z, ~ is_whole f z) -> T.number tok = Ok (VFloat f)))
  /\ T.number {| type_ := SIGNED_NUMBER; value := "5.0" |} = Ok (VInt 5)
  /\ T.number {| type_ := SIGNED_NUMBER; value := "5.5" |}
     = Ok (VFloat five_and_a_half)
  /\ is_ratio five_and_a_half 11 2
  /\ Parser.parse "const x = 5.0 const y = 5.5"
     = Some (Ok [VConst "x" (VInt 5); VConst "y" (VFloat five_and_a_half)]).
Proof.
  intros Htok Htype. split; [|repeat split; vm_compute; reflexivity].
  destruct (number_token_read _ _ _ _ Htok Htype) as [f Hf].
  exists f. split; [assumption|]. unfold T.number. rewrite Hf. cbn [bind].
  split.
  - intros z Hz. apply whole_is_integer in Hz as [-> ->]. reflexivity.
  - intros Hno. destruct (is_integer f) eqn:Hi; [|reflexivity].
    apply is_integer_whole in Hi. elim (Hno _ Hi).
Qed.

Lemma number_literal_kind_witness :
  exists f,
    float_of_str "5.0" = Ok f
    /\ (forall z, is_whole f z ->
        T.number {| type_ := SIGNED_NUMBER; value := "5.0" |} = Ok (VInt z))
    /\ ((forall z, ~ is_whole f z) ->
        T.number {| type_ := SIGNED_NUMBER; value := "5.0" |} = Ok (VFloat f)).
Proof.
  exact (proj1 (number_literal_kind [SIGNED_NUMBER; CNAME] "5.0 "
                  {| type_ := SIGNED_NUMBER; value := "5.0" |} " "
                  eq_refl eq_refl)).
Defined.

(** C9.  A table literal whose entries carry the key [k] twice, first at
    [(k, v1)] and last at [(k, v2)], evaluates without error to a Dict
    that holds [k] once, bound to the value of the last entry, after the
    very keys that the entries before the first occurrence give: the
    position of the first occurrence. *)
Theorem duplicate_table_key constants pre mid post k v1 v2 :
  ~ In k (map fst pre) -> ~ In k (map fst post) ->
  values_evaluated (pre ++ (k, v1) :: mid ++ (k, v2) :: post)%list ->
  (exists d1 d2 g2 dpre,
     T.dict constants (pre ++ (k, v1) :: mid ++ (k, v2) :: post)%list
     = Ok (VDict (d1 ++ (k, g2) :: d2)%list)
     /\ T._get_value constants v2 = Ok g2
     /\ ~ In k (dict_keys d1) /\ ~ In k (dict_keys d2)
     /\ T.dict constants pre = Ok (VDict dpre)
     /\ dict_keys d1 = dict_keys dpre)
  /\ Parser.parse "table([a = 1, b = 2, a = 3])"
     = Some (Ok [VDict [("a", VInt 3); ("b", VInt 2)]]).
Proof.
  intros Hpre Hpost Hv. split; [|vm_compute; reflexivity].
  apply dict_duplicate_key; assumption.
Qed.

Lemma duplicate_table_key_witness :
  exists d1 d2 g2 dpre,
    T.dict []
      [("a", VInt 1); ("b", VInt 2); ("c", VInt 3); ("b", VInt 4)]
    = Ok (VDict (d1 ++ ("b", g2) :: d2)%list)
    /\ T._get_value [] (VInt 4) = Ok g2
    /\ ~ In "b" (dict_keys d1) /\ ~ In "b" (dict_keys d2)
    /\ T.dict [] [("a", VInt 1)] = Ok (VDict dpre)
    /\ dict_keys d1 = dict_keys dpre.
Proof.
  refine (proj1 (duplicate_table_key [] [("a", VInt 1)] [("c", VInt 3)] []
                   "b" (VInt 2) (VInt 4) _ _ _)).
  - simpl. intros [H|[]]. discriminate H.
  - simpl. intros [].
  - repeat constructor.
Defined.

(** C10 (the code departs from the claim).  A document that holds
    nothing but a block comment of two lines is a document of white space
    and comments, yet the run ends with status 1, prints the syntax error
    and leaves the files as they were: the regexp of the block comment
    stops at the line feed, the defect of C2, and so does every document
    that starts with a block comment whose first line holds no end marker.
    On the other documents of the claim, empty or made of white space, line
    comments and block comments that sit on one line, the code does what
    the claim says: the run ends with status 0, prints nothing, leaves the
    output path with the text of a root node [config] without children,
    and changes no other path. *)
Theorem comment_only_document :
  whitespace_and_comments ("/# first" ++ nl ++ "second #/")
  /\ Parser.parse ("/# first" ++ nl ++ "second #/") = Some (Raise LarkError)
  /\ Parser.parse "/# first second #/" = Some (Ok [])
  /\ (forall str_ toprettyxml input output fs a b,
        has_end_marker a = false ->
        fs input = Some ("/#" ++ a ++ nl ++ b) ->
        Xml.main str_ toprettyxml input output fs
        = Some {| Xml.exit_status := 1;
                  Xml.stdout := [Xml.SyntaxErrorMessage];
                  Xml.files := fs |})
  /\ (forall source, blank source -> whitespace_and_comments source)
  /\ (forall str_ toprettyxml input output fs source,
        fs input = Some source ->
        blank source ->
        exists r,
          Xml.main str_ toprettyxml input output fs = Some r
          /\ Xml.exit_status r = 0
          /\ Xml.stdout r = []
          /\ Xml.files r output
             = Some (toprettyxml (Xml.Element "config" [] None []))
          /\ (forall path, path <> output -> Xml.files r path = fs path)).
Proof.
  split.
  { apply (comments_block (" first" ++ nl ++ "second ") "");
      [reflexivity | apply comments_end]. }
  split; [vm_compute; reflexivity|].
  split; [vm_compute; reflexivity|].
  split.
  { intros str_ toprettyxml input output fs a b Ha Hin.
    unfold Xml.main. rewrite Hin.
    unfold Parser.parse, Parser.depth_bound. cbn [Nat.add].
    rewrite (proj2 (block_comment_stops_at_line_feed a b Ha)).
    reflexivity. }
  split.
  { intros source Hblank.
    induction Hblank as [|c s Hc _ IH|body Hb|body s Hb _ IH|body s _ Hm _ IH].
    - apply comments_end.
    - apply comments_ws; assumption.
    - apply comments_line_eof; assumption.
    - apply comments_line; assumption.
    - apply comments_block; assumption. }
  intros str_ toprettyxml input output fs source Hin Hblank.
  unfold Xml.main. rewrite Hin, (parse_blank source Hblank).
  eexists. split; [reflexivity|].
  cbn [Xml.exit_status Xml.stdout Xml.files fold_left].
  split; [reflexivity|]. split; [reflexivity|]. split.
  - unfold Xml.write, Xml.prettify_xml. rewrite String.eqb_refl.
    reflexivity.
  - intros path Hne. unfold Xml.write.
    apply String.eqb_neq in Hne. rewrite Hne. reflexivity.
Qed.

Lemma comment_only_document_witness :
  exists r,
    Xml.main (fun _ => "") (fun _ => "<config/>") "in.conf" "out.xml"
      (fun p => if String.eqb p "in.conf"
                then Some (" " ++ nl ++ "! note" ++ nl ++ "/# note #/")
                else None)
    = Some r
    /\ Xml.exit_status r = 0
    /\ Xml.stdout r = []
    /\ Xml.files r "out.xml" = Some "<config/>"
    /\ (forall path, path <> "out.xml" ->
          Xml.files r path
          = if String.eqb path "in.conf"
            then Some (" " ++ nl ++ "! note" ++ nl ++ "/# note #/")
            else None).
Proof.
  refine (proj2 (proj2 (proj2 (proj2 (proj2 comment_only_document))))
            (fun _ => "") (fun _ => "<config/>") "in.conf" "out.xml"
            (fun p => if String.eqb p "in.conf"
                      then Some (" " ++ nl ++ "! note" ++ nl ++ "/# note #/")
                      else None)
            (" " ++ nl ++ "! note" ++ nl ++ "/# note #/")
            eq_refl _).
  apply blank_ws; [reflexivity|].
  apply blank_ws; [reflexivity|].
  apply (blank_line " note" "/# note #/"); [reflexivity|].
  apply (blank_block " note " ""); [reflexivity | reflexivity |].
  apply blank_end.
Defined.

(** ** Further properties *)

(** *** Values: induction under lists and dicts *)

Lemma pyobj_nested_ind (P : pyobj -> Prop) :
  P VNone -> (forall z, P (VInt z)) -> (forall f, P (VFloat f)) ->
  (forall s, P (VStr s)) ->
  (forall items, Forall P items -> P (VList items)) ->
  (forall entries, Forall (fun kv => P (snd kv)) entries ->
                   P (VDict entries)) ->
  (forall name v, P v -> P (VConst name v)) ->
  (forall data children, Forall P children -> P (VTree data children)) ->
  forall v, P v.
Proof.
  intros HNone HInt HFloat HStr HList HDict HConst HTree.
  fix IH 1. intros [| z | f | s | items | entries | name v | data children].
  - exact HNone.
  - apply HInt.
  - apply HFloat.
  - apply HStr.
  - apply HList. induction items as [|i items IHi]; constructor;
      [apply IH | exact IHi].
  - apply HDict. induction entries as [|[k v] entries IHe]; constructor;
      [apply IH | exact IHe].
  - apply HConst, IH.
  - apply HTree. induction children as [|c children IHc]; constructor;
      [apply IH | exact IHc].
Qed.

(** *** What evaluation returns and raises *)

Section Evaluation.

Variable constants : pydict.
Hypothesis Hconstants : all_evaluated constants = true.

Lemma lookup_evaluated s v :
  dict_get constants s = Some v -> evaluated v = true.
Proof.
  revert Hconstants. unfold all_evaluated.
  induction constants as [|[k w] d IH]; simpl; [discriminate|].
  intros Hd. apply andb_prop in Hd as [Hw Hd].
  destruct (String.eqb k s); [intros E; inversion E; subst; exact Hw|].
  apply IH, Hd.
Qed.

Lemma get_value_evaluated v :
  evaluated v = true ->
  exists g, T._get_value constants v = Ok g /\ evaluated g = true.
Proof.
  destruct v; simpl; intros Hv; try discriminate; eauto.
  destruct (dict_get constants s) as [w|] eqn:E; eauto using lookup_evaluated.
Qed.

Lemma get_values_evaluated items :
  forallb evaluated items = true ->
  exists vs, T.get_values constants items = Ok vs
             /\ forallb evaluated vs = true.
Proof.
  induction items as [|i items IH]; simpl; intros H; [eauto|].
  apply andb_prop in H as [Hi H].
  destruct (get_value_evaluated i Hi) as (g & -> & Hg).
  destruct (IH H) as (vs & -> & Hvs). simpl.
  exists (g :: vs). simpl. rewrite Hg, Hvs. auto.
Qed.

Lemma dict_set_evaluated d k v :
  all_evaluated d = true -> evaluated v = true ->
  all_evaluated (dict_set d k v) = true.
Proof.
  unfold all_evaluated. intros Hd Hv.
  induction d as [|[k' w] d IH]; simpl in *; [rewrite Hv; reflexivity|].
  apply andb_prop in Hd as [Hw Hd].
  destruct (String.eqb k' k); simpl; [rewrite Hv, Hd; reflexivity|].
  rewrite Hw, IH by assumption. reflexivity.
Qed.

Lemma dict_comprehension_evaluated items : forall d,
  all_evaluated d = true ->
  forallb (fun kv => evaluated (snd kv)) items = true ->
  exists d', T.dict_comprehension constants d items = Ok d'
             /\ all_evaluated d' = true.
Proof.
  induction items as [|[k v] items IH]; simpl; intros d Hd H; [eauto|].
  apply andb_prop in H as [Hv H].
  destruct (get_value_evaluated v Hv) as (g & -> & Hg). simpl.
  apply IH; [apply dict_set_evaluated|]; assumption.
Qed.

Lemma coerce_outcome l r :
  match coerce l r with
  | Ok _ => True
  | Raise e => e = TypeError \/ e = OverflowError
  end.
Proof.
  destruct l, r; simpl; auto;
    match goal with
    | |- context [float_of_int ?z] =>
        destruct (float_of_int_outcome z) as [[g ->]| ->]; simpl; auto
    end.
Qed.

Lemma int_truediv_raises a b e :
  int_truediv a b = Raise e -> e = ZeroDivisionError \/ e = OverflowError.
Proof.
  unfold int_truediv.
  destruct a, b; try (intros H; inversion H; auto; fail);
    match goal with
    | |- context [SFdiv ?p ?em ?x ?y] => destruct (SFdiv p em x y)
    end; intros H; inversion H; auto.
Qed.

(** An arithmetic operator returns a number or raises. *)
Lemma operator_outcome data l r :
  is_binary_op data = true ->
  match (match data with
         | add => py_add l r
         | sub => py_sub l r
         | mul => py_mul l r
         | _ => if py_ne_zero r then py_truediv l r
                else Raise ZeroDivisionError
         end) with
  | Ok v => is_number v = true
  | Raise e => raised_by_evaluation e = true
  end.
Proof.
  intros Hd. pose proof (coerce_outcome l r) as Hc.
  destruct data; try discriminate Hd;
    unfold py_add, py_sub, py_mul, py_truediv;
    try destruct (py_ne_zero r); try reflexivity;
    destruct (coerce l r) as [[x y|x y]|e]; simpl; try reflexivity;
    try (destruct Hc as [-> | ->]; reflexivity).
  - destruct (int_truediv x y) as [f|e] eqn:E; simpl; [reflexivity|].
    destruct (int_truediv_raises _ _ _ E) as [-> | ->]; reflexivity.
  - destruct (float_is_zero y); reflexivity.
Qed.

Lemma number_evaluated v : is_number v = true -> evaluated v = true.
Proof. destruct v; simpl; congruence. Qed.

(** Evaluating an expression gives an evaluated value, or raises one of
    four exceptions. *)
Lemma evaluation_outcome e :
  expression e = true ->
  match T._get_value constants e with
  | Ok v => evaluated v = true
  | Raise ex => raised_by_evaluation ex = true
  end.
Proof.
  induction e as [| z | f | s | items _ | entries _ | name v _
                 | data children IH] using pyobj_nested_ind;
    try discriminate; intros He.
  - reflexivity.
  - reflexivity.
  - simpl. destruct (dict_get constants s) eqn:E;
      eauto using lookup_evaluated.
  - cbn [expression] in He.
    destruct children as [|c0 [|c1 [|c2 rest]]]; try discriminate.
    + apply andb_prop in He as [Hd Hc].
      inversion IH as [|? ? IHc _]; subst. specialize (IHc Hc).
      destruct data; try discriminate Hd; try exact IHc.
      reflexivity.
    + apply andb_prop in He as [He Hr]. apply andb_prop in He as [Hd Hl].
      inversion IH as [|? ? IHl IH']; subst.
      inversion IH' as [|? ? IHr _]; subst.
      specialize (IHl Hl). specialize (IHr Hr).
      destruct (T._get_value constants c0) as [l|el] eqn:El.
      * destruct (T._get_value constants c1) as [r|er] eqn:Er.
        -- change (T._get_value constants (VTree data [c0; c1]))
             with (T._transform_tree constants (VTree data [c0; c1])).
           rewrite (transform_binary constants c0 c1 l r El Er data Hd).
           destruct (is_number l && is_number r); [|reflexivity].
           pose proof (operator_outcome data l r Hd) as Ho.
           destruct data; try discriminate Hd;
             match type of Ho with
             | match ?x with _ => _ end =>
                 destruct x; [apply number_evaluated|]; exact Ho
             end.
        -- destruct data; try discriminate Hd; simpl;
             unfold T.eval_binary_op_body; rewrite El; cbn [bind];
             rewrite Er; exact IHr.
      * destruct data; try discriminate Hd; simpl;
          unfold T.eval_binary_op_body; rewrite El; exact IHl.
Qed.

(** The callbacks on evaluated children. *)
Lemma value_callback v x :
  evaluated v = true -> T.value constants v = x ->
  exists g, x = Ok g /\ evaluated g = true.
Proof.
  intros Hv <-. destruct (get_value_evaluated v Hv) as (g & E & Hg).
  exists g. split; assumption.
Qed.

Lemma const_expr_callback e x :
  expression e = true -> T.const_expr constants e = x ->
  match x with
  | Ok v => evaluated v = true
  | Raise ex => raised_by_parse ex = true
  end.
Proof.
  intros He <-. pose proof (evaluation_outcome e He) as H.
  unfold T.const_expr. destruct (T._get_value constants e) as [v|ex];
    [assumption|]. destruct ex; try discriminate H; reflexivity.
Qed.

Lemma array_callback items x :
  forallb evaluated items = true -> T.array constants items = x ->
  exists vs, x = Ok (VList vs) /\ forallb evaluated vs = true.
Proof.
  intros Hi <-. destruct (get_values_evaluated items Hi) as (vs & E & Hvs).
  exists vs. unfold T.array. rewrite E. auto.
Qed.

Lemma dict_callback items x :
  forallb (fun kv => evaluated (snd kv)) items = true ->
  T.dict constants items = x ->
  exists d, x = Ok (VDict d) /\ all_evaluated d = true.
Proof.
  intros Hi <-.
  destruct (dict_comprehension_evaluated items [] eq_refl Hi) as (d & E & Hd).
  exists d. unfold T.dict. rewrite E. auto.
Qed.

Lemma const_callback name v x :
  evaluated v = true -> T.const constants name v = x ->
  exists g, x = Ok (VConst name g, dict_set constants name g)
            /\ evaluated g = true.
Proof.
  intros Hv <-. destruct (get_value_evaluated v Hv) as (g & E & Hg).
  unfold T.const. rewrite E. cbn [bind]. eauto.
Qed.

End Evaluation.

(** *** What the parser returns and raises *)

Lemma next_token_raises accepts text e :
  next_token accepts text = Raise e -> e = LarkError.
Proof.
  unfold next_token. destruct (skip_ignored text) as [|c t]; [discriminate|].
  destruct (accepted CNAME accepts && is_lower c).
  - destruct (span is_cname_char (String c t)) as [word r].
    destruct (keyword word) as [k|]; [destruct (accepted k accepts)|];
      discriminate.
  - destruct (if accepted SIGNED_NUMBER accepts
              then scan_number (String c t) else None) as [[d r]|];
      [discriminate|].
    destruct (match_literal accepts (String c t)) as [[tok r]|];
      [discriminate|].
    intros H; inversion H; reflexivity.
Qed.

Lemma expect_raises t text e :
  Parser.expect t text = Some (Raise e) -> e = LarkError.
Proof.
  unfold Parser.expect, Parser.lift, Parser.bindM.
  destruct (next_token [t] text) as [[[tok|] r]|e'] eqn:E.
  - discriminate.
  - intros H; inversion H; reflexivity.
  - intros H; inversion H; subst. eapply next_token_raises; eassumption.
Qed.

(** The [number] callback on a token of the lexer: a number, no
    exception. *)
Lemma number_of_token accepts text tok rest :
  next_token accepts text = Ok (Some tok, rest) ->
  type_ tok = SIGNED_NUMBER ->
  exists n, T.number tok = Ok n /\ is_number n = true.
Proof.
  intros H Ht. destruct (number_token_read _ _ _ _ H Ht) as [f E].
  unfold T.number. rewrite E. cbn [bind].
  destruct (is_integer f); eauto.
Qed.

Lemma bindM_some {A B} (m : Parser.M A) (k : A -> Parser.M B) r :
  Parser.bindM m k = Some r ->
  (exists a, m = Some (Ok a) /\ k a = Some r)
  \/ (exists e, m = Some (Raise e) /\ r = Raise e).
Proof.
  destruct m as [[a|e]|]; simpl; try discriminate; [eauto|].
  intros H; inversion H; eauto.
Qed.

Lemma raised_lark {A} (p : A -> bool) : outcome p (Raise LarkError).
Proof. reflexivity. Qed.

Lemma outcome_raise {A B} (p : A -> bool) (q : B -> bool) e :
  outcome p (Raise e) -> outcome q (Raise e).
Proof. exact (fun H => H). Qed.

Lemma number_expression v : is_number v = true -> expression v = true.
Proof. destruct v; simpl; congruence. Qed.

(** One step through a parsing function that returned or raised. *)
Ltac some_step :=
  match goal with
  | H : Parser.bindM _ _ = Some _ |- _ =>
      apply bindM_some in H;
      destruct H as [H | H];
      [ (destruct H as ([? ?] & ? & H) || destruct H as (? & ? & H))
      | let e := fresh "e" in let E := fresh "E" in
        destruct H as (e & E & H); first [ discriminate H | subst ] ]
  | H : Parser.lift _ = Some _ |- _ =>
      unfold Parser.lift in H; injection H as H
  | H : Parser.ret _ = Some _ |- _ =>
      unfold Parser.ret in H; injection H as H; subst
  | H : Parser.fail _ = Some _ |- _ =>
      unfold Parser.fail in H; injection H as H; subst
  | H : match option_map type_ ?tok with _ => _ end = _ |- _ =>
      destruct tok as [[[] ?]|]; cbn [option_map type_] in H
  | H : match ?tok with Some _ => _ | None => _ end = _ |- _ =>
      destruct tok as [[[] ?]|]; cbn [option_map type_] in H
  | H : next_token _ _ = Raise _ |- _ =>
      apply next_token_raises in H; subst
  | H : Parser.expect _ _ = Some (Raise _) |- _ =>
      apply expect_raises in H; subst
  | H : next_token _ _ = Ok (Some {| type_ := SIGNED_NUMBER |}, _),
    H' : T.number _ = _ |- _ =>
      let n := fresh "n" in let En := fresh "En" in let Hn := fresh "Hn" in
      destruct (number_of_token _ _ _ _ H eq_refl) as (n & En & Hn);
      rewrite En in H'; clear H;
      first [ discriminate H' | injection H' as H'; subst ]
  end.

(** The rules of expressions build expressions and raise Lark's errors
    only. *)
Lemma expr_outcome n :
  (forall text r, Parser.parse_expr n text = Some r -> outcome expression r)
  /\ (forall left text r,
        expression left = true ->
        Parser.expr_loop n left text = Some r -> outcome expression r)
  /\ (forall text r,
        Parser.parse_term n text = Some r -> outcome expression r)
  /\ (forall left text r,
        expression left = true ->
        Parser.term_loop n left text = Some r -> outcome expression r)
  /\ (forall text r,
        Parser.parse_factor n text = Some r -> outcome expression r).
Proof.
  induction n as [|n (IHe & IHel & IHt & IHtl & IHf)].
  - repeat split; intros; discriminate.
  - repeat split; intros;
      match goal with
      | H : _ = Some _ |- _ =>
          cbn [Parser.parse_expr Parser.expr_loop Parser.parse_term
               Parser.term_loop Parser.parse_factor] in H
      end;
      repeat some_step;
      repeat match goal with
        | H : Parser.parse_expr n _ = Some _ |- _ => apply IHe in H
        | H : Parser.parse_term n _ = Some _ |- _ => apply IHt in H
        | H : Parser.parse_factor n _ = Some _ |- _ => apply IHf in H
        end;
      try exact (raised_lark _);
      try (eapply outcome_raise; eassumption);
      try assumption.
    all: try (cbn [outcome] in *).
    all: try first [ eapply IHel; [|eassumption]
                   | eapply IHtl; [|eassumption] ].
    all: try (cbn [expression is_binary_op negb andb T.CNAME];
      repeat match goal with
        | H : expression _ = true |- _ => rewrite H
        | H : is_number _ = true |- _ => apply number_expression in H
        end; reflexivity).
Qed.

Section ParserOutcome.

Variable constants : pydict.
Hypothesis Hconstants : all_evaluated constants = true.

(** The side condition of a callback, from what is known of its
    children. *)
Ltac known :=
  cbn [evaluated T.CNAME T.dict_entry snd is_list is_dict andb forallb];
  rewrite ?forallb_app;
  cbn [forallb snd andb];
  repeat match goal with
    | H : _ = true |- _ => rewrite H
    end;
  first [ reflexivity | assumption
        | apply number_evaluated; assumption ].

Ltac callback_step :=
  match goal with
  | H : (_ && _)%bool = true |- _ => apply andb_prop in H as [? ?]
  | H : outcome _ (Ok _) |- _ => cbn [outcome] in H
  | H : T.value constants ?v = ?x |- _ =>
      let Hv := fresh "Hv" in
      assert (Hv : evaluated v = true) by known;
      destruct (value_callback constants Hconstants v x Hv H)
        as (? & ? & ?);
      clear H; first [ discriminate | subst ]
  | H : T.const_expr constants ?v = ?x |- _ =>
      let Hv := fresh "Hv" in
      assert (Hv : expression v = true) by assumption;
      pose proof (const_expr_callback constants Hconstants v x Hv H);
      clear H
  | H : T.array constants ?v = ?x |- _ =>
      let Hv := fresh "Hv" in
      assert (Hv : forallb evaluated v = true) by known;
      destruct (array_callback constants Hconstants v x Hv H)
        as (? & ? & ?);
      clear H; first [ discriminate | subst ]
  | H : T.dict constants ?v = ?x |- _ =>
      let Hv := fresh "Hv" in
      assert (Hv : forallb (fun kv => evaluated (snd kv)) v = true)
        by known;
      destruct (dict_callback constants Hconstants v x Hv H)
        as (? & ? & ?);
      clear H; first [ discriminate | subst ]
  | H : match dict_get constants ?s with _ => _ end = _ |- _ =>
      let L := fresh "L" in
      destruct (dict_get constants s) eqn:L;
      [apply (lookup_evaluated constants Hconstants) in L|]
  | H : Ok _ = Ok _ |- _ => injection H as H; subst
  | H : Ok _ = Raise _ |- _ => discriminate H
  | H : Raise _ = Ok _ |- _ => discriminate H
  end.

(** The rules of values return evaluated values: a list for an array, a
    dict for a table. *)
Lemma value_outcome n :
  (forall text r,
      Parser.parse_value n constants text = Some r -> outcome evaluated r)
  /\ (forall text r,
        Parser.parse_array n constants text = Some r ->
        outcome (fun v => is_list v && evaluated v) r)
  /\ (forall items text r,
        forallb evaluated items = true ->
        Parser.array_loop n constants items text = Some r ->
        outcome (fun v => is_list v && evaluated v) r)
  /\ (forall text r,
        Parser.parse_dict n constants text = Some r ->
        outcome (fun v => is_dict v && evaluated v) r)
  /\ (forall items text r,
        forallb (fun kv => evaluated (snd kv)) items = true ->
        Parser.dict_loop n constants items text = Some r ->
        outcome (fun v => is_dict v && evaluated v) r)
  /\ (forall text r,
        Parser.parse_dict_entry n constants text = Some r ->
        outcome (fun kv => evaluated (snd kv)) r).
Proof.
  induction n as [|n (IHv & IHa & IHal & IHd & IHdl & IHde)].
  - repeat split; intros; discriminate.
  - repeat split; intros;
      match goal with
      | H : _ = Some _ |- _ =>
          cbn [Parser.parse_value Parser.parse_array Parser.array_loop
               Parser.parse_dict Parser.dict_loop
               Parser.parse_dict_entry] in H
      end;
      repeat some_step;
      repeat match goal with
        | H : Parser.parse_expr n _ = Some _ |- _ => apply expr_outcome in H
        | H : Parser.parse_value n _ _ = Some _ |- _ => apply IHv in H
        | H : Parser.parse_array n _ _ = Some _ |- _ => apply IHa in H
        | H : Parser.parse_dict n _ _ = Some _ |- _ => apply IHd in H
        | H : Parser.parse_dict_entry n _ _ = Some _ |- _ => apply IHde in H
        end;
      try exact (raised_lark _);
      try (eapply outcome_raise; eassumption);
      repeat callback_step;
      try first [ eapply IHal; [|eassumption] | eapply IHdl; [|eassumption] ];
      try (cbn [outcome]; known).
Qed.

End ParserOutcome.

Lemma start_loop_outcome n : forall constants items text r,
  all_evaluated constants = true ->
  forallb (fun v => is_item v && evaluated v) items = true ->
  Parser.start_loop n constants items text = Some r ->
  match r with
  | Ok items' => forallb (fun v => is_item v && evaluated v) items' = true
  | Raise e => raised_by_parse e = true
  end.
Proof.
  induction n as [|n IH]; intros constants items text r Hc Hi H;
    [discriminate|].
  cbn [Parser.start_loop] in H.
  repeat some_step;
    repeat match goal with
      | H : Parser.parse_value n _ _ = Some _ |- _ =>
          apply (value_outcome _ Hc) in H; cbn [outcome] in H
      | H : Parser.parse_array n _ _ = Some _ |- _ =>
          apply (value_outcome _ Hc) in H; cbn [outcome] in H
      | H : Parser.parse_dict n _ _ = Some _ |- _ =>
          apply (value_outcome _ Hc) in H; cbn [outcome] in H
      | H : T.const _ _ ?v = _ |- _ =>
          let Hv := fresh "Hv" in
          assert (Hv : evaluated v = true) by assumption;
          destruct (const_callback _ Hc _ _ _ Hv H) as (? & ? & ?); clear H;
          first [ discriminate | subst ]
      | H : Ok _ = Ok _ |- _ => injection H as H; subst
      | H : (_ && _)%bool = true |- _ => apply andb_prop in H as [? ?]
      end;
    try reflexivity; try assumption.
  all: try (eapply IH; [| |eassumption];
            [ first [ assumption | apply dict_set_evaluated; assumption ]
            | rewrite forallb_app, Hi;
              cbn [forallb T.item is_item evaluated andb];
              repeat match goal with
                | H : _ = true |- _ => rewrite H
                end;
              try reflexivity ]).
  all: match goal with
       | Hk : _ ?p = true, He : evaluated ?p = true
         |- context [is_item (T.item ?p)] =>
           unfold T.item; rewrite He; destruct p; try discriminate Hk;
           reflexivity
       end.
Qed.

(** What a document gives: items that are tuples of constants, lists and
    dicts, with no tree left inside, or one of five exceptions. *)
Lemma parse_outcome source r :
  Parser.parse source = Some r ->
  match r with
  | Ok items => forallb (fun v => is_item v && evaluated v) items = true
  | Raise e => raised_by_parse e = true
  end.
Proof. apply start_loop_outcome; reflexivity. Qed.

(** *** A larger depth bound gives the same result *)

Lemma stable_refl {A} (m : Parser.M A) : stable m m.
Proof. intros r H. exact H. Qed.

Lemma stable_bind {A B} (m m' : Parser.M A) (k k' : A -> Parser.M B) :
  stable m m' -> (forall a, stable (k a) (k' a)) ->
  stable (Parser.bindM m k) (Parser.bindM m' k').
Proof.
  intros Hm Hk r. destruct m as [[a|e]|]; simpl; try discriminate.
  - rewrite (Hm _ eq_refl). simpl. apply Hk.
  - rewrite (Hm _ eq_refl). simpl. auto.
Qed.

Ltac stable_step :=
  first
    [ apply stable_refl
    | solve [auto 2]
    | apply stable_bind; [|intros ?]
    | match goal with
      | |- stable (match ?x with _ => _ end) _ => destruct x
      end ].

Lemma expr_stable n : forall m, (n <= m)%nat ->
  (forall text, stable (Parser.parse_expr n text) (Parser.parse_expr m text))
  /\ (forall left text,
        stable (Parser.expr_loop n left text) (Parser.expr_loop m left text))
  /\ (forall text,
        stable (Parser.parse_term n text) (Parser.parse_term m text))
  /\ (forall left text,
        stable (Parser.term_loop n left text) (Parser.term_loop m left text))
  /\ (forall text,
        stable (Parser.parse_factor n text) (Parser.parse_factor m text)).
Proof.
  induction n as [|n IH]; intros m Hm.
  - repeat split; intros; intros r H; discriminate H.
  - destruct m as [|m]; [lia|].
    destruct (IH m ltac:(lia)) as (IHe & IHel & IHt & IHtl & IHf).
    repeat split; intros;
      cbn [Parser.parse_expr Parser.expr_loop Parser.parse_term
           Parser.term_loop Parser.parse_factor];
      repeat stable_step.
Qed.

Lemma value_stable constants n : forall m, (n <= m)%nat ->
  (forall text,
      stable (Parser.parse_value n constants text)
             (Parser.parse_value m constants text))
  /\ (forall text,
        stable (Parser.parse_array n constants text)
               (Parser.parse_array m constants text))
  /\ (forall items text,
        stable (Parser.array_loop n constants items text)
               (Parser.array_loop m constants items text))
  /\ (forall text,
        stable (Parser.parse_dict n constants text)
               (Parser.parse_dict m constants text))
  /\ (forall items text,
        stable (Parser.dict_loop n constants items text)
               (Parser.dict_loop m constants items text))
  /\ (forall text,
        stable (Parser.parse_dict_entry n constants text)
               (Parser.parse_dict_entry m constants text)).
Proof.
  induction n as [|n IH]; intros m Hm.
  - repeat split; intros; intros r H; discriminate H.
  - destruct m as [|m]; [lia|].
    destruct (IH m ltac:(lia)) as (IHv & IHa & IHal & IHd & IHdl & IHde).
    pose proof (proj1 (expr_stable n m ltac:(lia))) as IHe.
    repeat split; intros;
      cbn [Parser.parse_value Parser.parse_array Parser.array_loop
           Parser.parse_dict Parser.dict_loop Parser.parse_dict_entry];
      repeat stable_step.
Qed.

Lemma start_loop_stable n : forall m constants items text,
  (n <= m)%nat ->
  stable (Parser.start_loop n constants items text)
         (Parser.start_loop m constants items text).
Proof.
  induction n as [|n IH]; intros m constants items text Hm.
  - intros r H; discriminate H.
  - destruct m as [|m]; [lia|].
    pose proof (fun c => value_stable c n m ltac:(lia)) as IHv.
    cbn [Parser.start_loop].
    repeat first
      [ apply stable_refl
      | apply IH; lia
      | apply IHv
      | apply stable_bind; [|intros ?]
      | match goal with
        | |- stable (match ?x with _ => _ end) _ => destruct x
        end ].
Qed.

(** The result of a document does not depend on the depth bound, once the
    bound is the one [parse] takes or a larger one. *)
Lemma parse_with_more_fuel source n :
  (Parser.depth_bound source <= n)%nat ->
  Parser.start_loop n [] [] source = Parser.parse source.
Proof.
  intros Hn. destruct (parse_total source) as [r Hr]. rewrite Hr.
  apply (start_loop_stable _ n [] [] source Hn). exact Hr.
Qed.

(** *** Serialization *)

Lemma fold_value_to_xml str_ items : forall parent,
  Forall (fun v => forall parent,
            Xml.value_to_xml str_ v parent
            = Xml.SubElement parent (element_of str_ v)) items ->
  fold_left (fun elem item => Xml.value_to_xml str_ item elem) items parent
  = match parent with
    | Xml.Element tag attrib text children =>
        Xml.Element tag attrib text
          (children ++ map (element_of str_) items)
    end.
Proof.
  induction items as [|v items IH]; intros [tag attrib text children] H.
  - simpl. rewrite app_nil_r. reflexivity.
  - inversion H as [|? ? Hv Hitems]; subst. cbn [fold_left map].
    rewrite Hv. cbn [Xml.SubElement]. rewrite (IH _ Hitems).
    rewrite <- app_assoc. reflexivity.
Qed.

Lemma fold_entries str_ entries : forall parent,
  Forall (fun kv => forall parent,
            Xml.value_to_xml str_ (snd kv) parent
            = Xml.SubElement parent (element_of str_ (snd kv))) entries ->
  fold_left
    (fun elem kv =>
       let '(k, v) := kv in
       Xml.SubElement elem
         (Xml.value_to_xml str_ v (Xml.Element "entry" [("key", k)] None [])))
    entries parent
  = match parent with
    | Xml.Element tag attrib text children =>
        Xml.Element tag attrib text
          (children ++
           map (fun kv =>
                  Xml.Element "entry" [("key", fst kv)] None
                    [element_of str_ (snd kv)]) entries)
    end.
Proof.
  induction entries as [|[k v] entries IH];
    intros [tag attrib text children] H.
  - simpl. rewrite app_nil_r. reflexivity.
  - inversion H as [|? ? Hv Hentries]; subst. cbn [fold_left map fst snd].
    simpl in Hv. rewrite Hv. cbn [Xml.SubElement]. rewrite (IH _ Hentries).
    rewrite <- app_assoc. reflexivity.
Qed.

Lemma value_to_xml_element str_ value parent :
  Xml.value_to_xml str_ value parent
  = Xml.SubElement parent (element_of str_ value).
Proof.
  revert parent.
  induction value as [| z | f | s | items IH | entries IH | name v IH
                     | data children _] using pyobj_nested_ind;
    intros parent; try reflexivity.
  - cbn [Xml.value_to_xml element_of].
    rewrite (fold_value_to_xml str_ items _ IH). reflexivity.
  - cbn [Xml.value_to_xml element_of].
    rewrite (fold_entries str_ entries _ IH). reflexivity.
  - cbn [Xml.value_to_xml element_of]. rewrite IH. reflexivity.
Qed.

Lemma root_of_result str_ result :
  fold_left (fun root item => Xml.value_to_xml str_ item root) result
    (Xml.Element "config" [] None [])
  = Xml.Element "config" [] None (map (element_of str_) result).
Proof.
  rewrite fold_value_to_xml; [reflexivity|].
  apply Forall_forall. intros v _ parent. apply value_to_xml_element.
Qed.

(** X1.  [value_to_xml] appends exactly one element to the children of
    the parent and leaves the parent's tag, attributes, text and earlier
    children as they were.  The element mirrors the value ([element_of]):
    an array has one child per item, a dict one entry per key, in order.
    Serializing a list of values one after the other, as [main] does,
    appends their elements in that order. *)
Theorem value_to_xml_appends_one_element str_ tag attrib text children :
  (forall value,
      Xml.value_to_xml str_ value (Xml.Element tag attrib text children)
      = Xml.Element tag attrib text (children ++ [element_of str_ value]))
  /\ (forall result,
        fold_left (fun root item => Xml.value_to_xml str_ item root) result
          (Xml.Element tag attrib text children)
        = Xml.Element tag attrib text
            (children ++ map (element_of str_) result)).
Proof.
  split.
  - intros value. rewrite value_to_xml_element. reflexivity.
  - intros result. rewrite fold_value_to_xml; [reflexivity|].
    apply Forall_forall. intros v _ parent. apply value_to_xml_element.
Qed.

(** *** The command line *)

(** X2.  A run whose command line [argparse] accepted, so that
    [parse_args] returned [args.input] and [args.output], ends with status
    0 or 1.  (A command line without one of the two options, or with an
    unknown one, is ended by [parse_args] itself with status 2, and one
    with [-h] with status 0, before [main] reads a file: those runs are not
    runs of the rest of [main].)  With status 1 no file is written or
    changed.  With status 0 the input exists and parses, nothing is
    printed, and the output path holds the document whose root has one
    child per item of the result, in order.  No path other than the output
    is ever changed. *)
Theorem main_outcome str_ toprettyxml input output fs :
  exists r,
    Xml.main str_ toprettyxml input output fs = Some r
    /\ (Xml.exit_status r = 0 \/ Xml.exit_status r = 1)
    /\ (Xml.exit_status r = 1 -> Xml.files r = fs)
    /\ (Xml.exit_status r = 0 ->
        exists source result,
          fs input = Some source
          /\ Parser.parse source = Some (Ok result)
          /\ Xml.stdout r = []
          /\ Xml.files r output
             = Some (toprettyxml
                       (Xml.Element "config" [] None
                          (map (element_of str_) result))))
    /\ (forall path, path <> output -> Xml.files r path = fs path).
Proof.
  unfold Xml.main. destruct (fs input) as [source|] eqn:Hin.
  - destruct (parse_total source) as [[result|e] Hparse]; rewrite Hparse.
    + eexists. split; [reflexivity|]. cbn [Xml.exit_status Xml.files].
      split; [auto|]. split; [discriminate|]. split.
      * intros _. exists source, result. rewrite root_of_result.
        unfold Xml.write. rewrite String.eqb_refl. auto.
      * intros path Hne. unfold Xml.write.
        apply String.eqb_neq in Hne. rewrite Hne. reflexivity.
    + destruct e; eexists; (split; [reflexivity|]);
        cbn [Xml.exit_status Xml.files];
        (split; [auto|]); (split; [auto|]); (split; [discriminate|]); auto.
  - eexists. split; [reflexivity|]. cbn [Xml.exit_status Xml.files].
    split; [auto|]. split; [auto|]. split; [discriminate|]. auto.
Qed.

(** X3.  Whatever the document, parsing and evaluation raise neither
    [ValueError] nor [AttributeError]: an exception that the grammar and
    the transformer raise is one of Lark's, [TypeError],
    [ZeroDivisionError], [IndexError] or [OverflowError].  The
    unknown-function branch of [_eval_function] and a failure of [float]
    are never reached.  The limits of the interpreter are left out: on an
    expression nested some hundreds of levels deep, or a chain of some
    hundreds of operators, Python ends the parse with a [RecursionError],
    which is none of the exceptions above and which no clause of [main]
    catches. *)
Theorem parser_never_raises_value_error source :
  Parser.parse source <> Some (Raise ValueError)
  /\ Parser.parse source <> Some (Raise AttributeError)
  /\ (forall e, Parser.parse source = Some (Raise e) ->
                raised_by_parse e = true).
Proof.
  assert (Hraise : forall e, Parser.parse source = Some (Raise e) ->
                             raised_by_parse e = true).
  { intros e H. exact (parse_outcome source _ H). }
  split; [|split].
  - intros H. apply Hraise in H. discriminate H.
  - intros H. apply Hraise in H. discriminate H.
  - exact Hraise.
Qed.

(** X4.  When a document parses, every item of the result is the tuple of
    a constant, a list or a dict, and holds no tree: every expression has
    been evaluated. *)
Theorem parse_result_is_evaluated source result :
  Parser.parse source = Some (Ok result) ->
  Forall (fun v => is_item v = true /\ evaluated v = true) result.
Proof.
  intros H. pose proof (parse_outcome source _ H) as Hr. cbn in Hr.
  apply Forall_forall. intros v Hv.
  rewrite forallb_forall in Hr. apply Hr in Hv.
  apply andb_prop in Hv. exact Hv.
Qed.

Lemma parse_result_is_evaluated_witness :
  Forall (fun v => is_item v = true /\ evaluated v = true)
    [VConst "x" (VInt 5); VList [VInt 1; VStr "y"]].
Proof.
  apply (parse_result_is_evaluated ("const x = 5" ++ nl ++ "(1, y)")).
  vm_compute. reflexivity.
Defined.

(** *** dict and the table of constants: lookup after assignment *)

Lemma dict_get_set_same d k v : dict_get (dict_set d k v) k = Some v.
Proof.
  induction d as [|[k' w] d IH]; simpl.
  - rewrite String.eqb_refl. reflexivity.
  - destruct (String.eqb k' k) eqn:E; simpl; rewrite E; auto.
Qed.

Lemma dict_get_set_other d k v k' :
  k' <> k -> dict_get (dict_set d k v) k' = dict_get d k'.
Proof.
  intros Hne. induction d as [|[a w] d IH]; simpl.
  - apply String.eqb_neq in Hne. rewrite String.eqb_sym, Hne. reflexivity.
  - destruct (String.eqb_spec a k) as [->|Hak]; simpl.
    + apply String.eqb_neq in Hne. rewrite String.eqb_sym, Hne.
      reflexivity.
    + rewrite IH. reflexivity.
Qed.

Lemma dict_set_nodup d k v :
  NoDup (dict_keys d) -> NoDup (dict_keys (dict_set d k v)).
Proof.
  induction d as [|[a w] d IH]; simpl; intros H.
  - constructor; [simpl; tauto | constructor].
  - inversion H as [|? ? Ha Hd]; subst.
    destruct (String.eqb_spec a k) as [->|Hak]; simpl.
    + constructor; assumption.
    + constructor; [|apply IH; assumption].
      change (~ In a (dict_keys (dict_set d k v))).
      rewrite dict_set_in_keys. intros [E|E]; [congruence | tauto].
Qed.

Lemma dict_set_keys d k v :
  dict_keys (dict_set d k v)
  = (dict_keys d
     ++ filter (fun x => negb (existsb (String.eqb x) (dict_keys d))) [k])%list.
Proof.
  induction d as [|[a w] d IH]; simpl; [reflexivity|].
  destruct (String.eqb_spec a k) as [->|Hak]; simpl.
  - rewrite String.eqb_refl. simpl. rewrite app_nil_r. reflexivity.
  - rewrite IH. simpl. apply String.eqb_neq in Hak.
    rewrite String.eqb_sym, Hak. reflexivity.
Qed.

Lemma filter_twice {A} (p q : A -> bool) l :
  filter p (filter q l) = filter (fun x => q x && p x) l.
Proof.
  induction l as [|a l IH]; simpl; [reflexivity|].
  destruct (q a); simpl; [destruct (p a)|]; rewrite IH; reflexivity.
Qed.

Section Comprehension.

Variable constants : pydict.

Lemma dict_comprehension_lookup items : forall d d',
  T.dict_comprehension constants d items = Ok d' ->
  forall k,
    dict_get d' k
    = match last_value items k with
      | Some raw => returned (T._get_value constants raw)
      | None => dict_get d k
      end.
Proof.
  induction items as [|[k1 v1] items IH]; simpl; intros d d' H k.
  - inversion H; reflexivity.
  - destruct (T._get_value constants v1) as [g|e] eqn:E; [|discriminate].
    simpl in H. rewrite (IH _ _ H k).
    destruct (last_value items k) as [w|]; [reflexivity|].
    destruct (String.eqb_spec k1 k) as [->|Hne].
    + rewrite E. apply dict_get_set_same.
    + apply dict_get_set_other. congruence.
Qed.

Lemma dict_comprehension_nodup items : forall d d',
  T.dict_comprehension constants d items = Ok d' ->
  NoDup (dict_keys d) -> NoDup (dict_keys d').
Proof.
  induction items as [|[k1 v1] items IH]; simpl; intros d d' H Hd.
  - inversion H; subst; assumption.
  - destruct (T._get_value constants v1) as [g|e]; [|discriminate].
    simpl in H. apply (IH _ _ H). apply dict_set_nodup, Hd.
Qed.

Lemma dict_comprehension_order items : forall d d',
  T.dict_comprehension constants d items = Ok d' ->
  dict_keys d'
  = (dict_keys d
     ++ filter (fun x => negb (existsb (String.eqb x) (dict_keys d)))
          (first_occurrences (map fst items)))%list.
Proof.
  induction items as [|[k1 v1] items IH]; simpl; intros d d' H.
  - inversion H; subst. rewrite app_nil_r. reflexivity.
  - destruct (T._get_value constants v1) as [g|e]; [|discriminate].
    simpl in H. rewrite (IH _ _ H), dict_set_keys. simpl.
    rewrite filter_twice.
    destruct (existsb (String.eqb k1) (dict_keys d)) eqn:Hin; simpl.
    + rewrite app_nil_r. f_equal. apply filter_ext_in. intros x _.
      destruct (String.eqb_spec k1 x) as [<-|Hne]; simpl;
        [rewrite Hin|]; reflexivity.
    + rewrite <- app_assoc. simpl. f_equal. f_equal.
      apply filter_ext_in. intros x _. rewrite existsb_app. simpl.
      rewrite orb_false_r, negb_orb, (String.eqb_sym x k1).
      apply andb_comm.
Qed.

End Comprehension.

(** X5.  The [dict] callback keeps the keys in the order of their first
    occurrence, each once, and gives each key the value of its last
    entry. *)
Theorem table_keeps_first_place_and_last_value constants items d :
  T.dict constants items = Ok (VDict d) ->
  dict_keys d = first_occurrences (map fst items)
  /\ NoDup (dict_keys d)
  /\ forall k,
       dict_get d k
       = match last_value items k with
         | Some raw => returned (T._get_value constants raw)
         | None => None
         end.
Proof.
  unfold T.dict.
  destruct (T.dict_comprehension constants [] items) as [d'|e] eqn:E;
    [|discriminate].
  intros H; inversion H; subst d'. split; [|split].
  - rewrite (dict_comprehension_order constants items _ _ E).
    cbn [dict_keys map app existsb negb].
    induction (first_occurrences (map fst items)) as [|x l IH];
      simpl; congruence.
  - apply (dict_comprehension_nodup constants items _ _ E). constructor.
  - intros k. rewrite (dict_comprehension_lookup constants items _ _ E k).
    reflexivity.
Qed.

Lemma table_keeps_first_place_and_last_value_witness :
  dict_keys [("a", VInt 3); ("b", VInt 2)]
  = first_occurrences (map fst [("a", VInt 1); ("b", VInt 2); ("a", VInt 3)])
  /\ NoDup (dict_keys [("a", VInt 3); ("b", VInt 2)])
  /\ forall k,
       dict_get [("a", VInt 3); ("b", VInt 2)] k
       = match last_value [("a", VInt 1); ("b", VInt 2); ("a", VInt 3)] k
         with
         | Some raw => returned (T._get_value [] raw)
         | None => None
         end.
Proof.
  apply (table_keeps_first_place_and_last_value []
           [("a", VInt 1); ("b", VInt 2); ("a", VInt 3)]).
  reflexivity.
Defined.

(** X6.  [const] binds the name to the value it evaluated: afterwards a
    reference to the name gives that value, every other name resolves as
    before, and the table of constants has the name besides the names it
    had. *)
Theorem const_binds_name constants name raw item constants' :
  T.const constants name raw = Ok (item, constants') ->
  exists v,
    T._get_value constants raw = Ok v
    /\ item = VConst name v
    /\ T._get_value constants' (VStr name) = Ok v
    /\ (forall other, other <> name ->
          T._get_value constants' (VStr other)
          = T._get_value constants (VStr other))
    /\ (forall k, In k (dict_keys constants')
                  <-> k = name \/ In k (dict_keys constants)).
Proof.
  unfold T.const.
  destruct (T._get_value constants raw) as [v|e]; [|discriminate].
  cbn [bind]. intros H; inversion H; subst. exists v.
  split; [reflexivity|]. split; [reflexivity|]. split; [|split].
  - cbn [T._get_value]. rewrite dict_get_set_same. reflexivity.
  - intros other Hne. cbn [T._get_value].
    rewrite dict_get_set_other by assumption. reflexivity.
  - intros k. apply dict_set_in_keys.
Qed.

Lemma const_binds_name_witness :
  exists v,
    T._get_value [("a", VInt 10)] (VStr "a") = Ok v
    /\ VConst "b" (VInt 10) = VConst "b" v
    /\ T._get_value [("a", VInt 10); ("b", VInt 10)] (VStr "b") = Ok v
    /\ (forall other, other <> "b" ->
          T._get_value [("a", VInt 10); ("b", VInt 10)] (VStr other)
          = T._get_value [("a", VInt 10)] (VStr other))
    /\ (forall k, In k (dict_keys [("a", VInt 10); ("b", VInt 10)])
                  <-> k = "b" \/ In k (dict_keys [("a", VInt 10)])).
Proof.
  apply (const_binds_name [("a", VInt 10)] "b" (VStr "a")). reflexivity.
Defined.

(** *** Names that are bound to names *)

(** The next token of a text that is given. *)
Ltac lex :=
  match goal with
  | |- context [next_token ?accepts ?text] =>
      let r := eval vm_compute in (next_token accepts text) in
      change (next_token accepts text) with r
  end.

(** The parser on a text that is given, up to the next callback. *)
Ltac run :=
  repeat first
    [ progress cbn [Parser.start_loop Parser.parse_value Parser.parse_array
                    Parser.array_loop Parser.parse_dict Parser.dict_loop
                    Parser.parse_dict_entry Parser.parse_expr
                    Parser.expr_loop Parser.parse_term Parser.term_loop
                    Parser.parse_factor Parser.lift Parser.bindM Parser.ret
                    Parser.fail option_map type_ bind]
    | progress unfold Parser.expect
    | lex ].

Lemma const_of_bound_symbol constants v fuel :
  dict_get constants "a" = Some (VStr "b") ->
  dict_get constants "b" = Some v ->
  Parser.start_loop (3 + fuel) constants [] "const c = a"
  = Some (Ok [VConst "c" v]).
Proof.
  intros Ha Hb. change (3 + fuel)%nat with (S (S (S fuel))).
  run. unfold T.value, T.CNAME. cbn [T._get_value Lexer.value].
  rewrite Ha.
  run. unfold T.const. cbn [T._get_value]. rewrite Hb.
  run. reflexivity.
Qed.

(** X7.  Every callback that receives a name looks it up again.  When [a]
    is bound to the symbol [b] and [b] to [v], the item [const c = a] binds
    [c] to [v]: [value] replaces [a] by the symbol, and [const] replaces
    the symbol by [v]. *)
Theorem bound_symbol_is_looked_up_again constants v :
  dict_get constants "a" = Some (VStr "b") ->
  dict_get constants "b" = Some v ->
  T.value constants (VStr "a") = Ok (VStr "b")
  /\ T.const constants "c" (VStr "b")
     = Ok (VConst "c" v, dict_set constants "c" v)
  /\ parse_with constants "const c = a" = Some (Ok [VConst "c" v]).
Proof.
  intros Ha Hb. split; [|split].
  - unfold T.value. cbn [T._get_value]. rewrite Ha. reflexivity.
  - unfold T.const. cbn [T._get_value]. rewrite Hb. reflexivity.
  - exact (const_of_bound_symbol constants v 93 Ha Hb).
Qed.

Lemma bound_symbol_is_looked_up_again_witness :
  T.value [("a", VStr "b"); ("b", VInt 5)] (VStr "a") = Ok (VStr "b")
  /\ T.const [("a", VStr "b"); ("b", VInt 5)] "c" (VStr "b")
     = Ok (VConst "c" (VInt 5),
           dict_set [("a", VStr "b"); ("b", VInt 5)] "c" (VInt 5))
  /\ parse_with [("a", VStr "b"); ("b", VInt 5)] "const c = a"
     = Some (Ok [VConst "c" (VInt 5)]).
Proof.
  apply (bound_symbol_is_looked_up_again
           [("a", VStr "b"); ("b", VInt 5)] (VInt 5));
    reflexivity.
Defined.

(** *** Operands and calls *)

(** X8.  A binary operation evaluates both operands before it checks
    their kinds: an exception raised by either operand is the outcome,
    also when the other operand is not a number. *)
Theorem operand_error_precedes_type_error constants data c0 c1 e :
  is_binary_op data = true ->
  (T._get_value constants c0 = Raise e \/
   (exists l, T._get_value constants c0 = Ok l)
   /\ T._get_value constants c1 = Raise e) ->
  T._get_value constants (VTree data [c0; c1]) = Raise e.
Proof.
  intros Hd H. cbn [T._get_value]. unfold T.transform_tree_body.
  destruct data; try discriminate Hd; unfold T.eval_binary_op_body;
    (destruct H as [-> | [[l ->] ->]]; reflexivity).
Qed.

Lemma operand_error_precedes_type_error_witness :
  T._get_value [] (VTree add [VStr "a"; VTree div [VInt 1; VInt 0]])
  = Raise ZeroDivisionError.
Proof.
  apply (operand_error_precedes_type_error [] add (VStr "a")
           (VTree div [VInt 1; VInt 0]) ZeroDivisionError);
    [reflexivity|].
  right. split; [exists (VStr "a")|]; reflexivity.
Defined.

(** X9.  A call of [len] or [abs] that parses cannot be evaluated, whatever
    its argument: the tree of [function] has the argument as its only
    child, and [_eval_function] raises [IndexError] when it reads a
    second one. *)
Theorem function_call_always_fails name fuel text tree rest constants :
  name = "len" \/ name = "abs" ->
  Parser.parse_factor fuel (name ++ "(" ++ text) = Some (Ok (tree, rest)) ->
  (exists e, tree = VTree factor [VTree function [e]])
  /\ T._get_value constants tree = Raise IndexError.
Proof.
  intros Hname H. destruct fuel as [|fuel]; [discriminate|].
  cbn [Parser.parse_factor] in H.
  assert (Htok : exists t,
             (t = LEN \/ t = ABS) /\
             next_token [SIGNED_NUMBER; CNAME; LPAR; LEN; ABS]
               (name ++ "(" ++ text)
             = Ok (Some (Build_Token t name), "(" ++ text)).
  { destruct Hname as [-> | ->]; [exists LEN | exists ABS];
      (split; [auto | reflexivity]). }
  destruct Htok as (t & Ht & Htok). rewrite Htok in H.
  cbn [Parser.lift Parser.bindM type_] in H.
  assert (H' : Parser.bindM (Parser.expect LPAR ("(" ++ text))
                 (fun '(_, rest) =>
                    Parser.bindM (Parser.parse_expr fuel rest)
                      (fun '(e, rest) =>
                         Parser.bindM (Parser.expect RPAR rest)
                           (fun '(_, rest) =>
                              Parser.ret
                                (VTree factor [VTree function [e]], rest))))
               = Some (Ok (tree, rest))).
  { destruct Ht as [-> | ->]; exact H. }
  clear H. repeat some_step. split; [eauto | reflexivity].
Qed.

Lemma function_call_always_fails_witness :
  (exists e,
      VTree factor
        [VTree function [VTree expr [VTree term [VTree factor [VInt 5]]]]]
      = VTree factor [VTree function [e]])
  /\ T._get_value []
       (VTree factor
          [VTree function [VTree expr [VTree term [VTree factor [VInt 5]]]]])
     = Raise IndexError.
Proof.
  apply (function_call_always_fails "len" 9 "5)" _ "" []);
    [left; reflexivity | vm_compute; reflexivity].
Defined.

(** *** The lexer: ignored text *)

Lemma skip_ignored_loop_enough n : forall m s,
  (String.length s <= n)%nat -> (String.length s <= m)%nat ->
  skip_ignored_loop n s = skip_ignored_loop m s.
Proof.
  induction n as [|n IH]; intros m s Hn Hm.
  - destruct s; [destruct m; reflexivity | simpl in Hn; lia].
  - destruct m as [|m].
    + destruct s; [reflexivity | simpl in Hm; lia].
    + cbn [skip_ignored_loop].
      destruct (match_ignored s) as [r|] eqn:E; [|reflexivity].
      apply match_ignored_shorter in E. apply IH; lia.
Qed.

Lemma match_ignored_skip s r :
  match_ignored s = Some r -> skip_ignored s = skip_ignored r.
Proof.
  intros E. unfold skip_ignored.
  pose proof (match_ignored_shorter _ _ E) as Hlen.
  destruct (String.length s) as [|n] eqn:Hs; [lia|].
  cbn [skip_ignored_loop]. rewrite E.
  apply skip_ignored_loop_enough; lia.
Qed.

Lemma skip_span_ws s : skip_ignored (snd (span is_ws s)) = skip_ignored s.
Proof.
  destruct s as [|c s]; [reflexivity|]. cbn [span].
  destruct (is_ws c) eqn:Hc; [|reflexivity].
  symmetry. rewrite (match_ignored_skip (String c s) (snd (span is_ws s))).
  - destruct (span is_ws s); reflexivity.
  - cbn [match_ignored]. rewrite Hc. reflexivity.
Qed.

Lemma skip_ws c s :
  is_ws c = true -> skip_ignored (String c s) = skip_ignored s.
Proof.
  intros Hc.
  rewrite (match_ignored_skip (String c s) (snd (span is_ws s))).
  - apply skip_span_ws.
  - cbn [match_ignored]. rewrite Hc. reflexivity.
Qed.

Lemma skip_ignored_prefix pre text :
  ignored pre -> skip_ignored (pre ++ text) = skip_ignored text.
Proof.
  induction 1 as [|c s Hc Hs IH|body s Hb Hs IH|body s Hb Hm Hs IH].
  - reflexivity.
  - change (String c s ++ text) with (String c (s ++ text)).
    rewrite skip_ws by assumption. exact IH.
  - rewrite !append_assoc.
    rewrite (match_ignored_skip _ (nl ++ s ++ text)).
    + change (nl ++ s ++ text) with (String "010" (s ++ text)).
      rewrite skip_ws by reflexivity. exact IH.
    + change (match_ignored ("!" ++ body ++ nl ++ s ++ text)) with
        (Some (snd (span (fun c => negb (is_newline c))
                      (body ++ nl ++ s ++ text)))).
      rewrite span_one_line by assumption. reflexivity.
  - rewrite !append_assoc.
    rewrite (match_ignored_skip _ (s ++ text)); [exact IH|].
    change (match_ignored ("/#" ++ body ++ "#/" ++ s ++ text)) with
      (block_end (body ++ "#/" ++ s ++ text)).
    apply block_end_found; assumption.
Qed.

Lemma next_token_ignored pre accepts text :
  ignored pre -> next_token accepts (pre ++ text) = next_token accepts text.
Proof.
  intros H. unfold next_token. rewrite skip_ignored_prefix by assumption.
  reflexivity.
Qed.

(** X10.  White space, a line comment with its line feed and a block
    comment on one line are invisible: in every parser state the lexer
    gives the same token with or without such a text before it, and a
    document gives the same result with or without it at its start. *)
Theorem ignored_text_is_invisible pre text :
  ignored pre ->
  (forall accepts,
      next_token accepts (pre ++ text) = next_token accepts text)
  /\ Parser.parse (pre ++ text) = Parser.parse text.
Proof.
  intros Hpre. split.
  - intros accepts. apply next_token_ignored. assumption.
  - rewrite <- (parse_with_more_fuel text (Parser.depth_bound (pre ++ text))).
    + unfold Parser.parse, Parser.depth_bound.
      change (8 + 8 * String.length (pre ++ text))%nat
        with (S (7 + 8 * String.length (pre ++ text))).
      cbn [Parser.start_loop].
      rewrite next_token_ignored by assumption. reflexivity.
    + unfold Parser.depth_bound. rewrite length_app. lia.
Qed.

Lemma ignored_text_is_invisible_witness :
  (forall accepts,
      next_token accepts
        ((" ! note" ++ nl ++ "/# more #/ ") ++ "const x = 5")
      = next_token accepts "const x = 5")
  /\ Parser.parse ((" ! note" ++ nl ++ "/# more #/ ") ++ "const x = 5")
     = Parser.parse "const x = 5".
Proof.
  apply (ignored_text_is_invisible (" ! note" ++ nl ++ "/# more #/ ")).
  apply ignored_ws; [reflexivity|].
  apply (ignored_line " note"); [reflexivity|].
  apply (ignored_block " more "); [reflexivity | reflexivity |].
  apply ignored_ws; [reflexivity | apply ignored_end].
Defined.

(** *** The lexer: names and keywords *)

Lemma lower_not_ignored c s :
  is_lower c = true -> match_ignored (String c s) = None.
Proof.
  destruct c as [[] [] [] [] [] [] [] []]; try discriminate; reflexivity.
Qed.

Lemma skip_ignored_stays s :
  match_ignored s = None -> skip_ignored s = s.
Proof.
  intros E. unfold skip_ignored.
  destruct (String.length s); cbn [skip_ignored_loop]; [|rewrite E];
    reflexivity.
Qed.

(** X11.  A name is the longest run of lower-case letters, digits and
    underscores that starts with a letter.  It is a keyword token only
    when the whole run is a keyword that the parser state accepts: a longer
    word is a name, and so is a keyword where the state expects none. *)
Theorem name_is_longest_match accepts c word rest :
  accepted CNAME accepts = true ->
  is_lower c = true ->
  all is_cname_char word = true ->
  stops is_cname_char rest = true ->
  next_token accepts (String c word ++ rest)
  = Ok (Some {| type_ := match keyword (String c word) with
                         | Some k => if accepted k accepts then k else CNAME
                         | None => CNAME
                         end;
                value := String c word |},
        rest).
Proof.
  intros Hacc Hc Hword Hrest. unfold next_token.
  change (String c word ++ rest) with (String c (word ++ rest)).
  rewrite skip_ignored_stays by (apply lower_not_ignored; assumption).
  rewrite Hacc, Hc. cbn [andb].
  change (String c (word ++ rest)) with (String c word ++ rest).
  rewrite span_exact; [| |assumption].
  - destruct (keyword (String c word)) as [k|];
      [destruct (accepted k accepts)|]; reflexivity.
  - cbn [all]. unfold is_cname_char at 1. rewrite Hc, Hword. reflexivity.
Qed.

Lemma name_is_longest_match_witness :
  next_token [SIGNED_NUMBER; LPAR; TABLE; VBAR; CNAME] ("tables" ++ " = 1")
  = Ok (Some {| type_ := CNAME; value := "tables" |}, " = 1").
Proof.
  apply (name_is_longest_match
           [SIGNED_NUMBER; LPAR; TABLE; VBAR; CNAME] "t" "ables" " = 1");
    reflexivity.
Defined.

(** X12.  Where an item may start, the lexer knows the keywords and no
    names, so ["const"] is recognised at the start of any text: no blank is
    needed after it, and [constx = 5] is the item [const x = 5]. *)
Theorem const_keyword_needs_no_blank rest :
  next_token [CONST; LPAR; TABLE] ("const" ++ rest)
  = Ok (Some {| type_ := CONST; value := "const" |}, rest)
  /\ Parser.parse ("const" ++ rest) = Parser.parse ("const " ++ rest).
Proof.
  split; [reflexivity|].
  rewrite <- (parse_with_more_fuel ("const" ++ rest)
                (Parser.depth_bound ("const " ++ rest))).
  - unfold Parser.parse, Parser.depth_bound.
    change (8 + 8 * String.length ("const " ++ rest))%nat
      with (S (7 + 8 * String.length ("const " ++ rest))).
    cbn [Parser.start_loop].
    change (next_token [CONST; LPAR; TABLE] ("const" ++ rest))
      with (Ok (Some {| type_ := CONST; value := "const" |}, rest)).
    change (next_token [CONST; LPAR; TABLE] ("const " ++ rest))
      with (Ok (Some {| type_ := CONST; value := "const" |}, " " ++ rest)).
    cbn [Parser.lift Parser.bindM option_map type_].
    assert (Hblank : Parser.expect CNAME (" " ++ rest)
                     = Parser.expect CNAME rest).
    { unfold Parser.expect.
      rewrite (next_token_ignored " " [CNAME] rest
                 (ignored_ws " " "" eq_refl ignored_end)).
      reflexivity. }
    rewrite Hblank. reflexivity.
  - unfold Parser.depth_bound. rewrite !length_app. simpl. lia.
Qed.

(** *** Integers that are exact as doubles *)

(** A mantissa that needs no shift is kept as it is. *)
Lemma round_aux_exact sx m ex :
  fexp prec emax (Zdigits2 (Z.pos m) + ex) <= ex -> ex <= emax - prec ->
  binary_round_aux prec emax sx (Z.pos m) ex loc_Exact
  = S754_finite sx m ex.
Proof.
  intros Hshift Hex. unfold binary_round_aux, shr_fexp.
  assert (Hshr : forall mrs,
             shr mrs ex (fexp prec emax (Zdigits2 (Z.pos m) + ex) - ex)
             = (mrs, ex)).
  { intros mrs. unfold shr.
    destruct (fexp prec emax (Zdigits2 (Z.pos m) + ex) - ex) eqn:E;
      try reflexivity. lia. }
  rewrite Hshr.
  cbn [shr_record_of_loc shr_m loc_of_shr_record round_nearest_even].
  rewrite Hshr. cbn [shr_m]. apply Z.leb_le in Hex. rewrite Hex.
  reflexivity.
Qed.

Lemma Zdigits2_mul_pow2 m k :
  0 <= k -> Zdigits2 (Z.pos m * 2 ^ k) = Zdigits2 (Z.pos m) + k.
Proof.
  intros Hk. assert (Hp : 0 < 2 ^ k) by (apply Z.pow_pos_nonneg; lia).
  rewrite !Zdigits2_log2 by lia. rewrite Z.log2_mul_pow2 by lia. lia.
Qed.

(** An integer below [2^53] in magnitude converts without rounding. *)
Lemma binary_round_small sx m :
  Z.pos m < 2 ^ 53 ->
  exists mz ez,
    binary_round prec emax sx m 0 = S754_finite sx mz ez
    /\ ez <= 0 /\ Z.pos mz = Z.pos m * 2 ^ (- ez).
Proof.
  intros Hm. unfold binary_round.
  destruct (shl_align m 0 (fexp prec emax (Z.pos (digits2_pos m) + 0)))
    as [mz ez] eqn:E.
  apply shl_align_spec in E as (Hmz & Hez & Hcase).
  change (Z.pos (digits2_pos m)) with (Zdigits2 (Z.pos m)) in Hcase.
  assert (Hd : Zdigits2 (Z.pos m) <= 53) by (apply Zdigits2_le_of_lt; lia).
  pose proof (Zdigits2_pos m) as Hd1.
  exists mz, ez. replace (- ez) with (0 - ez) by lia.
  split; [|split; assumption].
  apply round_aux_exact; [|change (emax - prec) with 971; lia].
  rewrite Hmz, Zdigits2_mul_pow2 by lia.
  rewrite fexp_eq in *. lia.
Qed.

Lemma normalize_small z :
  - 2 ^ 53 < z < 2 ^ 53 ->
  is_whole (binary_normalize prec emax z 0 false) z.
Proof.
  intros Hz. unfold binary_normalize. destruct z as [|m|m].
  - reflexivity.
  - destruct (binary_round_small false m ltac:(lia))
      as (mz & ez & -> & Hez & Hmz).
    cbn [is_whole is_ratio]. destruct (Z.leb_spec 0 ez).
    + replace ez with 0 in * by lia. simpl in Hmz. lia.
    + lia.
  - destruct (binary_round_small true m ltac:(lia))
      as (mz & ez & -> & Hez & Hmz).
    cbn [is_whole is_ratio].
    assert (Hneg : Z.neg mz = - Z.pos mz) by reflexivity.
    assert (Hneg' : Z.neg m = - Z.pos m) by reflexivity.
    destruct (Z.leb_spec 0 ez).
    + replace ez with 0 in * by lia. simpl in Hmz. lia.
    + rewrite Hneg, Hneg', Hmz. ring.
Qed.

(** *** Integer literals *)

Lemma Z_of_digits_acc_nonneg s : forall acc,
  all is_digit s = true -> 0 <= acc -> 0 <= Z_of_digits_acc acc s.
Proof.
  induction s as [|c s IH]; intros acc Hs Hacc; [exact Hacc|].
  cbn [all] in Hs. apply andb_prop in Hs as [Hc Hs].
  cbn [Z_of_digits_acc]. apply IH; [assumption|].
  assert (0 <= digit_val c).
  { unfold digit_val. unfold is_digit, in_range in Hc.
    apply andb_prop in Hc as [Hlo _]. apply Nat.leb_le in Hlo. lia. }
  lia.
Qed.

Lemma scan_digits (sign : bool) (digits : string) :
  digits <> "" -> all is_digit digits = true ->
  scan_number ((if sign then "-" else "") ++ digits)
  = Some (Build_decimal sign digits "" 0, "").
Proof.
  intros Hne Hd.
  assert (Hsign : scan_sign ((if sign then "-" else "") ++ digits)
                  = (sign, digits)).
  { destruct sign; [reflexivity|].
    destruct digits as [|c ds]; [congruence|].
    cbn [all] in Hd. apply andb_prop in Hd as [Hc _].
    destruct (digit_not_sign c Hc) as [Hplus Hminus].
    unfold scan_sign. cbn [append strip_prefix]. rewrite Hplus, Hminus.
    reflexivity. }
  unfold scan_number. rewrite Hsign. unfold scan_unsigned.
  rewrite <- (append_empty_r digits) at 1.
  rewrite span_exact by (assumption || reflexivity).
  destruct digits as [|c ds]; [congruence|]. reflexivity.
Qed.

(** X13.  A literal made of decimal digits, with or without a minus sign,
    whose value is below [2^53], reads as the Integer of that value: the
    detour through [float] loses nothing.  At [2^53 + 1] it does: the
    literal 9007199254740993 reads as the Integer 9007199254740992. *)
Theorem integer_literal_reads_exactly (sign : bool) (digits : string) :
  digits <> "" -> all is_digit digits = true ->
  Z_of_digits digits < 2 ^ 53 ->
  T.number {| type_ := SIGNED_NUMBER;
              value := (if sign then "-" else "") ++ digits |}
  = Ok (VInt (if sign then - Z_of_digits digits else Z_of_digits digits))
  /\ T.number {| type_ := SIGNED_NUMBER; value := "9007199254740993" |}
     = Ok (VInt 9007199254740992).
Proof.
  intros Hne Hd Hlt. split; [|vm_compute; reflexivity].
  pose proof (Z_of_digits_acc_nonneg digits 0 Hd ltac:(lia)) as Hnn.
  fold (Z_of_digits digits) in Hnn.
  unfold T.number, float_of_str. cbn [Lexer.value].
  rewrite scan_digits by assumption. cbn [bind].
  set (z := if sign then - Z_of_digits digits else Z_of_digits digits).
  assert (Hwhole : is_whole
                     (float_of_decimal (Build_decimal sign digits "" 0)) z).
  { unfold float_of_decimal.
    cbn [neg int_digits frac_digits exponent String.length].
    rewrite append_empty_r.
    destruct (Z.eqb_spec (Z_of_digits digits) 0) as [E|E].
    - unfold z. rewrite E. destruct sign; reflexivity.
    - change (0 - Z.of_nat 0) with 0. cbn [Z.leb Z.compare].
      change (10 ^ 0) with 1. rewrite Z.mul_1_r. fold z.
      apply normalize_small. unfold z. destruct sign; lia. }
  destruct (whole_is_integer _ _ Hwhole) as [-> ->]. reflexivity.
Qed.

Lemma integer_literal_reads_exactly_witness :
  T.number {| type_ := SIGNED_NUMBER; value := "-" ++ "2048" |}
  = Ok (VInt (- Z_of_digits "2048"))
  /\ T.number {| type_ := SIGNED_NUMBER; value := "9007199254740993" |}
     = Ok (VInt 9007199254740992).
Proof.
  apply (integer_literal_reads_exactly true "2048");
    [discriminate | reflexivity | vm_compute; reflexivity].
Defined.

Lemma scan_sign_digit c s :
  is_digit c = true -> scan_sign (String c s) = (false, String c s).
Proof.
  intros Hc. destruct (digit_not_sign c Hc) as [Hplus Hminus].
  unfold scan_sign. cbn [strip_prefix]. rewrite Hplus, Hminus. reflexivity.
Qed.

Lemma scan_digits_exp (sign : bool) (digits exp_digits : string) :
  digits <> "" -> all is_digit digits = true ->
  exp_digits <> "" -> all is_digit exp_digits = true ->
  scan_number ((if sign then "-" else "") ++ digits ++ "e" ++ exp_digits)
  = Some (Build_decimal sign digits "" (Z_of_digits exp_digits), "").
Proof.
  intros Hne Hd Hne' Hd'.
  assert (Hsign :
            scan_sign
              ((if sign then "-" else "") ++ digits ++ "e" ++ exp_digits)
            = (sign, digits ++ "e" ++ exp_digits)).
  { destruct sign; [reflexivity|].
    destruct digits as [|c ds]; [congruence|].
    cbn [all] in Hd. apply andb_prop in Hd as [Hc _].
    apply (scan_sign_digit c _ Hc). }
  assert (Hexp : scan_exp ("e" ++ exp_digits)
                 = Some (Z_of_digits exp_digits, "")).
  { destruct exp_digits as [|c es]; [congruence|].
    pose proof Hd' as Hall. cbn [all] in Hd'.
    apply andb_prop in Hd' as [Hc _].
    unfold scan_exp. cbn [append]. change (Ascii.eqb "e" "e") with true.
    cbn [orb]. rewrite (scan_sign_digit c es Hc).
    rewrite <- (append_empty_r (String c es)) at 1.
    rewrite span_exact by (assumption || reflexivity). reflexivity. }
  unfold scan_number. rewrite Hsign. unfold scan_unsigned.
  rewrite span_exact by (assumption || reflexivity).
  rewrite Hexp. destruct digits as [|c ds]; [congruence|]. reflexivity.
Qed.

(** X14.  A literal made of decimal digits and an exponent without sign,
    such as [12e3], reads as an Integer too when its value is below
    [2^53]: the digits times the power of ten. *)
Theorem exponent_literal_is_an_integer
    (sign : bool) (digits exp_digits : string) :
  digits <> "" -> all is_digit digits = true ->
  exp_digits <> "" -> all is_digit exp_digits = true ->
  Z_of_digits digits * 10 ^ Z_of_digits exp_digits < 2 ^ 53 ->
  T.number {| type_ := SIGNED_NUMBER;
              value := (if sign then "-" else "")
                       ++ digits ++ "e" ++ exp_digits |}
  = Ok (VInt ((if sign then -1 else 1)
              * (Z_of_digits digits * 10 ^ Z_of_digits exp_digits))).
Proof.
  intros Hne Hd Hne' Hd' Hlt.
  pose proof (Z_of_digits_acc_nonneg digits 0 Hd ltac:(lia)) as Hnn.
  pose proof (Z_of_digits_acc_nonneg exp_digits 0 Hd' ltac:(lia)) as Hnn'.
  fold (Z_of_digits digits) in Hnn. fold (Z_of_digits exp_digits) in Hnn'.
  assert (Hpow : 0 < 10 ^ Z_of_digits exp_digits)
    by (apply Z.pow_pos_nonneg; lia).
  unfold T.number, float_of_str. cbn [Lexer.value].
  rewrite scan_digits_exp by assumption. cbn [bind].
  set (z := (if sign then -1 else 1)
            * (Z_of_digits digits * 10 ^ Z_of_digits exp_digits)).
  assert (Hwhole : is_whole
                     (float_of_decimal
                        (Build_decimal sign digits ""
                           (Z_of_digits exp_digits))) z).
  { unfold float_of_decimal.
    cbn [neg int_digits frac_digits exponent String.length].
    rewrite append_empty_r.
    destruct (Z.eqb_spec (Z_of_digits digits) 0) as [E|E].
    - unfold z. rewrite E. destruct sign; reflexivity.
    - replace (Z_of_digits exp_digits - Z.of_nat 0)
        with (Z_of_digits exp_digits) by lia.
      apply Z.leb_le in Hnn' as Hle. rewrite Hle.
      replace ((if sign then - Z_of_digits digits else Z_of_digits digits)
               * 10 ^ Z_of_digits exp_digits) with z
        by (unfold z; destruct sign; ring).
      apply normalize_small. unfold z. destruct sign; nia. }
  destruct (whole_is_integer _ _ Hwhole) as [-> ->]. reflexivity.
Qed.

Lemma exponent_literal_is_an_integer_witness :
  T.number {| type_ := SIGNED_NUMBER; value := "" ++ "12" ++ "e" ++ "3" |}
  = Ok (VInt (1 * (Z_of_digits "12" * 10 ^ Z_of_digits "3"))).
Proof.
  apply (exponent_literal_is_an_integer false "12" "3");
    [discriminate | reflexivity | discriminate | reflexivity
    | vm_compute; reflexivity].
Defined.

(** *** Arrays and tables at their bounds *)

Lemma get_values_length constants items : forall vs,
  T.get_values constants items = Ok vs ->
  List.length vs = List.length items.
Proof.
  induction items as [|i items IH]; simpl; intros vs H.
  - inversion H; reflexivity.
  - destruct (T._get_value constants i); [|discriminate].
    destruct (T.get_values constants items) as [ws|]; [|discriminate].
    inversion H; subst. simpl. rewrite (IH ws eq_refl). reflexivity.
Qed.

(** X15.  The empty array [()] is not empty once parsed: Lark passes the
    placeholder [None] for the absent list of values, and [array] keeps
    every child it is given, so the result is a list that holds [None],
    serialized as an array with one [value] element. *)
Theorem empty_array_holds_none :
  (forall fuel constants rest,
      Parser.parse_array (S fuel) constants (")" ++ rest)
      = Some (Ok (VList [VNone], rest)))
  /\ (forall constants items vs,
        T.array constants items = Ok (VList vs) ->
        List.length vs = List.length items)
  /\ Parser.parse "()" = Some (Ok [VList [VNone]])
  /\ (forall str_,
        element_of str_ (VList [VNone])
        = Xml.Element "array" [] None
            [Xml.Element "value" [] (Some (str_ VNone)) []]).
Proof.
  split; [|split; [|split]].
  - intros fuel constants rest. reflexivity.
  - intros constants items vs. unfold T.array.
    destruct (T.get_values constants items) as [ws|] eqn:E; [|discriminate].
    intros H; inversion H; subst. apply (get_values_length _ _ _ E).
  - vm_compute. reflexivity.
  - intros str_. reflexivity.
Qed.

(** X16.  A table needs an entry, and a list of values or entries does not
    end with a comma: [table([])], [(1,)] and [table([a = 1,])] are syntax
    errors, whatever follows. *)
Theorem table_needs_an_entry fuel constants rest :
  Parser.parse_dict (2 + fuel) constants ("([]" ++ rest)
  = Some (Raise LarkError)
  /\ (forall items,
        Parser.array_loop (2 + fuel) constants items (",)" ++ rest)
        = Some (Raise LarkError))
  /\ (forall items,
        Parser.dict_loop (2 + fuel) constants items (",]" ++ rest)
        = Some (Raise LarkError))
  /\ Parser.parse "table([])" = Some (Raise LarkError)
  /\ Parser.parse "(1,)" = Some (Raise LarkError)
  /\ Parser.parse "table([a = 1,])" = Some (Raise LarkError).
Proof.
  split; [reflexivity|]. split; [intros; reflexivity|].
  split; [intros; reflexivity|].
  repeat split; vm_compute; reflexivity.
Qed.

(** *** Operators and signs *)

(** X17.  Subtraction and multiplication group as usual: operators of the
    same level from left to right, [*] before [-], parentheses first.  The
    names stand for any three Integers. *)
Theorem operators_group_as_usual x y z :
  let constants := [("x", VInt x); ("y", VInt y); ("z", VInt z)] in
  parse_with constants "const r = |x - y - z|"
  = Some (Ok [VConst "r" (VInt (x - y - z))])
  /\ parse_with constants "const r = |x - y * z|"
     = Some (Ok [VConst "r" (VInt (x - y * z))])
  /\ parse_with constants "const r = |x * y - z|"
     = Some (Ok [VConst "r" (VInt (x * y - z))])
  /\ parse_with constants "const r = |x - (y - z)|"
     = Some (Ok [VConst "r" (VInt (x - (y - z)))])
  /\ parse_with constants "const r = |(x - y) * z|"
     = Some (Ok [VConst "r" (VInt ((x - y) * z))]).
Proof.
  repeat split; vm_compute; reflexivity.
Qed.

Lemma minus_name_is_no_token c rest :
  is_lower c = true ->
  next_token [SIGNED_NUMBER; CNAME; LPAR; LEN; ABS] ("-" ++ String c rest)
  = Raise LarkError.
Proof.
  intros Hc.
  assert (Hscan : scan_number ("-" ++ String c rest) = None).
  { unfold scan_number.
    change (scan_sign ("-" ++ String c rest)) with (true, String c rest).
    unfold scan_unsigned. cbn [span].
    destruct c as [[] [] [] [] [] [] [] []]; try discriminate Hc;
      reflexivity. }
  unfold next_token.
  rewrite skip_ignored_stays by reflexivity.
  cbn [append accepted existsb terminal_eqb orb andb].
  change (is_lower "-") with false. cbn [andb].
  change (String "-" (String c rest)) with ("-" ++ String c rest).
  rewrite Hscan. reflexivity.
Qed.

(** X18.  A sign belongs to a number literal, never to a name: where an
    operand is expected [-5] is one token and [-x] is a syntax error, and
    after an operand a minus sign is the operator, also when a digit
    follows it, so [x -5] is a subtraction. *)
Theorem sign_belongs_to_number c name rest fuel x :
  is_lower c = true ->
  Parser.parse_factor (S fuel) ("-" ++ String c name)
  = Some (Raise LarkError)
  /\ next_token [STAR; SLASH; PLUS; MINUS; VBAR; RPAR] ("-" ++ rest)
     = Ok (Some {| type_ := MINUS; value := "-" |}, rest)
  /\ next_token [PLUS; MINUS; VBAR; RPAR] ("-" ++ rest)
     = Ok (Some {| type_ := MINUS; value := "-" |}, rest)
  /\ parse_with [("x", VInt x)] "const r = |x -5|"
     = Some (Ok [VConst "r" (VInt (x - 5))])
  /\ parse_with [("x", VInt x)] "const r = |x - -5|"
     = Some (Ok [VConst "r" (VInt (x - -5))])
  /\ parse_with [("x", VInt x)] "const r = |-x|" = Some (Raise LarkError).
Proof.
  intros Hc. split.
  - cbn [Parser.parse_factor]. rewrite minus_name_is_no_token by assumption.
    reflexivity.
  - split; [reflexivity|]. split; [reflexivity|].
    repeat split; vm_compute; reflexivity.
Qed.

Lemma sign_belongs_to_number_witness :
  Parser.parse_factor 1 ("-" ++ "x")
  = Some (Raise LarkError)
  /\ next_token [STAR; SLASH; PLUS; MINUS; VBAR; RPAR] ("-" ++ "5|")
     = Ok (Some {| type_ := MINUS; value := "-" |}, "5|")
  /\ next_token [PLUS; MINUS; VBAR; RPAR] ("-" ++ "5|")
     = Ok (Some {| type_ := MINUS; value := "-" |}, "5|")
  /\ parse_with [("x", VInt 7)] "const r = |x -5|"
     = Some (Ok [VConst "r" (VInt (7 - 5))])
  /\ parse_with [("x", VInt 7)] "const r = |x - -5|"
     = Some (Ok [VConst "r" (VInt (7 - -5))])
  /\ parse_with [("x", VInt 7)] "const r = |-x|" = Some (Raise LarkError).
Proof.
  apply (sign_belongs_to_number "x" "" "5|" 0%nat 7). reflexivity.
Defined.

(** *** Evaluation while parsing *)

(** X19.  An expression is evaluated when the parser reduces it, with the
    rest of the document still unread: its exception is the outcome
    whatever follows, also a text that could not be parsed.  Only the token
    after the closing bar is read before: a character that starts no token
    there is reported first. *)
Theorem errors_are_reported_in_document_order rest :
  Parser.parse ("const x = |a + b| const" ++ rest) = Some (Raise TypeError)
  /\ parse_with [("n", VInt 1); ("z", VInt 0)]
       ("const x = |n / z| const" ++ rest)
     = Some (Raise ZeroDivisionError)
  /\ Parser.parse "const x = |a + b| @" = Some (Raise LarkError).
Proof.
  split; [|split].
  - unfold Parser.parse, Parser.depth_bound. reflexivity.
  - unfold parse_with, Parser.depth_bound. reflexivity.
  - vm_compute. reflexivity.
Qed.

(** *** test_basic.py *)

(** X20.  The three tests of [TestBasic] pass.  The second compares the
    Float 5.0 that [10 / 2] gives with the int 5, which are equal. *)
Theorem tests_of_test_basic_pass :
  TestBasic.test_simple = true
  /\ TestBasic.test_simple_expression = true
  /\ TestBasic.test_const_reference = true
  /\ Parser.parse "const x = |10 / 2|" = Some (Ok [VConst "x" (VFloat five)])
  /\ TestBasic.equals_int (VFloat five) 5 = true
  /\ TestBasic.equals_int (VFloat five_and_a_half) 5 = false.
Proof.
  repeat split; vm_compute; reflexivity.
Qed.
